(** * Growth-reference pipeline: header normalisation, LMS extraction,
      gender split and series combination

    A shallow embedding of [process_data.py], [02_standardize_data.py] and
    [01_convert_to_csv.py].
    Python strings are lists of characters, cells of a pandas frame are a
    small sum type, floats are IEEE binary64 ([PrimFloat]), Python [int]s
    are [Z], and exceptions are an explicit error result. *)

From Stdlib Require Import ZArith NArith List Bool Ascii String Lia.
From Stdlib Require Import Floats Permutation FinFun.
Import ListNotations.

Local Open Scope bool_scope.
Local Open Scope list_scope.

Set Warnings "-inexact-float".

(* ================================================================== *)
(** * Python strings *)
(* ================================================================== *)

(** A Python [str] restricted to code points below 256: one [ascii] per
    character, read as its Latin-1 code point. *)
Definition str := list ascii.

Definition lit (s : string) : str := list_ascii_of_string s.

Definition code (c : ascii) : N := N_of_ascii c.

Definition in_range (lo hi : N) (c : ascii) : bool :=
  (lo <=? code c)%N && (code c <=? hi)%N.

(** [a == b] on strings *)
Fixpoint str_eqb (a b : str) : bool :=
  match a, b with
  | [], [] => true
  | x :: a', y :: b' => Ascii.eqb x y && str_eqb a' b'
  | _, _ => false
  end.

(** [str.lower()] : the upper-case letters below 256 are A-Z and the
    Latin-1 capitals 0xC0-0xDE without the multiplication sign 0xD7; each
    maps to the code point 32 above it. *)
Definition lower_char (c : ascii) : ascii :=
  if in_range 65 90 c || (in_range 192 222 c && negb (code c =? 215)%N)
  then ascii_of_N (code c + 32)
  else c.

Definition lower (s : str) : str := map lower_char s.

(** [str.isspace()] on one character. *)
Definition is_space (c : ascii) : bool :=
  in_range 9 13 c || in_range 28 32 c || (code c =? 133)%N || (code c =? 160)%N.

Fixpoint lstrip_by (p : ascii -> bool) (s : str) : str :=
  match s with
  | c :: t => if p c then lstrip_by p t else s
  | [] => []
  end.

Definition strip_by (p : ascii -> bool) (s : str) : str :=
  rev (lstrip_by p (rev (lstrip_by p s))).

(** [s.strip()] *)
Definition strip (s : str) : str := strip_by is_space s.

Definition underscore : ascii := "_"%char.

Definition is_underscore (c : ascii) : bool := (code c =? 95)%N.

(** [s.strip('_')] *)
Definition strip_underscores (s : str) : str := strip_by is_underscore s.

(** [s.startswith(p)] *)
Fixpoint startswith (p s : str) : bool :=
  match p, s with
  | [], _ => true
  | _ :: _, [] => false
  | a :: p', b :: s' => Ascii.eqb a b && startswith p' s'
  end.

(** [needle in hay] for strings: [needle] occurs as a contiguous run. *)
Fixpoint contains (needle hay : str) : bool :=
  startswith needle hay ||
  match hay with
  | [] => false
  | _ :: t => contains needle t
  end.

(** [s.endswith(suffix)] *)
Definition endswith (s suffix : str) : bool :=
  startswith (rev suffix) (rev s).

(** [s.split(sep)] for a one-character separator, and [parts[-1]]. *)
Fixpoint split_aux (sep : ascii) (cur : str) (s : str) : list str :=
  match s with
  | [] => [rev cur]
  | c :: t =>
      if Ascii.eqb c sep then rev cur :: split_aux sep [] t
      else split_aux sep (c :: cur) t
  end.

Definition split (sep : ascii) (s : str) : list str := split_aux sep [] s.

Definition last_part (parts : list str) : str := last parts [].

(** The character class [[a-zA-Z0-9_]] of the regular expressions. *)
Definition is_word_char (c : ascii) : bool :=
  in_range 97 122 c || in_range 65 90 c || in_range 48 57 c || is_underscore c.

(** [re.sub(r'[^a-zA-Z0-9_]', '_', s)] *)
Definition sub_char (c : ascii) : ascii :=
  if is_word_char c then c else underscore.

Definition sub_nonword (s : str) : str := map sub_char s.

(** [re.sub(r'_+', '_', s)] : every maximal run of underscores becomes one. *)
Fixpoint sub_underscore_runs (s : str) : str :=
  match s with
  | a :: t =>
      match t with
      | b :: _ =>
          if is_underscore a && is_underscore b then sub_underscore_runs t
          else a :: sub_underscore_runs t
      | [] => s
      end
  | [] => []
  end.

(* ================================================================== *)
(** * process_data.py : standardize_column_name *)
(* ================================================================== *)

(** The [mappings] dict, in insertion order (the order [items()] yields). *)
Definition mappings : list (str * str) :=
  [ (lit "week/month",    lit "age_weeks");
    (lit "years",         lit "age_years");
    (lit "age",           lit "age_years");
    (lit "(years)",       lit "age_years");
    (lit "week",          lit "age_weeks");
    (lit "month",         lit "age_months");
    (lit "skeletal age",  lit "skeletal_age");
    (lit "ht. (inches)",  lit "height_inches");
    (lit "mature height", lit "mature_height_pct");
    (lit "chart",         lit "reference") ].

(** [for key, value in mappings.items(): if key in col_lower: return value] *)
Fixpoint first_mapping (m : list (str * str)) (col_lower : str) : option str :=
  match m with
  | [] => None
  | (key, value) :: m' =>
      if contains key col_lower then Some value else first_mapping m' col_lower
  end.

Definition clean_up (col : str) : str :=
  lower (strip_underscores (sub_underscore_runs (sub_nonword col))).

Definition standardize_column_name (col : str) : str :=
  let col := strip col in
  let col_lower := lower col in
  match first_mapping mappings col_lower with
  | Some value => value
  | None => clean_up col
  end.

(* ================================================================== *)
(** * Python values, exceptions and arithmetic *)
(* ================================================================== *)

Inductive exn : Set :=
| ValueError | OverflowError | ZeroDivisionError | TypeError | KeyError.

(** The outcome of a computation that may raise. *)
Inductive result (A : Type) : Type :=
| Ok (a : A)
| Err (e : exn).

Arguments Ok {A} a.
Arguments Err {A} e.

Definition bind {A B : Type} (r : result A) (k : A -> result B) : result B :=
  match r with
  | Ok a => k a
  | Err e => Err e
  end.

Notation "x <- r ;; k" := (bind r (fun x => k))
  (at level 61, r at next level, right associativity).

(** A cell of a frame as the row loops see it.  [df.iterrows()] yields
    each row as a Series of the common dtype of the columns: a sheet whose
    columns are all integer columns yields numpy.int64 values, a sheet of
    numeric columns of which one holds floats yields floats, and a sheet
    with an object column yields the Python objects themselves. *)
Inductive cell : Set :=
| CNone                  (* a missing value: None *)
| CInt (n : Z)           (* a Python int *)
| CFloat (f : float)     (* a float; NaN is the missing float *)
| CStr (s : str)         (* any other object, such as a string *)
| CInt64 (n : Z).        (* a numpy.int64: an int of an integer column *)

(** [pd.isna(v)] on a scalar *)
Definition isna (v : cell) : bool :=
  match v with
  | CNone => true
  | CFloat f => PrimFloat.is_nan f
  | _ => false
  end.

(** [isinstance(v, (int, float))].  A numpy.float64 is a float; a
    numpy.int64 is no instance of int. *)
Definition is_number (v : cell) : bool :=
  match v with
  | CInt _ | CFloat _ => true
  | _ => false
  end.

(** [float(n)] : the nearest binary64 value, ties to even; an int beyond
    the range of a float raises OverflowError. *)
Definition float_of_int (n : Z) : result float :=
  match binary_normalize prec emax n 0 false with
  | S754_infinity _ => Err OverflowError
  | sf => Ok (SF2Prim sf)
  end.

(** [a / b] on two ints: the correctly rounded quotient.  The quotient
    is taken to 63 bits or more, with a sticky last bit for what is cut
    off, and rounded once to a float; a quotient beyond the range of a
    float raises OverflowError. *)
Definition int_truediv (a b : Z) : result float :=
  if (b =? 0)%Z then Err ZeroDivisionError
  else
    let negative := xorb (a <? 0)%Z (b <? 0)%Z in
    let a' := Z.abs a in
    let b' := Z.abs b in
    let k := Z.max 0 (64 + Z.log2 b' - Z.log2 a')%Z in
    let q := (a' * 2 ^ k / b')%Z in
    let sticky := if (a' * 2 ^ k mod b' =? 0)%Z then 0%Z else 1%Z in
    let m := (2 * q + sticky)%Z in
    match binary_normalize prec emax (if negative then - m else m)%Z
                           (- (k + 1))%Z negative with
    | S754_infinity _ => Err OverflowError
    | sf => Ok (SF2Prim sf)
    end.

Definition float_truediv (f g : float) : result float :=
  if PrimFloat.eqb g 0%float then Err ZeroDivisionError
  else Ok (PrimFloat.div f g).

(** [a * b] on numbers.  A numpy.int64 meets a float operand only; it is
    converted to a float as an int is. *)
Definition py_mul (a b : cell) : result cell :=
  match a, b with
  | CInt x, CInt y => Ok (CInt (x * y))
  | CInt x, CFloat g | CInt64 x, CFloat g =>
      f <- float_of_int x ;; Ok (CFloat (PrimFloat.mul f g))
  | CFloat f, CInt y => g <- float_of_int y ;; Ok (CFloat (PrimFloat.mul f g))
  | CFloat f, CFloat g => Ok (CFloat (PrimFloat.mul f g))
  | _, _ => Err TypeError
  end.

(** [a / b] on numbers; the source divides by literals other than zero.
    A numpy.int64 meets a float operand only (a Week column over 4.33). *)
Definition py_truediv (a b : cell) : result cell :=
  match a, b with
  | CInt x, CInt y => q <- int_truediv x y ;; Ok (CFloat q)
  | CInt x, CFloat g | CInt64 x, CFloat g =>
      f <- float_of_int x ;; q <- float_truediv f g ;; Ok (CFloat q)
  | CFloat f, CInt y =>
      g <- float_of_int y ;; q <- float_truediv f g ;; Ok (CFloat q)
  | CFloat f, CFloat g => q <- float_truediv f g ;; Ok (CFloat q)
  | _, _ => Err TypeError
  end.

(** [v < k] for a number [v] and a small int literal [k] (2 or 52 in the
    source).  Python compares an int and a float by value; [k] is exactly
    a float, so the comparison is the one of the two doubles. *)
Definition small_int (k : Z) : float := PrimFloat.of_uint63 (Uint63.of_Z k).

Definition py_lt (v : cell) (k : Z) : bool :=
  match v with
  | CInt n | CInt64 n => (n <? k)%Z
  | CFloat f => PrimFloat.ltb f (small_int k)
  | _ => false
  end.

(** [if s:] for an optional string argument: None and the empty string
    are false. *)
Definition truthy (s : option str) : bool :=
  match s with
  | Some (_ :: _) => true
  | _ => false
  end.

(* ================================================================== *)
(** * process_data.py : process_lms_data *)
(* ================================================================== *)

(** A frame: its column labels and its rows, each row holding one cell
    per column. *)
Record DataFrame : Set := {
  columns : list str;
  rows : list (list cell)
}.

(** The cells of a row whose column label satisfies [p]. *)
Fixpoint cells_where (p : str -> bool) (cols : list str) (row : list cell) : list cell :=
  match cols, row with
  | c :: cols', v :: row' =>
      if p c then v :: cells_where p cols' row' else cells_where p cols' row'
  | _, _ => []
  end.

(** The cells of a row that stand under the label [col]. *)
Definition labelled (cols : list str) (row : list cell) (col : str) : list cell :=
  cells_where (fun c => str_eqb c col) cols row.

(** [row[col]] read as a scalar.  A label that occurs once gives its
    cell.  A label that occurs several times gives a Series; the source
    only reads [row[col]] under [pd.isna] in a condition, where a Series
    raises ValueError. *)
Definition row_get (cols : list str) (row : list cell) (col : str) : result cell :=
  match labelled cols row col with
  | [v] => Ok v
  | [] => Err KeyError
  | _ :: _ :: _ => Err ValueError
  end.

(** The dict built for one row.  [val_L], [val_M], [val_S] are the keys
    'L', 'M', 'S': [None] when the key is absent or holds None, which
    [result_row.get(key)] does not tell apart. *)
Record result_row : Set := {
  source : str;
  measurement : str;
  age_years : option cell;
  age_weeks : option cell;
  age_months : option cell;
  gender_key : option str;
  age_range_key : option str;
  val_L : option cell;
  val_M : option cell;
  val_S : option cell
}.

Definition set_ages (r : result_row) (y w m : cell) : result_row :=
  {| source := source r; measurement := measurement r;
     age_years := Some y; age_weeks := Some w; age_months := Some m;
     gender_key := gender_key r; age_range_key := age_range_key r;
     val_L := val_L r; val_M := val_M r; val_S := val_S r |}.

Definition set_L (r : result_row) (v : option cell) : result_row :=
  {| source := source r; measurement := measurement r;
     age_years := age_years r; age_weeks := age_weeks r; age_months := age_months r;
     gender_key := gender_key r; age_range_key := age_range_key r;
     val_L := v; val_M := val_M r; val_S := val_S r |}.

Definition set_M (r : result_row) (v : option cell) : result_row :=
  {| source := source r; measurement := measurement r;
     age_years := age_years r; age_weeks := age_weeks r; age_months := age_months r;
     gender_key := gender_key r; age_range_key := age_range_key r;
     val_L := val_L r; val_M := v; val_S := val_S r |}.

Definition set_S (r : result_row) (v : option cell) : result_row :=
  {| source := source r; measurement := measurement r;
     age_years := age_years r; age_weeks := age_weeks r; age_months := age_months r;
     gender_key := gender_key r; age_range_key := age_range_key r;
     val_L := val_L r; val_M := val_M r; val_S := v |}.

(** [for x in xs: state = body(state, x)], stopping at the first
    exception. *)
Fixpoint for_each {A St : Type} (body : St -> A -> result St)
    (xs : list A) (st : St) : result St :=
  match xs with
  | [] => Ok st
  | x :: xs' => st' <- body st x ;; for_each body xs' st'
  end.

(** The columns [age_cols] is built from. *)
Definition is_age_col (col : str) : bool :=
  contains (lit "age") (lower col)
  || contains (lit "week") (lower col)
  || contains (lit "month") (lower col).

(** [gender_prefix = 'male' if gender == 'male' else 'female'] *)
Definition gender_prefix (gender : str) : str :=
  if str_eqb gender (lit "male") then lit "male" else lit "female".

Section ProcessLmsData.

Variable source_name : str.
Variable measurement_type : str.
Variable gender : option str.
Variable age_range : option str.
Variable cols : list str.

(** The dict a row starts from. *)
Definition new_result_row : result_row :=
  {| source := source_name; measurement := measurement_type;
     age_years := None; age_weeks := None; age_months := None;
     gender_key := if truthy gender then gender else None;
     age_range_key := if truthy age_range then age_range else None;
     val_L := None; val_M := None; val_S := None |}.

(** "Extract age": the magnitude heuristic and the back-fill. *)
Definition extract_age (age_val : cell) (r : result_row) : result result_row :=
  if is_number age_val then
    if py_lt age_val 2 then
      w <- py_mul age_val (CFloat 52.1775) ;;
      m <- py_mul age_val (CInt 12) ;;
      Ok (set_ages r age_val w m)
    else if py_lt age_val 52 then
      y <- py_truediv age_val (CFloat 52.1775) ;;
      m <- py_truediv age_val (CFloat 4.348) ;;
      Ok (set_ages r y age_val m)
    else
      y <- py_truediv age_val (CInt 12) ;;
      w <- py_mul age_val (CFloat 4.348) ;;
      Ok (set_ages r y w age_val)
  else Ok r.

(** [row[col] if not pd.isna(row[col]) else None] *)
Definition or_none (v : cell) : option cell :=
  if isna v then None else Some v.

(** [row[col] if not pd.isna(row[col]) else result_row.get(key)] *)
Definition or_previous (v : cell) (previous : option cell) : option cell :=
  if isna v then previous else Some v.

(** "Find L, M, S values": the body of the first loop over the columns. *)
Definition generic_column (row : list cell) (r : result_row) (col : str)
    : result result_row :=
  let col_lower := lower col in
  if contains (lower measurement_type) col_lower || contains (lit "lms") col_lower then
    if endswith col_lower (lit "l") || contains (lit "_l") col_lower then
      v <- row_get cols row col ;; Ok (set_L r (or_none v))
    else if endswith col_lower (lit "m") || contains (lit "_m") col_lower then
      v <- row_get cols row col ;; Ok (set_M r (or_none v))
    else if endswith col_lower (lit "s") || contains (lit "_s") col_lower then
      v <- row_get cols row col ;; Ok (set_S r (or_none v))
    else Ok r
  else Ok r.

(** The test a column passes to be read by the second loop. *)
Definition gender_column_matches (prefix col_lower : str) : bool :=
  contains prefix col_lower
  && (contains (lit "l") col_lower
      && (contains (lit "height") col_lower
          || contains (lit "weight") col_lower
          || contains (lit "bmi") col_lower
          || contains (lit "hc") col_lower)).

(** "Also check for gender-specific columns": the body of the second
    loop over the columns. *)
Definition gender_column (prefix : str) (row : list cell) (r : result_row)
    (col : str) : result result_row :=
  let col_lower := lower col in
  if gender_column_matches prefix col_lower then
    let parts := split underscore col_lower in
    if contains (lit "l") (last_part parts) || endswith col_lower (lit "l") then
      v <- row_get cols row col ;; Ok (set_L r (or_previous v (val_L r)))
    else if contains (lit "m") (last_part parts) || endswith col_lower (lit "m") then
      v <- row_get cols row col ;; Ok (set_M r (or_previous v (val_M r)))
    else if contains (lit "s") (last_part parts) || endswith col_lower (lit "s") then
      v <- row_get cols row col ;; Ok (set_S r (or_previous v (val_S r)))
    else Ok r
  else Ok r.

Definition generic_strategy (row : list cell) (r : result_row) : result result_row :=
  for_each (generic_column row) cols r.

Definition gender_strategy (row : list cell) (r : result_row) : result result_row :=
  match gender with
  | Some g =>
      if truthy gender then for_each (gender_column (gender_prefix g) row) cols r
      else Ok r
  | None => Ok r
  end.

(** The dict of a row whose age cell [age_val] is not missing, once the
    age and both loops over the columns are done. *)
Definition scan_row (age_val : cell) (row : list cell) : result result_row :=
  r <- extract_age age_val new_result_row ;;
  r <- generic_strategy row r ;;
  gender_strategy row r.

(** One turn of [for idx, row in df.iterrows()]: [None] when the row
    adds nothing to [result_rows]. *)
Definition process_row (age_col : str) (row : list cell) : result (option result_row) :=
  age_val <- row_get cols row age_col ;;
  if isna age_val then Ok None
  else
    r <- scan_row age_val row ;;
    match val_M r with
    | Some _ => Ok (Some r)
    | None => Ok None
    end.

(** [result_rows] after the loop over the given rows. *)
Fixpoint collect_rows (age_col : str) (rws : list (list cell)) : result (list result_row) :=
  match rws with
  | [] => Ok []
  | row :: rest =>
      emitted <- process_row age_col row ;;
      later <- collect_rows age_col rest ;;
      Ok (match emitted with Some r => r :: later | None => later end)
  end.

End ProcessLmsData.

(** [process_lms_data(df, source_name, measurement_type, gender, age_range)]:
    the list of dicts the returned frame is built from, or [None]. *)
Definition process_lms_data (df : DataFrame) (source_name measurement_type : str)
    (gender age_range : option str) : result (option (list result_row)) :=
  match filter is_age_col (columns df) with
  | [] => Ok None
  | age_col :: _ =>
      result_rows <- collect_rows source_name measurement_type gender age_range
                       (columns df) age_col (rows df) ;;
      Ok (match result_rows with [] => None | _ :: _ => Some result_rows end)
  end.

(* ================================================================== *)
(** * Frames as 02_standardize_data.py uses them *)
(* ================================================================== *)

(** This script handles columns whole and never tests the type of a
    cell: an int cell counts by its value, whether [CInt] or [CInt64]. *)

(** [col in df.columns] *)
Definition has_column (df : DataFrame) (col : str) : bool :=
  existsb (fun c => str_eqb c col) (columns df).

(** [df[col]] : the cells of a column, top to bottom.  [pd.read_csv]
    gives every column a label of its own, so one column matches. *)
Definition column (df : DataFrame) (col : str) : list cell :=
  map (fun row => hd CNone (labelled (columns df) row col)) (rows df).

(** [df.drop(col, axis=1)] *)
Definition drop_column (df : DataFrame) (col : str) : DataFrame :=
  {| columns := filter (fun c => negb (str_eqb c col)) (columns df);
     rows := map (cells_where (fun c => negb (str_eqb c col)) (columns df)) (rows df) |}.

(** [df[labels]] : for each label in turn, the columns that carry it. *)
Definition select_columns (df : DataFrame) (labels : list str) : DataFrame :=
  {| columns := flat_map (fun l => filter (fun c => str_eqb c l) (columns df)) labels;
     rows := map (fun row => flat_map (labelled (columns df) row) labels) (rows df) |}.

(** [cols = [x_col] + [c for c in df.columns if c != x_col]; df = df[cols]] *)
Definition x_first (df : DataFrame) (x_col : str) : DataFrame :=
  select_columns df (x_col :: filter (fun c => negb (str_eqb c x_col)) (columns df)).

(** [df.rename(columns={old: new})] *)
Definition rename_column (df : DataFrame) (old new : str) : DataFrame :=
  {| columns := map (fun c => if str_eqb c old then new else c) (columns df);
     rows := rows df |}.

Fixpoint replace_where (p : str -> bool) (cols : list str) (row : list cell)
    (v : cell) : list cell :=
  match cols, row with
  | c :: cols', x :: row' =>
      (if p c then v else x) :: replace_where p cols' row' v
  | _, _ => row
  end.

Fixpoint zip_with {A B C : Type} (f : A -> B -> C) (xs : list A) (ys : list B) : list C :=
  match xs, ys with
  | x :: xs', y :: ys' => f x y :: zip_with f xs' ys'
  | _, _ => []
  end.

(** [df[col] = values] : an existing column is overwritten in place, a
    new one is added as the last column. *)
Definition set_column (df : DataFrame) (col : str) (values : list cell) : DataFrame :=
  if has_column df col then
    {| columns := columns df;
       rows := zip_with (fun row v =>
                 replace_where (fun c => str_eqb c col) (columns df) row v)
                 (rows df) values |}
  else
    {| columns := columns df ++ [col];
       rows := zip_with (fun row v => row ++ [v]) (rows df) values |}.

(** [v == k] for a cell and a small int literal, by value. *)
Definition cell_eq_int (v : cell) (k : Z) : bool :=
  match v with
  | CInt n | CInt64 n => (n =? k)%Z
  | CFloat f => PrimFloat.eqb f (small_int k)
  | _ => false
  end.

(** [df[df[col] == k]] *)
Definition rows_where_eq (df : DataFrame) (col : str) (k : Z) : DataFrame :=
  {| columns := columns df;
     rows := filter (fun row =>
               cell_eq_int (hd CNone (labelled (columns df) row col)) k) (rows df) |}.

Fixpoint map_result {A B : Type} (f : A -> result B) (xs : list A) : result (list B) :=
  match xs with
  | [] => Ok []
  | x :: xs' => y <- f x ;; ys <- map_result f xs' ;; Ok (y :: ys)
  end.

(* ================================================================== *)
(** * 02_standardize_data.py *)
(* ================================================================== *)

Definition WHO_MEASUREMENT_MAP : list (str * str) :=
  [ (lit "bmi",  lit "bmifa");
    (lit "lhfa", lit "lhfa");
    (lit "wfa",  lit "wfa");
    (lit "hcfa", lit "hcfa");
    (lit "acfa", lit "acfa");
    (lit "ssfa", lit "ssfa");
    (lit "tsfa", lit "tsfa");
    (lit "wfl",  lit "wfl");
    (lit "wfh",  lit "wfh") ].

Definition CDC_MEASUREMENT_MAP : list (str * str) :=
  [ (lit "wtageinf",  lit "wfa");
    (lit "wtage",     lit "wfa");
    (lit "lenageinf", lit "lhfa");
    (lit "statage",   lit "hfa");
    (lit "hcageinf",  lit "hcfa");
    (lit "wtleninf",  lit "wfl");
    (lit "wtstat",    lit "wfh");
    (lit "bmiage",    lit "bmifa") ].

(** [weeks_to_months] applied to a column: a missing cell stays missing
    (NaN), a number is divided by 4.33, anything else raises. *)
Definition weeks_to_months (weeks : list cell) : result (list cell) :=
  map_result (fun w => if isna w then Ok (CFloat PrimFloat.nan)
                       else py_truediv w (CFloat 4.33)) weeks.

(** The loop "Extract measurement type": the first pattern of the map
    that occurs in the file name. *)
Definition measurement_of (m : list (str * str)) (filename : str) : option str :=
  first_mapping m filename.

(** "Extract gender" of [process_who_file]. *)
Definition who_gender (filename : str) : option str :=
  if contains (lit "boys") filename || contains (lit "male") filename
  then Some (lit "boys")
  else if contains (lit "girls") filename || contains (lit "female") filename
  then Some (lit "girls")
  else None.

Definition is_length_based (measurement : str) : bool :=
  str_eqb measurement (lit "wfl") || str_eqb measurement (lit "wfh").

(** [process_who_file(file_path)].  [stem] is [file_path.stem]; [csv] is
    what [pd.read_csv(file_path)] gives, [None] when it raises. *)
Definition process_who_file (stem : str) (csv : option DataFrame)
    : result (option (str * str * DataFrame)) :=
  let filename := lower stem in
  match measurement_of WHO_MEASUREMENT_MAP filename with
  | None => Ok None
  | Some measurement =>
      match who_gender filename with
      | None => Ok None
      | Some gender =>
          match csv with
          | None => Ok None
          | Some df =>
              if is_length_based measurement then
                if has_column df (lit "Length") then
                  Ok (Some (measurement, gender, x_first df (lit "Length")))
                else if has_column df (lit "Height") then
                  Ok (Some (measurement, gender, x_first df (lit "Height")))
                else Ok None
              else if has_column df (lit "Week") then
                months <- weeks_to_months (column df (lit "Week")) ;;
                let df := set_column df (lit "Month") months in
                let df := drop_column df (lit "Week") in
                Ok (Some (measurement, gender, x_first df (lit "Month")))
              else if negb (has_column df (lit "Month")) then Ok None
              else Ok (Some (measurement, gender, x_first df (lit "Month")))
          end
      end
  end.

(** One turn of "Split by gender": nothing when no row carries the sex
    code, else the rows that carry it, without the Sex column and with
    the x-axis column first. *)
Definition split_gender (measurement : str) (df : DataFrame) (x_col : str)
    (sex_code : Z) (gender : str) : list (str * str * DataFrame) :=
  let gender_df := rows_where_eq df (lit "Sex") sex_code in
  if (0 <? List.length (rows gender_df))%nat then
    let gender_df := drop_column gender_df (lit "Sex") in
    [(measurement, gender, x_first gender_df x_col)]
  else [].

Definition split_by_gender (measurement : str) (df : DataFrame) (x_col : str)
    : list (str * str * DataFrame) :=
  split_gender measurement df x_col 1 (lit "boys")
  ++ split_gender measurement df x_col 2 (lit "girls").

(** [process_cdc_file(file_path)] *)
Definition process_cdc_file (stem : str) (csv : option DataFrame)
    : list (str * str * DataFrame) :=
  let filename := lower stem in
  match measurement_of CDC_MEASUREMENT_MAP filename with
  | None => []
  | Some measurement =>
      match csv with
      | None => []
      | Some df =>
          if is_length_based measurement then
            if negb (has_column df (lit "Sex")) then []
            else if has_column df (lit "Length") then
              split_by_gender measurement df (lit "Length")
            else if has_column df (lit "Height") then
              split_by_gender measurement df (lit "Height")
            else if has_column df (lit "Stature") then
              split_by_gender measurement df (lit "Stature")
            else []
          else if negb (has_column df (lit "Sex"))
                  || negb (has_column df (lit "Agemos")) then []
          else
            let df := rename_column df (lit "Agemos") (lit "Month") in
            split_by_gender measurement df (lit "Month")
      end
  end.

(** The two [defaultdict(list)] of [main], keyed by (measurement,
    gender), in insertion order. *)
Definition tables : Type := list ((str * str) * list DataFrame).

Definition key_eqb (a b : str * str) : bool :=
  str_eqb (fst a) (fst b) && str_eqb (snd a) (snd b).

(** [data[key].append(df)] *)
Fixpoint append_table (data : tables) (key : str * str) (df : DataFrame) : tables :=
  match data with
  | [] => [(key, [df])]
  | (k, dfs) :: rest =>
      if key_eqb k key then (k, dfs ++ [df]) :: rest
      else (k, dfs) :: append_table rest key df
  end.

(** One turn of the loop over [who_files] in [main]. *)
Definition who_step (who_data : tables) (file : str * option DataFrame) : result tables :=
  r <- process_who_file (fst file) (snd file) ;;
  match r with
  | Some (measurement, gender, df) => Ok (append_table who_data (measurement, gender) df)
  | None => Ok who_data
  end.

(** One turn of the loop over [cdc_files] in [main]. *)
Definition cdc_step (cdc_data : tables) (file : str * option DataFrame) : tables :=
  fold_left (fun data '(measurement, gender, df) =>
               append_table data (measurement, gender) df)
            (process_cdc_file (fst file) (snd file)) cdc_data.

(* ================================================================== *)
(** * numpy's argsort with kind='quicksort' *)
(* ================================================================== *)

(** [DataFrame.sort_values] is called without [kind], so pandas sorts
    with [kind='quicksort']: numpy's introsort over an array [tosort] of
    row numbers (npysort/quicksort.cpp, [aquicksort]).  Segments of more
    than 17 row numbers are partitioned around the median of three, the
    others are sorted by insertion, and a segment popped after the depth
    budget is spent is sorted by heapsort.  The sort is not stable.
    This is the generic path of numpy; a build that hands 64-bit keys to
    x86-simd-sort sorts as well, but may order equal keys otherwise. *)

Section Argsort.

(** [less i j] : the key of row [i] is below the key of row [j]. *)
Variable less : nat -> nat -> bool.

Definition get (a : list nat) (i : nat) : nat := nth i a O.

Fixpoint put (a : list nat) (i : nat) (x : nat) : list nat :=
  match a, i with
  | [], _ => []
  | _ :: t, O => x :: t
  | h :: t, S i' => h :: put t i' x
  end.

Definition swap (a : list nat) (i j : nat) : list nat :=
  put (put a i (get a j)) j (get a i).

(** The inner loop of the insertion sort: the row numbers before [pj]
    whose key is above the one of [vi] move up by one place, and [vi] is
    put into the gap. *)
Fixpoint insert_at (steps : nat) (a : list nat) (pl pj vi : nat) : list nat :=
  match steps with
  | O => put a pj vi
  | S steps' =>
      if (pl <? pj)%nat && less vi (get a (pj - 1))
      then insert_at steps' (put a pj (get a (pj - 1))) pl (pj - 1) vi
      else put a pj vi
  end.

(** [for (pi = pl + 1; pi <= pr; ++pi)] *)
Fixpoint insertion_from (turns : nat) (a : list nat) (pl pi : nat) : list nat :=
  match turns with
  | O => a
  | S turns' =>
      insertion_from turns' (insert_at (pi - pl) a pl pi (get a pi)) pl (pi + 1)
  end.

Definition insertion_sort (a : list nat) (pl pr : nat) : list nat :=
  insertion_from (pr - pl) a pl (pl + 1).

Definition median_of_three (a : list nat) (pl pm pr : nat) : list nat :=
  let a := if less (get a pm) (get a pl) then swap a pm pl else a in
  let a := if less (get a pr) (get a pm) then swap a pr pm else a in
  if less (get a pm) (get a pl) then swap a pm pl else a.

(** [do ++pi; while (v[tosort[pi]] < vp)] *)
Fixpoint scan_up (steps : nat) (a : list nat) (vp pi : nat) : nat :=
  match steps with
  | O => pi + 1
  | S steps' =>
      if less (get a (pi + 1)) vp then scan_up steps' a vp (pi + 1) else pi + 1
  end.

(** [do --pj; while (vp < v[tosort[pj]])] *)
Fixpoint scan_down (steps : nat) (a : list nat) (vp pj : nat) : nat :=
  match steps with
  | O => pj - 1
  | S steps' =>
      if less vp (get a (pj - 1)) then scan_down steps' a vp (pj - 1) else pj - 1
  end.

Fixpoint partition_loop (turns : nat) (a : list nat) (vp pi pj : nat) : list nat * nat :=
  match turns with
  | O => (a, pi)
  | S turns' =>
      let pi := scan_up (List.length a) a vp pi in
      let pj := scan_down (List.length a) a vp pj in
      if (pj <=? pi)%nat then (a, pi)
      else partition_loop turns' (swap a pi pj) vp pi pj
  end.

(** One partition of the segment [pl..pr]: the array afterwards and the
    place of the pivot. *)
Definition partition (a : list nat) (pl pr : nat) : list nat * nat :=
  let pm := pl + (pr - pl) / 2 in
  let a := median_of_three a pl pm pr in
  let vp := get a pm in
  let a := swap a pm (pr - 1) in
  let '(a, pi) := partition_loop (List.length a) a vp pl (pr - 1) in
  (swap a pi (pr - 1), pi).

(** The sift loop of heapsort on the segment that starts at [pl], with
    the heap numbered from 1: place [i] of the heap is [pl + i - 1]. *)
Fixpoint sift (steps : nat) (a : list nat) (pl n tmp i j : nat) : list nat :=
  match steps with
  | O => put a (pl + i - 1) tmp
  | S steps' =>
      if (j <=? n)%nat then
        let j := if (j <? n)%nat && less (get a (pl + j - 1)) (get a (pl + j))
                 then j + 1 else j in
        if less tmp (get a (pl + j - 1))
        then sift steps' (put a (pl + i - 1) (get a (pl + j - 1))) pl n tmp j (j + j)
        else put a (pl + i - 1) tmp
      else put a (pl + i - 1) tmp
  end.

(** [for (l = n >> 1; l > 0; --l)] *)
Fixpoint build_heap (l : nat) (a : list nat) (pl n : nat) : list nat :=
  match l with
  | O => a
  | S l' => build_heap l' (sift n a pl n (get a (pl + l - 1)) l (l + l)) pl n
  end.

(** [for (; n > 1;)] *)
Fixpoint drain_heap (turns : nat) (a : list nat) (pl n : nat) : list nat :=
  match turns with
  | O => a
  | S turns' =>
      if (1 <? n)%nat then
        let tmp := get a (pl + n - 1) in
        let a := put a (pl + n - 1) (get a pl) in
        drain_heap turns' (sift n a pl (n - 1) tmp 1 2) pl (n - 1)
      else a
  end.

Definition aheapsort (a : list nat) (pl n : nat) : list nat :=
  drain_heap n (build_heap (n / 2) a pl n) pl n.

(** The segment [pl..pr] sorted.  [popped] tells a segment that comes
    off the stack (or the whole array) from one the partition loop goes
    on with; the depth budget is tested on the former only. *)
Fixpoint aquicksort_segment (fuel : nat) (popped : bool) (cdepth : Z)
    (a : list nat) (pl pr : nat) : list nat :=
  match fuel with
  | O => a
  | S fuel' =>
      if popped && (cdepth <? 0)%Z then aheapsort a pl (pr - pl + 1)
      else if (16 <? pr - pl)%nat then
        let '(a, pi) := partition a pl pr in
        let cdepth := (cdepth - 1)%Z in
        if (pi - pl <? pr - pi)%nat then
          let a := aquicksort_segment fuel' false cdepth a pl (pi - 1) in
          aquicksort_segment fuel' true cdepth a (pi + 1) pr
        else
          let a := aquicksort_segment fuel' false cdepth a (pi + 1) pr in
          aquicksort_segment fuel' true cdepth a pl (pi - 1)
      else insertion_sort a pl pr
  end.

(** [values.argsort(kind='quicksort')] for [num] values. *)
Definition argsort_quicksort (num : nat) : list nat :=
  aquicksort_segment (S num) true (2 * Z.log2 (Z.of_nat num))%Z
    (seq 0 num) 0 (num - 1).

End Argsort.

(* ================================================================== *)
(** * 02_standardize_data.py : combine_dataframes *)
(* ================================================================== *)

(** The values of a column as the sort and the duplicate test see them:
    an int64 column when every cell is an int, else a float64 column in
    which a missing cell is NaN.  A text cell raises TypeError, as the
    comparison of a text with a number does; a column of text only, which
    pandas sorts by the order of strings, is not covered. *)
Inductive key : Set :=
| KInt (n : Z)
| KFloat (f : float).

Definition is_int_cell (v : cell) : bool :=
  match v with
  | CInt _ | CInt64 _ => true
  | _ => false
  end.

Definition float_key (v : cell) : result key :=
  match v with
  | CInt n | CInt64 n => f <- float_of_int n ;; Ok (KFloat f)
  | CFloat f => Ok (KFloat f)
  | CNone => Ok (KFloat PrimFloat.nan)
  | CStr _ => Err TypeError
  end.

Definition int_key (v : cell) : key :=
  match v with
  | CInt n | CInt64 n => KInt n
  | _ => KInt 0
  end.

Definition column_keys (cells : list cell) : result (list key) :=
  if forallb is_int_cell cells then Ok (map int_key cells)
  else map_result float_key cells.

Definition key_less (a b : key) : bool :=
  match a, b with
  | KInt x, KInt y => (x <? y)%Z
  | KFloat f, KFloat g => PrimFloat.ltb f g
  | _, _ => false
  end.

Definition key_isna (k : key) : bool :=
  match k with
  | KFloat f => PrimFloat.is_nan f
  | KInt _ => false
  end.

(** Two values count as duplicates when they are equal or both NaN. *)
Definition key_same (a b : key) : bool :=
  match a, b with
  | KInt x, KInt y => (x =? y)%Z
  | KFloat f, KFloat g =>
      PrimFloat.eqb f g || (PrimFloat.is_nan f && PrimFloat.is_nan g)
  | _, _ => false
  end.

(** The first occurrence of each label, in order. *)
Fixpoint unique_labels (seen : list str) (labels : list str) : list str :=
  match labels with
  | [] => []
  | l :: rest =>
      if existsb (str_eqb l) seen then unique_labels seen rest
      else l :: unique_labels (l :: seen) rest
  end.

(** The rows of [df] laid out under [labels]; a column [df] does not have
    is filled with missing cells. *)
Definition reindex (labels : list str) (df : DataFrame) : list (list cell) :=
  map (fun row => map (fun l => hd CNone (labelled (columns df) row l)) labels)
      (rows df).

(** [pd.concat(dfs, ignore_index=True)] : the frames one below the other,
    in the order of the list, under the union of their columns.  This is
    [concat] on frames with distinct labels, which [pd.read_csv] gives. *)
Definition concat (dfs : list DataFrame) : DataFrame :=
  let labels := unique_labels [] (flat_map columns dfs) in
  {| columns := labels; rows := flat_map (reindex labels) dfs |}.

(** pandas' [nargsort]: the rows with a key in the order numpy's argsort
    gives them, then the rows whose key is NaN. *)
Definition nargsort (keys : list key) : list nat :=
  let idx := seq 0 (List.length keys) in
  let has_key := fun i => negb (key_isna (nth i keys (KInt 0))) in
  let non_nan_idx := filter has_key idx in
  let nan_idx := filter (fun i => negb (has_key i)) idx in
  let non_nans := map (fun i => nth i keys (KInt 0)) non_nan_idx in
  let less := fun i j => key_less (nth i non_nans (KInt 0)) (nth j non_nans (KInt 0)) in
  map (fun i => nth i non_nan_idx O) (argsort_quicksort less (List.length non_nans))
  ++ nan_idx.

(** [df.sort_values(x_col)] on a frame with distinct labels *)
Definition sort_values (df : DataFrame) (x_col : str) : result DataFrame :=
  if has_column df x_col then
    keys <- column_keys (column df x_col) ;;
    Ok {| columns := columns df;
          rows := map (fun i => nth i (rows df) []) (nargsort keys) |}
  else Err KeyError.

(** The rows that no later row duplicates. *)
Fixpoint keep_last (keyed : list (key * list cell)) : list (list cell) :=
  match keyed with
  | [] => []
  | (k, row) :: rest =>
      if existsb (fun kr => key_same k (fst kr)) rest then keep_last rest
      else row :: keep_last rest
  end.

(** [df.drop_duplicates(subset=[x_col], keep='last')] *)
Definition drop_duplicates_last (df : DataFrame) (x_col : str) : result DataFrame :=
  if has_column df x_col then
    keys <- column_keys (column df x_col) ;;
    Ok {| columns := columns df; rows := keep_last (combine keys (rows df)) |}
  else Err KeyError.

(** [combine_dataframes(dfs, x_col)] *)
Definition combine_dataframes (dfs : list DataFrame) (x_col : str)
    : result (option DataFrame) :=
  match dfs with
  | [] => Ok None
  | _ :: _ =>
      let combined := concat dfs in
      combined <- sort_values combined x_col ;;
      combined <- drop_duplicates_last combined x_col ;;
      Ok (Some combined)
  end.

(* ================================================================== *)
(** * process_data.py : files, sheets and the metadata record *)
(* ================================================================== *)

(** "Determine measurement type from filename" of [process_excel_file]
    and [process_csv_file]. *)
Definition file_measurement (filename : str) : option str :=
  if contains (lit "height") filename || contains (lit "ht") filename
     || contains (lit "len") filename
  then Some (lit "height")
  else if contains (lit "weight") filename || contains (lit "wt") filename
  then Some (lit "weight")
  else if contains (lit "bmi") filename
  then Some (lit "bmi")
  else if contains (lit "hc") filename || contains (lit "head") filename
          || contains (lit "ofc") filename
  then Some (lit "head_circumference")
  else None.

Definition file_gender (filename : str) : option str :=
  if contains (lit "boy") filename || contains (lit "male") filename
  then Some (lit "male")
  else if contains (lit "girl") filename || contains (lit "female") filename
  then Some (lit "female")
  else None.

Definition file_age_range (filename : str) : option str :=
  if contains (lit "0-36") filename || contains (lit "0_36") filename
  then Some (lit "0-36_months")
  else if contains (lit "2-20") filename || contains (lit "2_20") filename
  then Some (lit "2-20_years")
  else None.

(** A path as the functions read it: [str(file_path)],
    [Path(file_path).stem] and [Path(file_path).name]. *)
Record file_ref : Set := {
  file_path : str;
  file_stem : str;
  file_name : str
}.

(** An entry of [metadata["files"]], by its "type": raw_csv,
    processed_lms or csv. *)
Inductive file_entry : Set :=
| RawCsv (source original output : str) (measurement gender age_range : option str)
| ProcessedLms (source original output : str) (n_rows : nat)
| Csv (source original output : str) (measurement : option str) (n_rows : nat).

Definition entry_output (e : file_entry) : str :=
  match e with
  | RawCsv _ _ output _ _ _ => output
  | ProcessedLms _ _ output _ => output
  | Csv _ _ output _ _ => output
  end.

(** What [to_csv] is called on: a frame that was read, or the frame of
    the row dicts of [process_lms_data]. *)
Inductive csv_content : Set :=
| FrameCsv (df : DataFrame)
| LmsCsv (result_rows : list result_row).

(** The calls of [to_csv] that succeeded so far, oldest first, each with
    its path, and the global [metadata]. *)
Record run_state : Set := {
  written : list (str * csv_content);
  meta_sources : list (str * str);
  meta_files : list file_entry
}.

Definition record_file (st : run_state) (output : str) (content : csv_content)
    (entry : file_entry) : run_state :=
  {| written := written st ++ [(output, content)];
     meta_sources := meta_sources st;
     meta_files := meta_files st ++ [entry] |}.

(** [df.empty] : no row or no column. *)
Definition df_empty (df : DataFrame) : bool :=
  match columns df, rows df with
  | _ :: _, _ :: _ => false
  | _, _ => true
  end.

(** [df.columns = [standardize_column_name(col) for col in df.columns]] *)
Definition standardize_columns (df : DataFrame) : DataFrame :=
  {| columns := map standardize_column_name (columns df); rows := rows df |}.

(** A workbook as [process_excel_file] and [convert_excel_to_csv] read
    it: [None] when [pd.ExcelFile] raises, else the sheets in the order of
    [sheet_names], each with what [pd.read_excel] gives, [None] when it
    raises. *)
Definition workbook : Set := option (list (str * option DataFrame)).

Module ProcessData.

Section Files.

(** [str(OUTPUT_DIR / output_name)] *)
Variable output_path : str -> str.

(** Whether [to_csv] to a path succeeds; it raises otherwise. *)
Variable writable : str -> bool.

Variable source_name : str.

(** One turn of the loop over the sheets of [process_excel_file]: the
    state and [results] afterwards.  Any exception skips the sheet. *)
Definition process_sheet (file : file_ref)
    (acc : run_state * list (list result_row)) (sheet : str * option DataFrame)
    : run_state * list (list result_row) :=
  let '(st, results) := acc in
  match snd sheet with
  | None => acc
  | Some df =>
      if df_empty df then acc
      else
        let filename := lower (file_stem file) in
        let measurement_type := file_measurement filename in
        let gender := file_gender filename in
        let age_range := file_age_range filename in
        let df := standardize_columns df in
        match process_lms_data df source_name
                (match measurement_type with Some m => m | None => lit "unknown" end)
                gender age_range with
        | Err _ => acc
        | Ok (Some processed) => (st, results ++ [processed])
        | Ok None =>
            let output_name :=
              source_name ++ lit "_" ++ file_stem file ++ lit "_" ++ fst sheet
              ++ lit ".csv" in
            if writable (output_path output_name) then
              (record_file st (output_path output_name) (FrameCsv df)
                 (RawCsv source_name (file_path file) (output_path output_name)
                    measurement_type gender age_range),
               results)
            else acc
        end
  end.

(** [process_excel_file(file_path, source_name)] : the returned flag and
    the state afterwards. *)
Definition process_excel_file (file : file_ref) (book : workbook) (st : run_state)
    : bool * run_state :=
  match book with
  | None => (false, st)
  | Some sheets =>
      let '(st, results) := fold_left (process_sheet file) sheets (st, []) in
      match results with
      | [] => (false, st)
      | _ :: _ =>
          let combined := List.concat results in
          let output_name :=
            source_name ++ lit "_" ++ file_stem file ++ lit "_processed.csv" in
          if writable (output_path output_name) then
            (true,
             record_file st (output_path output_name) (LmsCsv combined)
               (ProcessedLms source_name (file_path file) (output_path output_name)
                  (List.length combined)))
          else (false, st)
      end
  end.

(** [process_csv_file(file_path, source_name)].  [csv] is what
    [pd.read_csv] gives, [None] when it raises. *)
Definition process_csv_file (file : file_ref) (csv : option DataFrame)
    (st : run_state) : bool * run_state :=
  match csv with
  | None => (false, st)
  | Some df =>
      let df := standardize_columns df in
      let filename := lower (file_stem file) in
      let measurement_type := file_measurement filename in
      let output_name := source_name ++ lit "_" ++ file_name file in
      if writable (output_path output_name) then
        (true,
         record_file st (output_path output_name) (FrameCsv df)
           (Csv source_name (file_path file) (output_path output_name)
              measurement_type (List.length (rows df))))
      else (false, st)
  end.

(** What [process_directory] finds: [None] when the directory does not
    exist, else the files of [rglob("*.xls*")] with their workbooks and
    the files of [rglob("*.csv")] with their contents. *)
Definition listing : Set :=
  option (list (file_ref * workbook) * list (file_ref * option DataFrame)).

(** [process_directory(directory, source_name)] *)
Definition process_directory (directory : str) (found : listing) (st : run_state)
    : run_state :=
  match found with
  | None => st
  | Some (excel_files, csv_files) =>
      let st := {| written := written st;
                   meta_sources := meta_sources st ++ [(source_name, directory)];
                   meta_files := meta_files st |} in
      let st := fold_left (fun st f => snd (process_excel_file (fst f) (snd f) st))
                          excel_files st in
      fold_left (fun st f => snd (process_csv_file (fst f) (snd f) st)) csv_files st
  end.

End Files.

(** The [sources] dict of [main]: name and directory under [temp_repo]. *)
Definition sources : list (str * str) :=
  [ (lit "cdc2000",        lit "temp_repo/cdc2000");
    (lit "who2006",        lit "temp_repo/who2006");
    (lit "uk_who",         lit "temp_repo/uk-who");
    (lit "uk90",           lit "temp_repo/uk90");
    (lit "trisomy21_aap",  lit "temp_repo/trisomy21/AAP");
    (lit "trisomy21_uk",   lit "temp_repo/trisomy21/UKReference");
    (lit "turner",         lit "temp_repo/turner");
    (lit "bayley_pinneau", lit "temp_repo/bayley-pinneau");
    (lit "spirometry",     lit "temp_repo/spirometry") ].

(** The metadata at the start of a run. *)
Definition initial_state : run_state :=
  {| written := []; meta_sources := []; meta_files := [] |}.

(** [main()] : [None] when [temp_repo] does not exist, else the state
    whose metadata is dumped to [metadata.json].  [found] gives what each
    source directory holds. *)
Definition main (output_path : str -> str) (writable : str -> bool)
    (repo_exists : bool) (found : str -> listing) : option run_state :=
  if negb repo_exists then None
  else
    Some (fold_left
            (fun st source =>
               match found (snd source) with
               | None => st
               | Some _ =>
                   process_directory output_path writable (fst source) (snd source)
                     (found (snd source)) st
               end)
            sources initial_state).

End ProcessData.

(* ================================================================== *)
(** * 01_convert_to_csv.py *)
(* ================================================================== *)

Module ConvertToCsv.

(** [sheet_name.replace('/', '_').replace('\\', '_')] *)
Definition safe_sheet_name (sheet_name : str) : str :=
  map (fun c => if Ascii.eqb c "\"%char then underscore else c)
      (map (fun c => if Ascii.eqb c "/"%char then underscore else c) sheet_name).

(** [csv_filename] for a sheet of a workbook of [n_sheets] sheets. *)
Definition csv_filename (stem : str) (n_sheets : nat) (sheet_name : str) : str :=
  if (n_sheets =? 1)%nat then stem ++ lit ".csv"
  else stem ++ lit "_" ++ safe_sheet_name sheet_name ++ lit ".csv".

Section Convert.

(** Whether [to_csv] to a file name of the output directory succeeds;
    it raises otherwise. *)
Variable writable : str -> bool.

(** The loop over the sheets: the calls of [to_csv] that succeeded,
    oldest first, and [created_files], [None] once a read or a write has
    raised. *)
Fixpoint convert_sheets (stem : str) (n_sheets : nat)
    (sheets : list (str * option DataFrame))
    (files : list (str * DataFrame)) (created_files : list str)
    : list (str * DataFrame) * option (list str) :=
  match sheets with
  | [] => (files, Some created_files)
  | (sheet_name, read) :: rest =>
      match read with
      | None => (files, None)
      | Some df =>
          let name := csv_filename stem n_sheets sheet_name in
          if writable name
          then convert_sheets stem n_sheets rest
                 (files ++ [(name, df)]) (created_files ++ [name])
          else (files, None)
      end
  end.

(** An Excel file as [convert_excel_to_csv] meets it. *)
Record excel_input : Set := {
  present : bool;          (* [excel_path.exists()] *)
  stem : str;              (* [excel_path.stem] *)
  book : workbook
}.

(** [convert_excel_to_csv(excel_path)] : the files written next to the
    Excel file, by name, and the returned list. *)
Definition convert_excel_to_csv (excel : excel_input) (files : list (str * DataFrame))
    : list (str * DataFrame) * list str :=
  if negb (present excel) then (files, [])
  else
    match book excel with
    | None => (files, [])
    | Some sheets =>
        match convert_sheets (stem excel) (List.length sheets) sheets files [] with
        | (files', Some created_files) => (files', created_files)
        | (files', None) => (files', [])
        end
    end.

(** The loop of [process_directory] over the sorted Excel files. *)
Fixpoint convert_all (excel_files : list excel_input) (files : list (str * DataFrame))
    (total_converted total_errors : nat) : list (str * DataFrame) * (nat * nat) :=
  match excel_files with
  | [] => (files, (total_converted, total_errors))
  | excel_file :: rest =>
      let '(files, created) := convert_excel_to_csv excel_file files in
      match created with
      | _ :: _ =>
          convert_all rest files (total_converted + List.length created) total_errors
      | [] => convert_all rest files total_converted (total_errors + 1)
      end
  end.

(** [process_directory(directory, source_name)] : [None] stands for a
    directory that does not exist. *)
Definition process_directory (found : option (list excel_input))
    (files : list (str * DataFrame)) : list (str * DataFrame) * (nat * nat) :=
  match found with
  | None => (files, (O, O))
  | Some [] => (files, (O, O))
  | Some excel_files => convert_all excel_files files O O
  end.

End Convert.

End ConvertToCsv.

(* ================================================================== *)
(** * 02_standardize_data.py : main *)
(* ================================================================== *)

Module StandardizeData.

(** How [main] can end early: an exception of the model, or the
    IndexError of [dfs[0].columns[0]] on a frame without columns. *)
Inductive failure : Set :=
| Raised (e : exn)
| IndexError.

(** "Determine x-axis column" *)
Definition choose_x_col (dfs : list DataFrame) : failure + str :=
  match dfs with
  | [] => inr (lit "Month")
  | df :: _ =>
      match columns df with
      | [] => inl IndexError
      | first_col :: _ =>
          if existsb (str_eqb first_col)
               [lit "Month"; lit "Length"; lit "Height"; lit "Stature"]
          then inr first_col
          else inr (lit "Month")
      end
  end.

(** The loop over [who_files]. *)
Definition collect_who (who_files : list (str * option DataFrame)) : result tables :=
  for_each who_step who_files [].

(** The loop over [cdc_files]. *)
Definition collect_cdc (cdc_files : list (str * option DataFrame)) : tables :=
  fold_left cdc_step cdc_files [].

(** [f"{measurement}_{gender}_{suffix}.csv"] *)
Definition output_name (key : str * str) (suffix : str) : str :=
  fst key ++ lit "_" ++ snd key ++ lit "_" ++ suffix ++ lit ".csv".

(** A "Saving" loop over the groups of a dict: the files written under
    [OUTPUT_DIR], oldest first, and how the loop ended. *)
Fixpoint save_groups (suffix : str) (data : tables) (files : list (str * DataFrame))
    : list (str * DataFrame) * option failure :=
  match data with
  | [] => (files, None)
  | (key, dfs) :: rest =>
      match choose_x_col dfs with
      | inl f => (files, Some f)
      | inr x_col =>
          match combine_dataframes dfs x_col with
          | Err e => (files, Some (Raised e))
          | Ok None => save_groups suffix rest files
          | Ok (Some combined) =>
              save_groups suffix rest (files ++ [(output_name key suffix, combined)])
          end
      end
  end.

(** [main()] : the files written and the exception that ended the run,
    if any. *)
Definition main (who_files cdc_files : list (str * option DataFrame))
    : list (str * DataFrame) * option failure :=
  match collect_who who_files with
  | Err e => ([], Some (Raised e))
  | Ok who_data =>
      let cdc_data := collect_cdc cdc_files in
      match save_groups (lit "who") who_data [] with
      | (files, Some f) => (files, Some f)
      | (files, None) => save_groups (lit "cdc") cdc_data files
      end
  end.

End StandardizeData.

(* ================================================================== *)
(** * Vocabulary of the statements *)
(* ================================================================== *)

(** The characters a cleaned-up name is made of: [[a-z0-9_]]. *)
Definition is_canon_char (c : ascii) : bool :=
  in_range 97 122 c || in_range 48 57 c || is_underscore c.

(** [[a-zA-Z0-9]] *)
Definition is_alnum_char (c : ascii) : bool :=
  is_word_char c && negb (is_underscore c).

(** Two underscores in a row. *)
Definition double_underscore : str := [underscore; underscore].

(** A name made of the characters of a cleaned-up name. *)
Definition canonical (y : str) : Prop := Forall (fun c => is_canon_char c = true) y.

(** Every key of [mappings] is made of letters and digits only, or holds
    a character that no cleaned-up name holds. *)
Definition key_shape (k : str) : bool :=
  forallb is_alnum_char k || negb (forallb is_canon_char k).

(** The three age fields of a row dict are unset. *)
Definition ages_unset (r : result_row) : Prop :=
  age_years r = None /\ age_weeks r = None /\ age_months r = None.

(** [v < k] and [k <= v] by value, for a number [v] and a small int [k]:
    the order of [Z] on ints, the IEEE order on floats. *)
Definition below (v : cell) (k : Z) : Prop :=
  match v with
  | CInt n => (n < k)%Z
  | CFloat f => PrimFloat.ltb f (small_int k) = true
  | _ => False
  end.

Definition at_least (v : cell) (k : Z) : Prop :=
  match v with
  | CInt n => (k <= n)%Z
  | CFloat f => PrimFloat.leb (small_int k) f = true
  | _ => False
  end.

(** A row dict for the examples. *)
Definition sample_row : result_row :=
  new_result_row (lit "uk90") (lit "height") (Some (lit "male")) None.

(** A sheet of whole numbers only: every column is an integer column, so
    the rows [iterrows] yields hold numpy.int64 values. *)
Definition whole_number_sheet : DataFrame :=
  {| columns := [lit "age_years"; lit "height_m"];
     rows := [ [CInt64 30; CInt64 95]; [CInt64 60; CInt64 110] ] |}.

(** The dict of a row of that sheet: no age, and M as read. *)
Definition whole_number_row (m : Z) : result_row :=
  {| source := lit "uk90"; measurement := lit "height";
     age_years := None; age_weeks := None; age_months := None;
     gender_key := None; age_range_key := None;
     val_L := None; val_M := Some (CInt64 m); val_S := None |}.

(** The keys 'L', 'M', 'S' of the row dict. *)
Inductive lms : Set := FieldL | FieldM | FieldS.

Definition lms_eqb (a b : lms) : bool :=
  match a, b with
  | FieldL, FieldL | FieldM, FieldM | FieldS, FieldS => true
  | _, _ => false
  end.

Definition field_of (f : lms) (r : result_row) : option cell :=
  match f with
  | FieldL => val_L r
  | FieldM => val_M r
  | FieldS => val_S r
  end.

Definition set_field (f : lms) (r : result_row) (v : option cell) : result_row :=
  match f with
  | FieldL => set_L r v
  | FieldM => set_M r v
  | FieldS => set_S r v
  end.

(** The key the gender-qualified loop assigns from a column, if any: the
    column passes the test of the loop, and the last part of its name (or
    its last letter) tells L, M or S, looked for in this order. *)
Definition assigns_to (prefix col : str) : option lms :=
  let col_lower := lower col in
  let tail := last_part (split underscore col_lower) in
  if gender_column_matches prefix col_lower then
    if contains (lit "l") tail || endswith col_lower (lit "l") then Some FieldL
    else if contains (lit "m") tail || endswith col_lower (lit "m") then Some FieldM
    else if contains (lit "s") tail || endswith col_lower (lit "s") then Some FieldS
    else None
  else None.

(** The cells that are not missing of the columns of [cs] from which the
    gender-qualified loop assigns the key [f], in the order of [cs]. *)
Definition read_cells (prefix : str) (cols : list str) (row : list cell) (f : lms)
    (cs : list str) : list cell :=
  flat_map (fun col =>
              match assigns_to prefix col with
              | Some f' =>
                  if lms_eqb f' f then
                    match row_get cols row col with
                    | Ok v => if isna v then [] else [v]
                    | Err _ => []
                    end
                  else []
              | None => []
              end) cs.

(** The same for the whole loop, which runs only when a gender is given. *)
Definition gender_cells (gender : option str) (cols : list str) (row : list cell)
    (f : lms) : list cell :=
  match gender with
  | Some g => if truthy gender then read_cells (gender_prefix g) cols row f cols else []
  | None => []
  end.

(** A field of the row dict ends as it was, or as a cell that is not
    missing of a column the gender-qualified loop reads. *)
Definition kept_or_filled (gender : option str) (cols : list str) (row : list cell)
    (field : result_row -> option cell) (r r' : result_row) : Prop :=
  field r' = field r
  \/ exists g col v,
       gender = Some g /\ In col cols
       /\ gender_column_matches (gender_prefix g) (lower col) = true
       /\ row_get cols row col = Ok v /\ isna v = false
       /\ field r' = Some v.

(** A sheet with a generic M column and a gender-qualified one. *)
Definition lms_cols : list str :=
  [lit "age_years"; lit "lms_m"; lit "male_height_m"].

Definition lms_row : list cell := [CFloat 1.5; CFloat 10; CFloat 20].

Definition lms_start : result_row :=
  new_result_row (lit "uk90") (lit "bmi") (Some (lit "male")) None.

Definition lms_after_generic : result_row := set_M lms_start (Some (CFloat 10)).

Definition lms_after_gender : result_row := set_M lms_start (Some (CFloat 20)).

(** A sheet with one column per gender. *)
Definition both_cols : list str :=
  [lit "age_years"; lit "male_height_m"; lit "female_height_m"].

Definition both_row : list cell := [CFloat 1.5; CFloat 80; CFloat 77].

(** Every row of a frame has one cell per column. *)
Definition rectangular (df : DataFrame) : Prop :=
  Forall (fun row => List.length row = List.length (columns df)) (rows df).

(** The rows of [df] whose Sex cell equals [code]. *)
Definition rows_of_sex (df : DataFrame) (code : Z) : list (list cell) :=
  filter (fun row => cell_eq_int (hd CNone (labelled (columns df) row (lit "Sex"))) code)
         (rows df).

(** Each row of [out] holds, under every label of [labels], the cell the
    row of [inp] at the same place holds under that label. *)
Definition same_cells (labels cols_out cols_in : list str)
    (out inp : list (list cell)) : Prop :=
  Forall2 (fun o i => forall c, In c labels -> row_get cols_out o c = row_get cols_in i c)
          out inp.

(** The frame of the gender split example: Sex values 1, 2, 1 and two
    other columns. *)
Definition cdc_example : DataFrame :=
  {| columns := [lit "Sex"; lit "Agemos"; lit "L"];
     rows := [ [CInt 1; CFloat 0; CFloat (-0.2)];
               [CInt 2; CFloat 0; CFloat (-0.1)];
               [CInt 1; CFloat 0.5; CFloat 0.3] ] |}.

(** No pattern of a measurement map occurs in a file name. *)
Definition no_pattern (m : list (str * str)) (filename : str) : Prop :=
  Forall (fun pattern_type => contains (fst pattern_type) filename = false) m.

(** None of the four gender tokens occurs in a file name. *)
Definition no_gender_token (filename : str) : Prop :=
  contains (lit "boys") filename = false
  /\ contains (lit "male") filename = false
  /\ contains (lit "girls") filename = false
  /\ contains (lit "female") filename = false.

(** Two tables of one (measurement, gender) key that meet at month 8:
    the months 0 to 8 with M = 100 + month, and the months 8 to 16 with
    M = 200 + month. *)
Definition month_table (base : Z) (months : list Z) : DataFrame :=
  {| columns := [lit "Month"; lit "M"];
     rows := map (fun x => [CInt x; CInt (base + x)]) months |}.

Definition earlier_table : DataFrame := month_table 100 [0; 1; 2; 3; 4; 5; 6; 7; 8]%Z.

Definition later_table : DataFrame := month_table 200 [8; 9; 10; 11; 12; 13; 14; 15; 16]%Z.

(** The keyed rows [keep_last] keeps, with their keys. *)
Fixpoint kept_keyed (keyed : list (key * list cell)) : list (key * list cell) :=
  match keyed with
  | [] => []
  | kr :: rest =>
      if existsb (fun kr' => key_same (fst kr) (fst kr')) rest then kept_keyed rest
      else kr :: kept_keyed rest
  end.

(** [l] is [l'] with some elements left out. *)
Inductive subsequence {A : Type} : list A -> list A -> Prop :=
| sub_nil : subsequence [] []
| sub_skip (x : A) (l l' : list A) : subsequence l l' -> subsequence l (x :: l')
| sub_take (x : A) (l l' : list A) : subsequence l l' -> subsequence (x :: l) (x :: l').

(** The file of the end-to-end example: columns Sex, Agemos, L, M, S and
    one row per gender. *)
Definition wtageinf : DataFrame :=
  {| columns := [lit "Sex"; lit "Agemos"; lit "L"; lit "M"; lit "S"];
     rows := [ [CInt 1; CInt 0; CFloat (-0.2); CFloat 3.5; CFloat 0.09];
               [CInt 2; CInt 0; CFloat (-0.1); CFloat 3.4; CFloat 0.08] ] |}.

(** Case analysis over the 256 characters. *)
Ltac each_char c :=
  destruct c as [[] [] [] [] [] [] [] []].

(** The shape of a normalised name: lower-case ASCII letters, digits and
    underscores, no two underscores in a row, none at either end. *)
Definition name_shape (y : str) : Prop :=
  canonical y
  /\ contains double_underscore y = false
  /\ startswith [underscore] y = false
  /\ endswith y [underscore] = false.

(** A field of a row dict is unset or holds a value that is not missing. *)
Definition field_ok (field : option cell) : Prop :=
  match field with
  | Some v => isna v = false
  | None => True
  end.

(** The three age fields of a row dict hold numbers. *)
Definition ages_set (r : result_row) : Prop :=
  exists y w m,
    age_years r = Some y /\ age_weeks r = Some w /\ age_months r = Some m
    /\ is_number y = true /\ is_number w = true /\ is_number m = true.

(** What holds of a row dict built for the given arguments of
    [process_lms_data]. *)
Definition well_formed_row (source_name measurement_type : str)
    (gender age_range : option str) (r : result_row) : Prop :=
  source r = source_name
  /\ measurement r = measurement_type
  /\ gender_key r = (if truthy gender then gender else None)
  /\ age_range_key r = (if truthy age_range then age_range else None)
  /\ (ages_unset r \/ ages_set r)
  /\ field_ok (val_L r) /\ field_ok (val_M r) /\ field_ok (val_S r).

(** The row dict holds a value for M. *)
Definition has_M (r : result_row) : Prop :=
  exists v, val_M r = Some v /\ isna v = false.

(** The label [col] stands over two columns or more. *)
Definition duplicated (cols : list str) (col : str) : Prop :=
  (2 <= List.length (filter (fun c => str_eqb c col) cols))%nat.

(** A sheet with the headers Age, Years and M. *)
Definition two_age_headers : DataFrame :=
  {| columns := [lit "Age"; lit "Years"; lit "M"];
     rows := [ [CFloat 1; CFloat 1; CFloat 10] ] |}.

(** An entry of the metadata describes a file that was written: the
    path is the one written to, and the row count is the number of rows
    written. *)
Definition describes (e : file_entry) (w : str * csv_content) : Prop :=
  entry_output e = fst w
  /\ match e, snd w with
     | RawCsv _ _ _ _ _ _, FrameCsv _ => True
     | ProcessedLms _ _ _ n_rows, LmsCsv result_rows =>
         n_rows = List.length result_rows
     | Csv _ _ _ _ n_rows, FrameCsv df => n_rows = List.length (rows df)
     | _, _ => False
     end.

(** A written frame has normalised headers; a written LMS table is not
    empty and each of its rows holds a value for M. *)
Definition content_ok (w : str * csv_content) : Prop :=
  match snd w with
  | FrameCsv df => Forall name_shape (columns df)
  | LmsCsv result_rows => result_rows <> [] /\ Forall has_M result_rows
  end.

(** The file is a frame saved as it was read, not an LMS table. *)
Definition is_frame_file (w : str * csv_content) : Prop :=
  exists df, snd w = FrameCsv df.

(** The arguments [process_excel_file] passes to [process_lms_data] for
    a file. *)
Definition measurement_arg (file : file_ref) : str :=
  match file_measurement (lower (file_stem file)) with
  | Some m => m
  | None => lit "unknown"
  end.

(** Whether a source directory exists. *)
Definition found_some (found : str -> ProcessData.listing) (source : str * str) : bool :=
  match found (snd source) with
  | Some _ => true
  | None => false
  end.

(** [st'] is [st] after the files [w] were written and the entries [e]
    were added to the metadata. *)
Definition appended (st st' : run_state) (w : list (str * csv_content))
    (e : list file_entry) : Prop :=
  written st' = written st ++ w
  /\ meta_files st' = meta_files st ++ e
  /\ Forall2 describes e w
  /\ Forall content_ok w.

(** The rows one sheet adds to [results]. *)
Definition sheet_rows_ok (source_name : str) (file : file_ref)
    (result_rows : list result_row) : Prop :=
  result_rows <> []
  /\ Forall (fun r =>
               well_formed_row source_name (measurement_arg file)
                 (file_gender (lower (file_stem file)))
                 (file_age_range (lower (file_stem file))) r
               /\ has_M r) result_rows.

(** What [found] gives in the example: the directory of uk90 holds one
    CSV file, no other directory exists. *)
Definition sample_found (directory : str) : ProcessData.listing :=
  if str_eqb directory (lit "temp_repo/uk90") then
    Some ([], [ ({| file_path := lit "temp_repo/uk90/height.csv";
                    file_stem := lit "height"; file_name := lit "height.csv" |},
                 Some {| columns := [lit "Age (years)"; lit "L"];
                         rows := [ [CInt 1; CFloat 1] ] |}) ])
  else None.

(** [data.get(key, [])] : the tables filed under a key. *)
Definition tables_get (data : tables) (key : str * str) : list DataFrame :=
  match find (fun kd => key_eqb (fst kd) key) data with
  | Some kd => snd kd
  | None => []
  end.

(** The tables the WHO files give for a key, in the order of the files. *)
Definition who_tables (key : str * str) (who_files : list (str * option DataFrame))
    : list DataFrame :=
  flat_map (fun file =>
              match process_who_file (fst file) (snd file) with
              | Ok (Some (measurement, gender, df)) =>
                  if key_eqb (measurement, gender) key then [df] else []
              | _ => []
              end) who_files.

(** The tables the CDC files give for a key, in the order of the files
    and, within a file, boys before girls. *)
Definition cdc_tables (key : str * str) (cdc_files : list (str * option DataFrame))
    : list DataFrame :=
  flat_map (fun file =>
              flat_map (fun '(measurement, gender, df) =>
                          if key_eqb (measurement, gender) key then [df] else [])
                       (process_cdc_file (fst file) (snd file))) cdc_files.

(** A file as [pd.read_csv] gives it: no two columns share a label (a
    repeated header is renamed on reading). *)
Definition as_read (file : str * option DataFrame) : Prop :=
  match snd file with
  | Some df => NoDup (columns df)
  | None => True
  end.

(** The file has an Agemos column and a Month column as well. *)
Definition month_beside_agemos (file : str * option DataFrame) : bool :=
  match snd file with
  | Some df => has_column df (lit "Agemos") && has_column df (lit "Month")
  | None => false
  end.

(** A CDC file with both columns. *)
Definition agemos_and_month : DataFrame :=
  {| columns := [lit "Sex"; lit "Agemos"; lit "Month"; lit "L"];
     rows := [ [CInt 1; CFloat 24; CInt 24; CFloat 0.1] ] |}.

(** The labels [main] accepts for the x-axis. *)
Definition x_axis_labels : list str :=
  [lit "Month"; lit "Length"; lit "Height"; lit "Stature"].

(** The first column of a frame is an x-axis column. *)
Definition x_axis_first (df : DataFrame) : Prop :=
  exists x others, columns df = x :: others /\ In x x_axis_labels.

(** The keys the two loops of [main] can file a table under. *)
Definition key_ok (key : str * str) : Prop :=
  In (fst key) (map snd WHO_MEASUREMENT_MAP ++ map snd CDC_MEASUREMENT_MAP)
  /\ In (snd key) [lit "boys"; lit "girls"].

Definition group_ok (group : (str * str) * list DataFrame) : Prop :=
  key_ok (fst group) /\ snd group <> [] /\ Forall x_axis_first (snd group).

Definition tables_ok (data : tables) : Prop :=
  NoDup (map fst data) /\ Forall group_ok data.

(** A WHO file of the examples: weeks 0 and 13. *)
Definition wfa_boys_weeks : DataFrame :=
  {| columns := [lit "Week"; lit "M"];
     rows := [ [CInt 0; CFloat 3.3]; [CInt 13; CFloat 6.4] ] |}.

(** A sheet can be read and its CSV file can be written. *)
Definition convertible (writable : str -> bool) (stem : str) (n_sheets : nat)
    (sheet : str * option DataFrame) : bool :=
  match snd sheet with
  | Some _ => writable (ConvertToCsv.csv_filename stem n_sheets (fst sheet))
  | None => false
  end.

(** The CSV files of the given sheets, by name. *)
Definition sheet_files (stem : str) (n_sheets : nat)
    (sheets : list (str * option DataFrame)) : list (str * DataFrame) :=
  flat_map (fun sheet =>
              match snd sheet with
              | Some df => [(ConvertToCsv.csv_filename stem n_sheets (fst sheet), df)]
              | None => []
              end) sheets.

(** The sheets [convert_excel_to_csv] goes through: none when the file
    is missing or cannot be opened. *)
Definition sheets_of (excel : ConvertToCsv.excel_input) : list (str * option DataFrame) :=
  if ConvertToCsv.present excel then
    match ConvertToCsv.book excel with
    | Some sheets => sheets
    | None => []
    end
  else [].

(** What [convert_excel_to_csv] returns for an Excel file, whatever was
    written before. *)
Definition created_of (writable : str -> bool) (excel : ConvertToCsv.excel_input)
    : list str :=
  snd (ConvertToCsv.convert_excel_to_csv writable excel []).

Definition nothing_created (writable : str -> bool) (excel : ConvertToCsv.excel_input)
    : bool :=
  match created_of writable excel with
  | [] => true
  | _ :: _ => false
  end.

(** The Excel files [process_directory] goes through. *)
Definition excel_files_of (found : option (list ConvertToCsv.excel_input))
    : list ConvertToCsv.excel_input :=
  match found with
  | Some excel_files => excel_files
  | None => []
  end.

(** A workbook of two sheets, the second of which cannot be read. *)
Definition broken_workbook : ConvertToCsv.excel_input :=
  {| ConvertToCsv.present := true;
     ConvertToCsv.stem := lit "wfa";
     ConvertToCsv.book := Some [(lit "boys", Some wfa_boys_weeks); (lit "girls", None)] |}.

(** ** Vocabulary of the sort *)

Section SortVocabulary.

Variable less : nat -> nat -> bool.

(** [less] is a strict weak order on the row numbers below [n]: no key
    is below itself, and both [less] and its negation are transitive. *)
Definition strict_weak_order (n : nat) : Prop :=
  (forall i, (i < n)%nat -> less i i = false)
  /\ (forall i j k, (i < n)%nat -> (j < n)%nat -> (k < n)%nat ->
        less i j = true -> less j k = true -> less i k = true)
  /\ (forall i j k, (i < n)%nat -> (j < n)%nat -> (k < n)%nat ->
        less i j = false -> less j k = false -> less i k = false).

(** Every row number of the array is below [n]. *)
Definition below_all (n : nat) (a : list nat) : Prop :=
  forall k, (k < List.length a)%nat -> (get a k < n)%nat.

(** No key of the places [lo..hi] is below the key of an earlier place
    of [lo..hi]. *)
Definition seg_sorted (a : list nat) (lo hi : nat) : Prop :=
  forall i j, (lo <= i)%nat -> (i < j)%nat -> (j <= hi)%nat ->
    less (get a j) (get a i) = false.

(** The same, but for the pairs whose later place is [p]. *)
Definition sorted_except (a : list nat) (lo hi p : nat) : Prop :=
  forall i j, (lo <= i)%nat -> (i < j)%nat -> (j <= hi)%nat -> j <> p ->
    less (get a j) (get a i) = false.

(** The whole array is in order. *)
Definition sorted_by (a : list nat) : Prop :=
  forall i j, (i < j)%nat -> (j < List.length a)%nat ->
    less (get a j) (get a i) = false.

(** The order that compares the keys first and the row numbers second. *)
Definition less_then_number (i j : nat) : bool :=
  less i j || (negb (less j i) && (i <? j)%nat).

(** The segment that starts at [pl] holds a heap of [n] places numbered
    from 1: from the place [l] on, no key is below the key of one of its
    two children. *)
Definition heap_from (a : list nat) (pl n l : nat) : Prop :=
  forall p c, (l <= p)%nat -> c = (p + p)%nat \/ c = (p + p + 1)%nat ->
    (c <= n)%nat ->
    less (get a (pl + p - 1)) (get a (pl + c - 1)) = false.

End SortVocabulary.

(** The arrays have the same length and agree outside [lo..hi]. *)
Definition same_outside (a b : list nat) (lo hi : nat) : Prop :=
  List.length a = List.length b
  /\ forall k, (k < lo)%nat \/ (hi < k)%nat -> get a k = get b k.

(** ** Vocabulary of the order of the keys *)

(** The place of a float that is not NaN in the order of the floats:
    the sign class first, then the exponent, then the mantissa. *)
Definition float_rank (x : spec_float) : Z * Z * Z :=
  match x with
  | S754_infinity true => (-2, 0, 0)
  | S754_finite true m e => (-1, - e, - Z.pos m)
  | S754_zero _ => (0, 0, 0)
  | S754_nan => (0, 0, 0)
  | S754_finite false m e => (1, e, Z.pos m)
  | S754_infinity false => (2, 0, 0)
  end%Z.

Definition key_rank (k : key) : Z * Z * Z :=
  match k with
  | KInt z => (0, z, 0)%Z
  | KFloat f => float_rank (Prim2SF f)
  end.

(** The lexicographic order of the ranks. *)
Definition rank_lt (a b : Z * Z * Z) : Prop :=
  (fst (fst a) < fst (fst b)
   \/ (fst (fst a) = fst (fst b)
       /\ (snd (fst a) < snd (fst b)
           \/ (snd (fst a) = snd (fst b) /\ snd a < snd b))))%Z.

(** Both keys are ints or both are floats. *)
Definition same_kind (a b : key) : Prop :=
  match a, b with
  | KInt _, KInt _ => True
  | KFloat _, KFloat _ => True
  | _, _ => False
  end.

(** The keys of a column are all ints or all floats. *)
Definition one_kind (keys : list key) : Prop :=
  forall a b, In a keys -> In b keys -> same_kind a b.

(** [a] comes strictly before [b] in a sorted column: its value is
    below, or [b] is the missing value and [a] is not. *)
Definition key_before (a b : key) : Prop :=
  key_less a b = true \/ (key_isna a = false /\ key_isna b = true).

(** The members of a list of keyed items that no later member
    duplicates, as [keep_last] keeps them. *)
Fixpoint last_of_each {A : Type} (keyed : list (key * A)) : list A :=
  match keyed with
  | [] => []
  | (k, x) :: rest =>
      if existsb (fun kr => key_same k (fst kr)) rest then last_of_each rest
      else x :: last_of_each rest
  end.

(** The key of a row number. *)
Definition key_at (keys : list key) (i : nat) : key := nth i keys (KInt 0).

(* ================================================================== *)
(** * Facts about the string primitives *)
(* ================================================================== *)

Lemma ascii_eqb_true (a b : ascii) : Ascii.eqb a b = true -> a = b.
Proof. apply Ascii.eqb_eq. Qed.

Lemma startswith_app (p s : str) :
  startswith p s = true <-> exists post, s = p ++ post.
Proof.
  revert s; induction p as [|a p IH]; intros s; simpl.
  - split; [intros _; now exists s | reflexivity].
  - destruct s as [|b s].
    + split; [discriminate | intros [post H]; discriminate].
    + rewrite andb_true_iff, IH, Ascii.eqb_eq. split.
      * intros [-> [post ->]]. now exists post.
      * intros [post H]. injection H as -> ->. split; [reflexivity | now exists post].
Qed.

(** [contains] is the infix relation. *)
Lemma contains_infix (n h : str) :
  contains n h = true <-> exists pre post, h = pre ++ n ++ post.
Proof.
  induction h as [|c h IH].
  - simpl. rewrite orb_false_r, startswith_app. split.
    + intros [post H]. now exists [], post.
    + intros [pre [post H]]. destruct pre; simpl in H.
      * now exists post.
      * discriminate.
  - cbn [contains]. rewrite orb_true_iff, startswith_app, IH. split.
    + intros [[post H] | [pre [post H]]].
      * now exists [], post.
      * exists (c :: pre), post. now rewrite H.
    + intros [pre [post H]]. destruct pre as [|d pre]; simpl in H.
      * left. now exists post.
      * right. injection H as _ H. now exists pre, post.
Qed.

Lemma contains_trans (a b h : str) :
  contains a b = true -> contains b h = true -> contains a h = true.
Proof.
  rewrite !contains_infix. intros [p1 [q1 ->]] [p2 [q2 ->]].
  exists (p2 ++ p1), (q1 ++ q2). now rewrite <- !app_assoc.
Qed.

Lemma contains_Forall (P : ascii -> Prop) (n h : str) :
  contains n h = true -> Forall P h -> Forall P n.
Proof.
  rewrite contains_infix. intros [pre [post ->]] H.
  apply Forall_app in H as [_ H]. now apply Forall_app in H as [H _].
Qed.

(** ** Stripping *)

Lemma lstrip_by_split (p : ascii -> bool) (s : str) :
  exists pre, s = pre ++ lstrip_by p s /\ Forall (fun c => p c = true) pre.
Proof.
  induction s as [|c s [pre [E F]]]; simpl.
  - now exists [].
  - destruct (p c) eqn:Hc.
    + exists (c :: pre). split; [simpl; now f_equal | now constructor].
    + now exists [].
Qed.

Lemma lstrip_by_head (p : ascii -> bool) (s : str) :
  match lstrip_by p s with c :: _ => p c = false | [] => True end.
Proof.
  induction s as [|c s IH]; simpl; [exact I|].
  destruct (p c) eqn:Hc; [exact IH | exact Hc].
Qed.

Lemma lstrip_by_fix (p : ascii -> bool) (s : str) :
  match s with c :: _ => p c = false | [] => True end -> lstrip_by p s = s.
Proof. destruct s as [|c s]; simpl; [reflexivity | now intros ->]. Qed.

Lemma strip_by_infix (p : ascii -> bool) (s : str) :
  exists pre post, s = pre ++ strip_by p s ++ post.
Proof.
  unfold strip_by.
  destruct (lstrip_by_split p s) as [pre [E _]].
  destruct (lstrip_by_split p (rev (lstrip_by p s))) as [post [E' _]].
  exists pre, (rev post).
  rewrite <- rev_app_distr, <- E', rev_involutive. exact E.
Qed.

Lemma contains_strip_by (p : ascii -> bool) (n s : str) :
  contains n (strip_by p s) = true -> contains n s = true.
Proof.
  intros H. destruct (strip_by_infix p s) as [pre [post E]].
  apply contains_trans with (strip_by p s); [exact H|].
  apply contains_infix. now exists pre, post.
Qed.

Lemma Forall_lstrip_by (P : ascii -> Prop) (p : ascii -> bool) (s : str) :
  Forall P s -> Forall P (lstrip_by p s).
Proof.
  destruct (lstrip_by_split p s) as [pre [E _]]. rewrite E at 1.
  intros H. now apply Forall_app in H.
Qed.

Lemma Forall_strip_by (P : ascii -> Prop) (p : ascii -> bool) (s : str) :
  Forall P s -> Forall P (strip_by p s).
Proof.
  intros H. unfold strip_by.
  apply Forall_rev, Forall_lstrip_by, Forall_rev, Forall_lstrip_by, H.
Qed.

(** A string none of whose characters is stripped is left as it is. *)
Lemma strip_by_none (p : ascii -> bool) (s : str) :
  Forall (fun c => p c = false) s -> strip_by p s = s.
Proof.
  intros H. unfold strip_by.
  assert (L : forall t, Forall (fun c => p c = false) t -> lstrip_by p t = t).
  { intros t Ht. apply lstrip_by_fix. destruct t; [exact I | now inversion Ht]. }
  rewrite (L s H), (L (rev s)); [apply rev_involutive | now apply Forall_rev].
Qed.

(** The first and the last character of a stripped string are kept ones. *)
Lemma strip_by_ends (p : ascii -> bool) (s : str) :
  match strip_by p s with c :: _ => p c = false | [] => True end /\
  match rev (strip_by p s) with c :: _ => p c = false | [] => True end.
Proof.
  unfold strip_by. rewrite rev_involutive.
  set (t := lstrip_by p s).
  pose proof (lstrip_by_head p s) as Ht. fold t in Ht.
  pose proof (lstrip_by_head p (rev t)) as Hu.
  destruct (lstrip_by_split p (rev t)) as [pre [E F]].
  split; [|exact Hu].
  destruct (lstrip_by p (rev t)) as [|c u] eqn:Eu; [exact I|].
  assert (Et : t = rev (c :: u) ++ rev pre).
  { rewrite <- rev_app_distr, <- E. symmetry. apply rev_involutive. }
  destruct (rev (c :: u)) as [|d w] eqn:Ew.
  - apply (f_equal (@rev ascii)) in Ew. rewrite rev_involutive in Ew. discriminate.
  - rewrite Et in Ht. exact Ht.
Qed.

Lemma strip_by_idem (p : ascii -> bool) (s : str) :
  strip_by p (strip_by p s) = strip_by p s.
Proof.
  destruct (strip_by_ends p s) as [H1 H2].
  unfold strip_by at 1.
  rewrite (lstrip_by_fix p (strip_by p s) H1).
  rewrite (lstrip_by_fix p (rev (strip_by p s)) H2).
  apply rev_involutive.
Qed.

(** ** Character classes *)

Lemma lower_sub_char (c : ascii) :
  lower_char (sub_char c) = sub_char (lower_char c).
Proof. each_char c; reflexivity. Qed.

Lemma lower_char_underscore (c : ascii) :
  is_underscore (lower_char c) = is_underscore c.
Proof. each_char c; reflexivity. Qed.

Lemma sub_lower_canon (c : ascii) :
  is_canon_char (sub_char (lower_char c)) = true.
Proof. each_char c; reflexivity. Qed.

Lemma canon_char_fixed (c : ascii) :
  is_canon_char c = true ->
  lower_char c = c /\ is_space c = false /\ sub_char c = c.
Proof. each_char c; intros H; try discriminate H; repeat split. Qed.

Lemma alnum_sub_char (a b : ascii) :
  is_alnum_char a = true -> a = sub_char b -> a = b.
Proof.
  unfold sub_char. destruct (is_word_char b); [easy|].
  intros H ->. discriminate H.
Qed.

Lemma is_underscore_eq (c : ascii) : is_underscore c = true -> c = underscore.
Proof. each_char c; intros H; try discriminate H; reflexivity. Qed.

(** ** The two substitutions *)

Lemma sub_nonword_map (s : str) : sub_nonword s = map sub_char s.
Proof. reflexivity. Qed.

Lemma sub_underscore_runs_cons (a : ascii) (t : str) :
  sub_underscore_runs (a :: t) =
  match t with
  | b :: _ => if is_underscore a && is_underscore b
              then sub_underscore_runs t else a :: sub_underscore_runs t
  | [] => [a]
  end.
Proof. destruct t; reflexivity. Qed.

(** A run is collapsed onto its last underscore, so the first character
    of the result is the first character of the input. *)
Lemma sub_underscore_runs_head (a : ascii) (t : str) :
  exists u, sub_underscore_runs (a :: t) = a :: u.
Proof.
  revert a; induction t as [|b t IH]; intros a.
  - now exists [].
  - rewrite sub_underscore_runs_cons.
    destruct (is_underscore a && is_underscore b) eqn:E.
    + apply andb_true_iff in E as [Ea Eb].
      apply is_underscore_eq in Ea, Eb. subst. apply IH.
    + now eexists.
Qed.

Lemma Forall_sub_underscore_runs (P : ascii -> Prop) (s : str) :
  Forall P s -> Forall P (sub_underscore_runs s).
Proof.
  induction s as [|a t IH]; intros H; [exact H|].
  rewrite sub_underscore_runs_cons. inversion H as [|? ? Ha Ht]; subst.
  destruct t as [|b t']; [exact H|].
  destruct (is_underscore a && is_underscore b); [now apply IH|].
  constructor; [exact Ha | now apply IH].
Qed.

Lemma no_double_after_runs (s : str) :
  contains double_underscore (sub_underscore_runs s) = false.
Proof.
  induction s as [|a t IH]; [reflexivity|].
  rewrite sub_underscore_runs_cons. destruct t as [|b t']; [now each_char a|].
  destruct (is_underscore a && is_underscore b) eqn:E; [exact IH|].
  destruct (sub_underscore_runs_head b t') as [u Eu].
  rewrite Eu in IH |- *.
  change (contains double_underscore (a :: b :: u))
    with (startswith double_underscore (a :: b :: u)
          || contains double_underscore (b :: u)).
  rewrite IH, orb_false_r. cbn [startswith double_underscore].
  destruct (Ascii.eqb underscore a) eqn:A; [|reflexivity].
  destruct (Ascii.eqb underscore b) eqn:B; [|reflexivity].
  apply Ascii.eqb_eq in A, B. subst. discriminate E.
Qed.

Lemma runs_fixed (s : str) :
  contains double_underscore s = false -> sub_underscore_runs s = s.
Proof.
  induction s as [|a t IH]; [reflexivity|]. intros H.
  rewrite sub_underscore_runs_cons. destruct t as [|b t']; [reflexivity|].
  change (contains double_underscore (a :: b :: t'))
    with (startswith double_underscore (a :: b :: t')
          || contains double_underscore (b :: t')) in H.
  apply orb_false_iff in H as [H1 H2].
  destruct (is_underscore a && is_underscore b) eqn:E.
  - apply andb_true_iff in E as [Ea Eb].
    apply is_underscore_eq in Ea, Eb. subst. discriminate H1.
  - now rewrite IH.
Qed.

(** A run of characters without underscore survives the collapse only
    if it stood in the input. *)
Lemma startswith_runs (k s : str) :
  forallb (fun c => negb (is_underscore c)) k = true ->
  startswith k (sub_underscore_runs s) = true -> startswith k s = true.
Proof.
  revert k; induction s as [|a t IH]; intros k Hk H; [exact H|].
  destruct k as [|c k]; [reflexivity|].
  simpl in Hk. apply andb_true_iff in Hk as [Hc Hk].
  rewrite sub_underscore_runs_cons in H. destruct t as [|b t']; [exact H|].
  destruct (is_underscore a && is_underscore b) eqn:E.
  - apply andb_true_iff in E as [Ea Eb]. apply is_underscore_eq in Eb. subst b.
    destruct (sub_underscore_runs_head underscore t') as [u Eu].
    rewrite Eu in H. simpl in H. apply andb_true_iff in H as [H _].
    apply Ascii.eqb_eq in H. subst c. discriminate Hc.
  - cbn [startswith] in H |- *. apply andb_true_iff in H as [H1 H2].
    rewrite H1. simpl. now apply IH.
Qed.

Lemma contains_runs (k s : str) :
  forallb (fun c => negb (is_underscore c)) k = true ->
  contains k (sub_underscore_runs s) = true -> contains k s = true.
Proof.
  intros Hk. induction s as [|a t IH]; intros H; [exact H|].
  rewrite sub_underscore_runs_cons in H. destruct t as [|b t']; [exact H|].
  change (contains k (a :: b :: t'))
    with (startswith k (a :: b :: t') || contains k (b :: t')).
  destruct (is_underscore a && is_underscore b) eqn:E.
  - rewrite (IH H). apply orb_true_r.
  - change (contains k (a :: sub_underscore_runs (b :: t')))
      with (startswith k (a :: sub_underscore_runs (b :: t'))
            || contains k (sub_underscore_runs (b :: t'))) in H.
    apply orb_true_iff in H as [H | H].
    + apply orb_true_iff. left. apply startswith_runs; [exact Hk|].
      rewrite sub_underscore_runs_cons, E. exact H.
    + rewrite (IH H). apply orb_true_r.
Qed.

Lemma startswith_sub_nonword (k s : str) :
  forallb is_alnum_char k = true ->
  startswith k (sub_nonword s) = true -> startswith k s = true.
Proof.
  revert s; induction k as [|c k IH]; intros s Hk H; [reflexivity|].
  destruct s as [|b s]; [exact H|].
  simpl in Hk. apply andb_true_iff in Hk as [Hc Hk].
  rewrite sub_nonword_map in H. cbn [map startswith] in H |- *.
  apply andb_true_iff in H as [H1 H2]. apply Ascii.eqb_eq in H1.
  apply (alnum_sub_char _ _ Hc) in H1. subst b.
  rewrite Ascii.eqb_refl. simpl. now apply IH.
Qed.

Lemma contains_sub_nonword (k s : str) :
  forallb is_alnum_char k = true ->
  contains k (sub_nonword s) = true -> contains k s = true.
Proof.
  intros Hk. induction s as [|b s IH]; intros H.
  - exact H.
  - change (contains k (sub_nonword (b :: s)))
      with (startswith k (sub_nonword (b :: s)) || contains k (sub_nonword s)) in H.
    cbn [contains]. apply orb_true_iff in H as [H | H].
    + now rewrite (startswith_sub_nonword k (b :: s) Hk H).
    + rewrite (IH H). apply orb_true_r.
Qed.

(** ** The clean-up of a column name *)

Lemma lower_sub_nonword (s : str) : lower (sub_nonword s) = sub_nonword (lower s).
Proof.
  unfold lower, sub_nonword. rewrite !map_map.
  apply map_ext. intros c. apply lower_sub_char.
Qed.

Lemma lower_runs (s : str) :
  lower (sub_underscore_runs s) = sub_underscore_runs (lower s).
Proof.
  induction s as [|a t IH]; [reflexivity|].
  change (lower (a :: t)) with (lower_char a :: lower t).
  rewrite !sub_underscore_runs_cons. destruct t as [|b t']; [reflexivity|].
  change (lower (b :: t')) with (lower_char b :: lower t') in *.
  rewrite !lower_char_underscore.
  destruct (is_underscore a && is_underscore b); [exact IH|].
  change (lower (a :: ?l)) with (lower_char a :: lower l). now rewrite IH.
Qed.

Lemma lower_lstrip_underscores (s : str) :
  lower (lstrip_by is_underscore s) = lstrip_by is_underscore (lower s).
Proof.
  induction s as [|a t IH]; [reflexivity|].
  change (lower (a :: t)) with (lower_char a :: lower t).
  cbn [lstrip_by]. rewrite lower_char_underscore.
  destruct (is_underscore a); [exact IH | reflexivity].
Qed.

Lemma lower_strip_underscores (s : str) :
  lower (strip_underscores s) = strip_underscores (lower s).
Proof.
  unfold strip_underscores, strip_by, lower.
  rewrite map_rev. fold (lower (lstrip_by is_underscore (rev (lstrip_by is_underscore s)))).
  rewrite lower_lstrip_underscores. unfold lower at 1. rewrite map_rev.
  fold (lower (lstrip_by is_underscore s)). now rewrite lower_lstrip_underscores.
Qed.

(** Lower-casing first and cleaning up afterwards gives the same name. *)
Lemma clean_up_lower (c : str) :
  clean_up c = strip_underscores (sub_underscore_runs (sub_nonword (lower c))).
Proof.
  unfold clean_up.
  now rewrite lower_strip_underscores, lower_runs, lower_sub_nonword.
Qed.

Lemma clean_up_canonical (c : str) : canonical (clean_up c).
Proof.
  rewrite clean_up_lower. apply Forall_strip_by, Forall_sub_underscore_runs.
  rewrite sub_nonword_map. unfold lower. rewrite map_map.
  apply Forall_forall. intros x Hx. apply in_map_iff in Hx as [c0 [<- _]].
  apply sub_lower_canon.
Qed.

Lemma canonical_lower (y : str) : canonical y -> lower y = y.
Proof.
  induction 1 as [|c y Hc _ IH]; [reflexivity|].
  change (lower (c :: y)) with (lower_char c :: lower y).
  rewrite IH. f_equal. now apply canon_char_fixed.
Qed.

Lemma canonical_sub_nonword (y : str) : canonical y -> sub_nonword y = y.
Proof.
  induction 1 as [|c y Hc _ IH]; [reflexivity|].
  rewrite sub_nonword_map in *. cbn [map]. rewrite IH. f_equal.
  now apply canon_char_fixed.
Qed.

Lemma canonical_strip (y : str) : canonical y -> strip y = y.
Proof.
  intros H. apply strip_by_none. revert H. apply Forall_impl.
  intros c Hc. now apply canon_char_fixed.
Qed.

Lemma clean_up_idempotent (c : str) : clean_up (clean_up c) = clean_up c.
Proof.
  pose proof (clean_up_canonical c) as Hy.
  rewrite (clean_up_lower (clean_up c)).
  rewrite (canonical_lower _ Hy), (canonical_sub_nonword _ Hy).
  rewrite clean_up_lower at 1 2.
  rewrite runs_fixed.
  - unfold strip_underscores. apply strip_by_idem.
  - destruct (contains double_underscore _) eqn:E; [|reflexivity].
    apply contains_strip_by in E. now rewrite no_double_after_runs in E.
Qed.

(** A key made of letters and digits occurs in the cleaned-up name only
    if it occurs in the lower-cased label. *)
Lemma contains_clean_up (k c : str) :
  forallb is_alnum_char k = true ->
  contains k (clean_up c) = true -> contains k (lower c) = true.
Proof.
  intros Hk H. rewrite clean_up_lower in H.
  apply contains_strip_by in H.
  apply contains_sub_nonword; [exact Hk|].
  apply contains_runs; [|exact H].
  rewrite forallb_forall in Hk |- *. intros x Hx. specialize (Hk x Hx).
  unfold is_alnum_char in Hk. now apply andb_true_iff in Hk.
Qed.

Lemma canonical_contains (k y : str) :
  canonical y -> contains k y = true -> forallb is_canon_char k = true.
Proof.
  intros Hy H. apply forallb_forall. apply Forall_forall.
  exact (contains_Forall _ k y H Hy).
Qed.

Lemma first_mapping_none (m : list (str * str)) (u : str) :
  first_mapping m u = None <-> Forall (fun kv => contains (fst kv) u = false) m.
Proof.
  induction m as [|[k v] m IH]; simpl.
  - split; [constructor | reflexivity].
  - destruct (contains k u) eqn:E.
    + split; [discriminate | intros H; inversion H; simpl in *; congruence].
    + rewrite IH. split; [now constructor | intros H; now inversion H].
Qed.

Lemma mappings_key_shape : Forall (fun kv => key_shape (fst kv) = true) mappings.
Proof. repeat constructor. Qed.

Lemma first_mapping_clean_up (c : str) :
  first_mapping mappings (lower c) = None ->
  first_mapping mappings (clean_up c) = None.
Proof.
  rewrite !first_mapping_none. intros H.
  pose proof mappings_key_shape as S.
  induction mappings as [|[k v] m IH]; [constructor|].
  inversion H as [|? ? Hk Hm]; inversion S as [|? ? Sk Sm]; subst.
  constructor; [|now apply IH]. simpl in *.
  destruct (contains k (clean_up c)) eqn:E; [|reflexivity].
  unfold key_shape in Sk. apply orb_true_iff in Sk as [A | B].
  - rewrite (contains_clean_up k c A E) in Hk. discriminate.
  - rewrite (canonical_contains k _ (clean_up_canonical c) E) in B. discriminate.
Qed.

(** A name that came out of the clean-up is a fixed point. *)
Lemma standardize_clean_up (c : str) :
  first_mapping mappings (lower c) = None ->
  standardize_column_name (clean_up c) = clean_up c.
Proof.
  intros H. pose proof (clean_up_canonical c) as Hy.
  unfold standardize_column_name.
  rewrite (canonical_strip _ Hy), (canonical_lower _ Hy).
  rewrite (first_mapping_clean_up c H). apply clean_up_idempotent.
Qed.

Lemma str_eqb_eq (a b : str) : str_eqb a b = true <-> a = b.
Proof.
  revert b; induction a as [|x a IH]; intros [|y b]; simpl; try easy.
  rewrite andb_true_iff, Ascii.eqb_eq, IH. split.
  - now intros [-> ->].
  - intros H. now injection H.
Qed.

Lemma clean_up_not_age (c y : str) :
  first_mapping mappings (lower c) = None ->
  contains (lit "age") y = true -> str_eqb (clean_up c) y = false.
Proof.
  intros H Hy. destruct (str_eqb (clean_up c) y) eqn:E; [|reflexivity].
  apply str_eqb_eq in E. subst y.
  apply first_mapping_clean_up, first_mapping_none in H.
  unfold mappings in H.
  do 2 (apply Forall_inv_tail in H). apply Forall_inv in H. cbn [fst] in H.
  rewrite Hy in H. discriminate H.
Qed.

(** C6, the claim as stated fails: [Week] is normalised to [age_weeks],
    and [age_weeks], holding [age], is normalised to [age_years]. *)
Lemma standardize_not_idempotent :
  standardize_column_name (standardize_column_name (lit "Week"))
  <> standardize_column_name (lit "Week").
Proof. vm_compute. discriminate. Qed.

(** C6, amended: normalising a normalised header changes nothing, except
    that the two tokens [age_weeks] and [age_months] are normalised once
    more to [age_years]. *)
Theorem standardize_twice (x : str) :
  standardize_column_name (standardize_column_name x) =
  if str_eqb (standardize_column_name x) (lit "age_weeks")
     || str_eqb (standardize_column_name x) (lit "age_months")
  then lit "age_years"
  else standardize_column_name x.
Proof.
  unfold standardize_column_name at 2 3 4 5.
  set (c := strip x).
  destruct (first_mapping mappings (lower c)) as [v|] eqn:E.
  - unfold mappings in E. cbn [first_mapping] in E.
    destruct (contains (lit "week/month") (lower c));
      [injection E as <-; vm_compute; reflexivity|].
    destruct (contains (lit "years") (lower c));
      [injection E as <-; vm_compute; reflexivity|].
    destruct (contains (lit "age") (lower c)) eqn:Hage;
      [injection E as <-; vm_compute; reflexivity|].
    destruct (contains (lit "(years)") (lower c));
      [injection E as <-; vm_compute; reflexivity|].
    destruct (contains (lit "week") (lower c));
      [injection E as <-; vm_compute; reflexivity|].
    destruct (contains (lit "month") (lower c));
      [injection E as <-; vm_compute; reflexivity|].
    destruct (contains (lit "skeletal age") (lower c)) eqn:Hsk.
    { assert (A : contains (lit "age") (lit "skeletal age") = true) by reflexivity.
      rewrite (contains_trans _ _ _ A Hsk) in Hage. discriminate. }
    destruct (contains (lit "ht. (inches)") (lower c));
      [injection E as <-; vm_compute; reflexivity|].
    destruct (contains (lit "mature height") (lower c));
      [injection E as <-; vm_compute; reflexivity|].
    destruct (contains (lit "chart") (lower c));
      [injection E as <-; vm_compute; reflexivity|].
    discriminate E.
  - rewrite (clean_up_not_age c (lit "age_weeks") E eq_refl).
    rewrite (clean_up_not_age c (lit "age_months") E eq_refl).
    apply standardize_clean_up, E.
Qed.

Example standardize_week :
  standardize_column_name (lit "Week") = lit "age_weeks"
  /\ standardize_column_name (lit "age_weeks") = lit "age_years".
Proof. split; vm_compute; reflexivity. Qed.

Example standardize_fallback :
  standardize_column_name (lit "  Height (cm) ") = lit "height_cm".
Proof. vm_compute. reflexivity. Qed.

(* ================================================================== *)
(** * The order of floats *)
(* ================================================================== *)

Lemma SFcompare_antisym (x y : spec_float) :
  SFcompare y x = option_map CompOpp (SFcompare x y).
Proof.
  destruct x as [s1| s1 | |s1 m1 e1], y as [s2|s2| |s2 m2 e2]; simpl;
    try reflexivity;
    try (destruct s1; reflexivity); try (destruct s2; reflexivity);
    try (destruct s1, s2; reflexivity).
  rewrite (Z.compare_antisym e1 e2).
  change (PosDef.Pos.compare_cont Eq m2 m1) with (Pos.compare m2 m1).
  change (PosDef.Pos.compare_cont Eq m1 m2) with (Pos.compare m1 m2).
  rewrite (Pos.compare_antisym m1 m2).
  destruct s1, s2; try reflexivity;
    destruct (e1 ?= e2)%Z; simpl; try reflexivity;
    destruct (m1 ?= m2)%positive; reflexivity.
Qed.

Lemma not_nan_decoded (f : float) :
  PrimFloat.is_nan f = false -> Prim2SF f <> S754_nan.
Proof.
  unfold PrimFloat.is_nan. rewrite FloatAxioms.eqb_spec. unfold SFeqb.
  intros H E. rewrite E in H. discriminate H.
Qed.

(** On floats that are not NaN, [not (f < g)] is [g <= f]. *)
Lemma ltb_false_leb (f g : float) :
  PrimFloat.is_nan f = false -> PrimFloat.is_nan g = false ->
  PrimFloat.ltb f g = false -> PrimFloat.leb g f = true.
Proof.
  intros Hf Hg. apply not_nan_decoded in Hf, Hg.
  rewrite FloatAxioms.ltb_spec, FloatAxioms.leb_spec. unfold SFltb, SFleb.
  rewrite (SFcompare_antisym (Prim2SF f) (Prim2SF g)).
  destruct (Prim2SF f) as [s1| s1 | |s1 m1 e1]; [| |congruence|];
  destruct (Prim2SF g) as [s2|s2| |s2 m2 e2]; try congruence;
  destruct (SFcompare _ _) as [[]|] eqn:E; simpl; try congruence; try discriminate E.
Qed.

Lemma leb_true_ltb (f g : float) :
  PrimFloat.leb g f = true -> PrimFloat.ltb f g = false.
Proof.
  rewrite FloatAxioms.ltb_spec, FloatAxioms.leb_spec. unfold SFltb, SFleb.
  rewrite (SFcompare_antisym (Prim2SF f) (Prim2SF g)).
  destruct (SFcompare _ _) as [[]|]; simpl; congruence.
Qed.


Lemma at_least_52_not_below_2 (f : float) :
  PrimFloat.leb (small_int 52) f = true -> PrimFloat.ltb f (small_int 2) = false.
Proof.
  rewrite FloatAxioms.ltb_spec, FloatAxioms.leb_spec.
  assert (E52 : Prim2SF (small_int 52) = S754_finite false 7318349394477056 (-47))
    by (vm_compute; reflexivity).
  assert (E2 : Prim2SF (small_int 2) = S754_finite false 4503599627370496 (-51))
    by (vm_compute; reflexivity).
  rewrite E52, E2. clear E52 E2.
  unfold SFltb, SFleb.
  destruct (Prim2SF f) as [s|s| |s m e]; cbn [SFcompare].
  - discriminate.
  - destruct s; [discriminate | reflexivity].
  - discriminate.
  - destruct s; [discriminate|].
    destruct (Z.compare_spec (-47) e) as [E|E|E];
    destruct (Z.compare_spec e (-51)) as [F|F|F];
    try lia; try reflexivity; try discriminate.
Qed.

(* ================================================================== *)
(** * The magnitude heuristic of process_lms_data *)
(* ================================================================== *)

Lemma py_lt_below (v : cell) (k : Z) :
  is_number v = true -> (py_lt v k = true <-> below v k).
Proof.
  destruct v as [|n|f|s|n]; simpl; try discriminate; intros _.
  - apply Z.ltb_lt.
  - reflexivity.
Qed.

Lemma py_lt_at_least (v : cell) (k : Z) :
  is_number v = true -> isna v = false ->
  PrimFloat.is_nan (small_int k) = false ->
  (py_lt v k = false <-> at_least v k).
Proof.
  destruct v as [|n|f|s|n]; simpl; try discriminate; intros _ Hv Hk.
  - rewrite Z.ltb_ge. reflexivity.
  - split.
    + now apply ltb_false_leb.
    + apply leb_true_ltb.
Qed.

Lemma at_least_52_2 (v : cell) : at_least v 52 -> py_lt v 2 = false.
Proof.
  destruct v as [|n|f|s|n]; simpl; try contradiction.
  - intros H. apply Z.ltb_ge. lia.
  - apply at_least_52_not_below_2.
Qed.

(** The heuristic on an instance of int or float (a numpy.float64 is
    one): a number below 2 is taken as years, a number from 2 up to but
    not including 52 as weeks, any other number as months; the field of
    the chosen unit receives the raw value and the two other fields are
    computed from it.  Extraction fails only when one of these products
    or quotients raises, which no float does.  In particular 1.999 is
    taken as years, 2.0 and 51.999 as weeks, and 52.0 as months. *)
Theorem magnitude_heuristic :
  (forall (v : cell) (r : result_row),
     is_number v = true -> isna v = false ->
     (below v 2 ->
        extract_age v r =
          (w <- py_mul v (CFloat 52.1775) ;;
           m <- py_mul v (CInt 12) ;;
           Ok (set_ages r v w m)))
     /\ (at_least v 2 -> below v 52 ->
        extract_age v r =
          (y <- py_truediv v (CFloat 52.1775) ;;
           m <- py_truediv v (CFloat 4.348) ;;
           Ok (set_ages r y v m)))
     /\ (at_least v 52 ->
        extract_age v r =
          (y <- py_truediv v (CInt 12) ;;
           w <- py_mul v (CFloat 4.348) ;;
           Ok (set_ages r y w v)))
     /\ (below v 2 \/ (at_least v 2 /\ below v 52) \/ at_least v 52)
     /\ (forall r', extract_age v r = Ok r' ->
           age_years r' <> None /\ age_weeks r' <> None /\ age_months r' <> None)
     /\ (forall f, v = CFloat f -> exists r', extract_age v r = Ok r'))
  /\ (forall r : result_row,
        extract_age (CFloat 1.999) r =
          Ok (set_ages r (CFloat 1.999) (CFloat 104.3028225) (CFloat 23.988))
        /\ extract_age (CFloat 2.0) r =
          Ok (set_ages r (CFloat 0.03833069809783911) (CFloat 2.0)
                (CFloat 0.45998160073597055))
        /\ extract_age (CFloat 51.999) r =
          Ok (set_ages r (CFloat 0.9965789851947678) (CFloat 51.999)
                (CFloat 11.959291628334867))
        /\ extract_age (CFloat 52.0) r =
          Ok (set_ages r (CFloat 4.333333333333333) (CFloat 226.096) (CFloat 52.0))).
Proof.
  split.
  - intros v r Hnum Hna.
    assert (N2 : PrimFloat.is_nan (small_int 2) = false) by reflexivity.
    assert (N52 : PrimFloat.is_nan (small_int 52) = false) by reflexivity.
    pose proof (py_lt_below v 2 Hnum) as B2.
    pose proof (py_lt_below v 52 Hnum) as B52.
    pose proof (py_lt_at_least v 2 Hnum Hna N2) as A2.
    pose proof (py_lt_at_least v 52 Hnum Hna N52) as A52.
    repeat split.
    + intros H. apply B2 in H. unfold extract_age. now rewrite Hnum, H.
    + intros H1 H2. apply A2 in H1. apply B52 in H2.
      unfold extract_age. now rewrite Hnum, H1, H2.
    + intros H. pose proof (at_least_52_2 v H) as H2. apply A52 in H.
      unfold extract_age. now rewrite Hnum, H2, H.
    + destruct (py_lt v 2) eqn:E2.
      * left. now apply B2.
      * right. destruct (py_lt v 52) eqn:E52.
        -- left. split; [now apply A2 | now apply B52].
        -- right. now apply A52.
    + unfold extract_age in H. rewrite Hnum in H.
      destruct (py_lt v 2); [|destruct (py_lt v 52)];
        match type of H with
        | (x <- ?a ;; y <- ?b ;; _) = _ =>
            destruct a; [|discriminate H]; destruct b; [|discriminate H]
        end; simpl in H; injection H as <-; discriminate.
    + unfold extract_age in H. rewrite Hnum in H.
      destruct (py_lt v 2); [|destruct (py_lt v 52)];
        match type of H with
        | (x <- ?a ;; y <- ?b ;; _) = _ =>
            destruct a; [|discriminate H]; destruct b; [|discriminate H]
        end; simpl in H; injection H as <-; discriminate.
    + unfold extract_age in H. rewrite Hnum in H.
      destruct (py_lt v 2); [|destruct (py_lt v 52)];
        match type of H with
        | (x <- ?a ;; y <- ?b ;; _) = _ =>
            destruct a; [|discriminate H]; destruct b; [|discriminate H]
        end; simpl in H; injection H as <-; discriminate.
    + intros f ->. unfold extract_age. cbn [is_number].
      destruct (py_lt (CFloat f) 2); [|destruct (py_lt (CFloat f) 52)];
        eexists; reflexivity.
  - intros r. repeat split; reflexivity.
Qed.

(** The heuristic at an int: 30 is taken as weeks. *)
Lemma magnitude_heuristic_witness :
  extract_age (CInt 30) sample_row =
    Ok (set_ages sample_row (CFloat 0.5749604714675866) (CInt 30)
          (CFloat 6.899724011039559)).
Proof.
  destruct (proj1 magnitude_heuristic (CInt 30) sample_row eq_refl eq_refl)
    as [_ [H _]].
  rewrite H; [reflexivity | simpl; lia | simpl; lia].
Defined.

(** C2: the heuristic does not reach every numeric age.  Line 84 admits
    instances of int and float only, and a numpy.int64 is neither: on a
    sheet whose columns are all integer columns no age is classified,
    whatever its magnitude.  The ages 30 and 60 of such a sheet, weeks
    and months by the heuristic, leave the three age fields unset, and
    the rows are emitted without an age. *)
Theorem integer_sheet_age_not_classified :
  (forall (n : Z) (r : result_row),
     isna (CInt64 n) = false /\ extract_age (CInt64 n) r = Ok r)
  /\ process_lms_data whole_number_sheet (lit "uk90") (lit "height") None None
     = Ok (Some [whole_number_row 95; whole_number_row 110])
  /\ (forall m, age_years (whole_number_row m) = None
                /\ age_weeks (whole_number_row m) = None
                /\ age_months (whole_number_row m) = None).
Proof.
  split; [intros n r; split; reflexivity|].
  split; [vm_compute; reflexivity|].
  intros m. repeat split.
Qed.

(* ================================================================== *)
(** * Which rows process_lms_data emits *)
(* ================================================================== *)

Lemma bind_ok {A B : Type} (r : result A) (k : A -> result B) (b : B) :
  (x <- r ;; k x) = Ok b -> exists a, r = Ok a /\ k a = Ok b.
Proof. destruct r as [a|e]; simpl; [now exists a | discriminate]. Qed.

(** A property every turn of a loop keeps holds after the loop. *)
Lemma for_each_invariant {A St : Type} (P : St -> Prop)
    (body : St -> A -> result St) (xs : list A) :
  (forall st x st', In x xs -> body st x = Ok st' -> P st -> P st') ->
  forall st st', for_each body xs st = Ok st' -> P st -> P st'.
Proof.
  induction xs as [|x xs IH]; intros Hbody st st' H HP; simpl in H.
  - now injection H as <-.
  - apply bind_ok in H as [st1 [H1 H2]].
    apply (IH (fun st x st' Hin => Hbody st x st' (or_intror Hin)) st1 st' H2).
    exact (Hbody st x st1 (or_introl eq_refl) H1 HP).
Qed.

Section EmittedRows.

Variable source_name : str.
Variable measurement_type : str.
Variable gender : option str.
Variable age_range : option str.
Variable cols : list str.
Variable age_col : str.

Local Abbreviation scan := (scan_row source_name measurement_type gender age_range cols).
Local Abbreviation process :=
  (process_row source_name measurement_type gender age_range cols age_col).
Local Abbreviation collect :=
  (collect_rows source_name measurement_type gender age_range cols age_col).

Lemma process_row_scanned (row : list cell) (age_val : cell) (r : result_row) :
  row_get cols row age_col = Ok age_val -> isna age_val = false ->
  scan age_val row = Ok r ->
  process row = match val_M r with Some _ => Ok (Some r) | None => Ok None end.
Proof.
  intros Hget Hna Hscan. unfold process_row.
  rewrite Hget. cbn [bind]. rewrite Hna.
  now rewrite Hscan.
Qed.

Lemma collect_rows_dropped (row : list cell) (rest : list (list cell)) :
  process row = Ok None -> collect (row :: rest) = collect rest.
Proof.
  intros H. cbn [collect_rows]. rewrite H. cbn [bind].
  now destruct (collect_rows _ _ _ _ _ _ rest).
Qed.

Lemma collect_rows_emitted (row : list cell) (rest : list (list cell))
    (r : result_row) :
  process row = Ok (Some r) ->
  collect (row :: rest) = (later <- collect rest ;; Ok (r :: later)).
Proof.
  intros H. cbn [collect_rows]. now rewrite H.
Qed.

Lemma process_row_emits (row : list cell) (r : result_row) :
  process row = Ok (Some r) <->
  exists age_val,
    row_get cols row age_col = Ok age_val /\ isna age_val = false
    /\ scan age_val row = Ok r /\ val_M r <> None.
Proof.
  split.
  - unfold process_row. intros H.
    apply bind_ok in H as [age_val [Hget H]]. exists age_val.
    destruct (isna age_val); [discriminate H|].
    apply bind_ok in H as [r' [Hscan H]].
    destruct (val_M r') eqn:E; [|discriminate H].
    injection H as <-. repeat split; try assumption. now rewrite E.
  - intros [age_val [Hget [Hna [Hscan HM]]]].
    rewrite (process_row_scanned row age_val r Hget Hna Hscan).
    destruct (val_M r); [reflexivity | now elim HM].
Qed.


End EmittedRows.


(* ================================================================== *)
(** * The age cell of a row *)
(* ================================================================== *)

Section AgeCell.

Variable source_name : str.
Variable measurement_type : str.
Variable gender : option str.
Variable age_range : option str.
Variable cols : list str.
Variable age_col : str.

Local Abbreviation scan := (scan_row source_name measurement_type gender age_range cols).
Local Abbreviation process :=
  (process_row source_name measurement_type gender age_range cols age_col).
Local Abbreviation collect :=
  (collect_rows source_name measurement_type gender age_range cols age_col).

Lemma generic_column_ages (row : list cell) (r r' : result_row) (col : str) :
  generic_column measurement_type cols row r col = Ok r' ->
  ages_unset r -> ages_unset r'.
Proof.
  unfold generic_column. intros H U.
  repeat match type of H with
  | (if ?c then _ else _) = _ => destruct c
  | (x <- ?a ;; _) = _ => destruct a; [cbn [bind] in H | discriminate H]
  end; injection H as <-; exact U.
Qed.

Lemma gender_column_ages (prefix : str) (row : list cell) (r r' : result_row)
    (col : str) :
  gender_column cols prefix row r col = Ok r' -> ages_unset r -> ages_unset r'.
Proof.
  unfold gender_column. intros H U.
  repeat match type of H with
  | (if ?c then _ else _) = _ => destruct c
  | (x <- ?a ;; _) = _ => destruct a; [cbn [bind] in H | discriminate H]
  end; injection H as <-; exact U.
Qed.

(** The loops over the columns leave the age fields alone. *)
Lemma scan_row_not_numeric (row : list cell) (age_val : cell) (r : result_row) :
  is_number age_val = false -> scan age_val row = Ok r -> ages_unset r.
Proof.
  intros Hnum H. unfold scan_row, extract_age in H.
  rewrite Hnum in H. cbn [bind] in H.
  apply bind_ok in H as [r1 [H1 H2]].
  assert (U1 : ages_unset r1).
  { apply (for_each_invariant ages_unset _ _
             (fun st x st' _ => generic_column_ages row st st' x) _ _ H1).
    repeat split. }
  unfold gender_strategy in H2. destruct gender as [g|]; [|now injection H2 as <-].
  destruct (truthy (Some g)); [|now injection H2 as <-].
  exact (for_each_invariant ages_unset _ _
           (fun st x st' _ => gender_column_ages _ row st st' x) _ _ H2 U1).
Qed.

(** C4, amended: a row whose age cell is missing is dropped and the rows
    after it are still processed.  A row whose age cell is present but
    not a number is not dropped for that: its three age fields stay
    unset and it is emitted exactly when M ends up set. *)
Theorem age_cell_missing_or_not_numeric (row : list cell) (age_val : cell) :
  row_get cols row age_col = Ok age_val ->
  (isna age_val = true ->
     process row = Ok None
     /\ forall rest, collect (row :: rest) = collect rest)
  /\ (isna age_val = false -> is_number age_val = false ->
      forall r, scan age_val row = Ok r ->
        ages_unset r /\ (process row = Ok (Some r) <-> val_M r <> None)).
Proof.
  intros Hget. split.
  - intros Hna.
    assert (P : process row = Ok None).
    { unfold process_row. rewrite Hget. cbn [bind]. now rewrite Hna. }
    split; [exact P|]. intros rest.
    now apply (collect_rows_dropped source_name measurement_type gender age_range
                 cols age_col).
  - intros Hna Hnum r Hscan. split.
    + exact (scan_row_not_numeric row age_val r Hnum Hscan).
    + pose proof (process_row_scanned source_name measurement_type gender
                    age_range cols age_col row age_val r Hget Hna Hscan) as P.
      rewrite P.
      destruct (val_M r); split; congruence.
Qed.

End AgeCell.

(** The amended C4 at a row whose age cell is missing: the row is dropped. *)
Lemma age_cell_missing_or_not_numeric_witness :
  process_row (lit "uk90") (lit "height") None None
    [lit "age_years"; lit "height_m"] (lit "age_years")
    [CFloat PrimFloat.nan; CFloat 80.2] = Ok None.
Proof.
  apply (proj1 (age_cell_missing_or_not_numeric (lit "uk90") (lit "height")
           None None [lit "age_years"; lit "height_m"] (lit "age_years")
           [CFloat PrimFloat.nan; CFloat 80.2] (CFloat PrimFloat.nan) eq_refl)).
  reflexivity.
Defined.

(** C4, the claim as stated fails: a row whose age cell holds the string
    [abc] and whose M column holds 80.2 is emitted, with no age. *)
Lemma non_numeric_age_row_emitted :
  is_number (CStr (lit "abc")) = false
  /\ process_row (lit "uk90") (lit "height") None None
       [lit "age_years"; lit "height_m"] (lit "age_years")
       [CStr (lit "abc"); CFloat 80.2]
     = Ok (Some {| source := lit "uk90"; measurement := lit "height";
                   age_years := None; age_weeks := None; age_months := None;
                   gender_key := None; age_range_key := None;
                   val_L := None; val_M := Some (CFloat 80.2); val_S := None |}).
Proof. split; reflexivity. Qed.

(* ================================================================== *)
(** * The gender-qualified loop over the columns *)
(* ================================================================== *)

Lemma or_previous_cases (v : cell) (previous : option cell) :
  (isna v = true /\ or_previous v previous = previous)
  \/ (isna v = false /\ or_previous v previous = Some v).
Proof. unfold or_previous. destruct (isna v); [left | right]; now split. Qed.

Section GenderStrategy.

Variable cols : list str.
Variable row : list cell.

(** One turn of the loop leaves the dict alone or assigns one of L, M, S:
    the cell of the column when it is not missing, else the value the
    field had. *)
Lemma gender_column_step (prefix : str) (r r' : result_row) (col : str) :
  gender_column cols prefix row r col = Ok r' ->
  r' = r
  \/ exists v,
       gender_column_matches prefix (lower col) = true
       /\ row_get cols row col = Ok v
       /\ (r' = set_L r (or_previous v (val_L r))
           \/ r' = set_M r (or_previous v (val_M r))
           \/ r' = set_S r (or_previous v (val_S r))).
Proof.
  unfold gender_column. intros H.
  destruct (gender_column_matches prefix (lower col)) eqn:Hm;
    [|left; now injection H as <-].
  repeat match type of H with
  | (if ?c then _ else _) = _ => destruct c
  | (x <- ?a ;; _) = _ =>
      let v := fresh "v" in
      destruct a as [v|] eqn:Hget; [cbn [bind] in H | discriminate H]
  end;
  injection H as <-;
  first [ left; reflexivity
        | right; eexists; split; [reflexivity|]; split; [reflexivity|]; tauto ].
Qed.

Lemma kept_or_filled_step (g : str) (field : result_row -> option cell)
    (r0 r r' : result_row) (col : str) :
  field = val_L \/ field = val_M \/ field = val_S ->
  In col cols ->
  gender_column cols (gender_prefix g) row r col = Ok r' ->
  kept_or_filled (Some g) cols row field r0 r ->
  kept_or_filled (Some g) cols row field r0 r'.
Proof.
  intros Hfield Hin H K.
  destruct (gender_column_step _ _ _ _ H) as [-> | [v [Hm [Hget Hr]]]]; [exact K|].
  assert (Keep : field r' = field r -> kept_or_filled (Some g) cols row field r0 r').
  { intros E. unfold kept_or_filled in *. rewrite E. exact K. }
  assert (Fill : isna v = false -> field r' = Some v ->
                 kept_or_filled (Some g) cols row field r0 r').
  { intros Hv E. right. exists g, col, v. repeat split; assumption. }
  destruct Hfield as [-> | [-> | ->]]; destruct Hr as [-> | [-> | ->]];
    try (apply Keep; reflexivity);
    match goal with
    | |- context [or_previous v ?prev] =>
        destruct (or_previous_cases v prev) as [[Hv E] | [Hv E]];
        [ apply Keep; exact E | apply Fill; [exact Hv | exact E] ]
    end.
Qed.

(** One turn of the loop, exactly: a column the loop assigns from sets
    its key to the cell, or leaves the key as it was when the cell is
    missing; any other column leaves the dict alone. *)
Lemma gender_column_exact (prefix : str) (r : result_row) (col : str) :
  gender_column cols prefix row r col
  = match assigns_to prefix col with
    | Some f =>
        v <- row_get cols row col ;;
        Ok (set_field f r (or_previous v (field_of f r)))
    | None => Ok r
    end.
Proof.
  unfold gender_column, assigns_to. cbv zeta.
  destruct (gender_column_matches prefix (lower col)); [|reflexivity].
  destruct (_ || _); [reflexivity|].
  destruct (_ || _); [reflexivity|].
  destruct (_ || _); reflexivity.
Qed.

Lemma field_of_set_field (f f' : lms) (r : result_row) (v : option cell) :
  field_of f (set_field f' r v) = if lms_eqb f' f then v else field_of f r.
Proof. now destruct f, f'. Qed.

Lemma last_default {A : Type} (l : list A) (x d d' : A) :
  last (x :: l) d = last (x :: l) d'.
Proof.
  revert x; induction l as [|y l IH]; intros x; [reflexivity|].
  change (last (y :: l) d = last (y :: l) d'). apply IH.
Qed.

Lemma last_app_default {A : Type} (a b : list A) (d : A) :
  last (a ++ b) d = last b (last a d).
Proof.
  revert d; induction a as [|x a IH]; intros d; [reflexivity|].
  destruct a as [|y a].
  - destruct b as [|z b]; [reflexivity|].
    change (last (z :: b) d = last (z :: b) x). apply last_default.
  - change (last ((y :: a) ++ b) d = last b (last (y :: a) d)). apply IH.
Qed.

(** The loop over the columns [cs]: every key ends as the last cell that
    is not missing among the columns the loop assigns it from, and as it
    was when there is none. *)
Lemma gender_loop_fields (prefix : str) (cs : list str) (r r' : result_row) :
  for_each (gender_column cols prefix row) cs r = Ok r' ->
  forall f, field_of f r'
            = last (map Some (read_cells prefix cols row f cs)) (field_of f r).
Proof.
  revert r; induction cs as [|col cs IH]; intros r H f.
  - injection H as <-. reflexivity.
  - cbn [for_each] in H. apply bind_ok in H as [r1 [H1 H]].
    rewrite (IH r1 H f). unfold read_cells at 2. cbn [flat_map].
    fold (read_cells prefix cols row f cs).
    rewrite map_app, last_app_default. f_equal.
    rewrite gender_column_exact in H1.
    destruct (assigns_to prefix col) as [f'|]; [|now injection H1 as <-].
    apply bind_ok in H1 as [v [Hv H1]]. injection H1 as <-.
    rewrite Hv, field_of_set_field.
    destruct (lms_eqb f' f) eqn:E; [|reflexivity].
    assert (f' = f) as -> by (destruct f, f'; (reflexivity || discriminate E)).
    unfold or_previous. destruct (isna v); reflexivity.
Qed.

(** C5, amended: the gender-qualified loop assigns L, M or S from every
    column it reads whose cell is not missing, whether or not the first
    loop had set the field; only a missing cell leaves the earlier value
    in place.  Each field ends as the last such cell, in column order,
    and as the first loop left it when there is none; so a field that
    was set is never cleared. *)
Theorem gender_strategy_keeps_or_replaces (gender : option str)
    (r r' : result_row) :
  gender_strategy gender cols row r = Ok r' ->
  (forall f : lms,
     field_of f r' = last (map Some (gender_cells gender cols row f)) (field_of f r))
  /\ (forall (prefix col : str) (st : result_row) (f : lms) (v : cell),
        assigns_to prefix col = Some f -> row_get cols row col = Ok v ->
        gender_column cols prefix row st col
        = Ok (set_field f st (if isna v then field_of f st else Some v)))
  /\ (forall (prefix col : str) (st : result_row),
        assigns_to prefix col = None ->
        gender_column cols prefix row st col = Ok st)
  /\ (kept_or_filled gender cols row val_L r r'
      /\ kept_or_filled gender cols row val_M r r'
      /\ kept_or_filled gender cols row val_S r r')
  /\ (val_L r <> None -> val_L r' <> None)
  /\ (val_M r <> None -> val_M r' <> None)
  /\ (val_S r <> None -> val_S r' <> None).
Proof.
  intros H.
  assert (K : forall field, field = val_L \/ field = val_M \/ field = val_S ->
              kept_or_filled gender cols row field r r').
  { intros field Hfield. unfold gender_strategy in H.
    destruct gender as [g|]; [|injection H as <-; now left].
    destruct (truthy (Some g)); [|injection H as <-; now left].
    apply (for_each_invariant (kept_or_filled (Some g) cols row field r) _ _
             (fun st x st' Hin => kept_or_filled_step g field r st st' x Hfield Hin)
             _ _ H).
    now left. }
  assert (N : forall field, kept_or_filled gender cols row field r r' ->
              field r <> None -> field r' <> None).
  { intros field [E | [g [col [v [_ [_ [_ [_ [_ E]]]]]]]]] Hset; rewrite E;
      [exact Hset | discriminate]. }
  split.
  { intros f. unfold gender_strategy in H. unfold gender_cells.
    destruct gender as [g|]; [|now injection H as <-].
    destruct (truthy (Some g)); [|now injection H as <-].
    exact (gender_loop_fields _ _ _ _ H f). }
  split.
  { intros prefix col st f v Ha Hv. rewrite gender_column_exact, Ha, Hv.
    reflexivity. }
  split.
  { intros prefix col st Ha. now rewrite gender_column_exact, Ha. }
  split.
  { repeat split; apply K; tauto. }
  repeat split; apply N, K; tauto.
Qed.

End GenderStrategy.

(** The amended C5 on a sheet with a generic and a gender-qualified M
    column: M ends as the gender-qualified cell, the only one the second
    loop reads. *)
Lemma gender_strategy_keeps_or_replaces_witness :
  gender_cells (Some (lit "male")) lms_cols lms_row FieldM = [CFloat 20]
  /\ field_of FieldM lms_after_gender
     = last (map Some (gender_cells (Some (lit "male")) lms_cols lms_row FieldM))
            (field_of FieldM lms_after_generic).
Proof.
  split; [reflexivity|].
  exact (proj1 (gender_strategy_keeps_or_replaces lms_cols lms_row
           (Some (lit "male")) lms_after_generic lms_after_gender eq_refl) FieldM).
Defined.

(** C5, the claim as stated fails: the first loop sets M to 10 from the
    column [lms_m], and the gender-qualified loop replaces it by 20 from
    the column [male_height_m]. *)
Lemma gender_strategy_replaces_set_field :
  generic_strategy (lit "bmi") lms_cols lms_row lms_start = Ok lms_after_generic
  /\ val_M lms_after_generic = Some (CFloat 10)
  /\ gender_strategy (Some (lit "male")) lms_cols lms_row lms_after_generic
     = Ok lms_after_gender
  /\ val_M lms_after_gender = Some (CFloat 20).
Proof. repeat split; reflexivity. Qed.

(* ================================================================== *)
(** * The token male inside female *)
(* ================================================================== *)

Lemma female_contains_male (c : str) :
  contains (lit "female") c = true -> contains (lit "male") c = true.
Proof. apply contains_trans. reflexivity. Qed.

Lemma female_contains_l (c : str) :
  contains (lit "female") c = true -> contains (lit "l") c = true.
Proof. apply contains_trans. reflexivity. Qed.

(** C10: in a male context the second loop looks for the token [male],
    which every name holding [female] holds too.  A column labelled
    female (with one of height, weight, bmi, hc) therefore passes the
    test, and the loop treats it exactly as it would in a female
    context; on a sheet with one M column per gender a male row ends
    with the M of the female column. *)
Theorem male_context_reads_female_columns :
  gender_prefix (lit "male") = lit "male"
  /\ (forall c : str,
        contains (lit "female") c = true -> contains (lit "male") c = true)
  /\ (forall col : str,
        contains (lit "female") (lower col) = true ->
        contains (lit "height") (lower col)
        || contains (lit "weight") (lower col)
        || contains (lit "bmi") (lower col)
        || contains (lit "hc") (lower col) = true ->
        gender_column_matches (gender_prefix (lit "male")) (lower col) = true)
  /\ (forall (cols : list str) (row : list cell) (r : result_row) (col : str),
        contains (lit "female") (lower col) = true ->
        gender_column cols (gender_prefix (lit "male")) row r col
        = gender_column cols (gender_prefix (lit "female")) row r col)
  /\ (exists r,
        process_row (lit "uk90") (lit "stature") (Some (lit "male")) None
          both_cols (lit "age_years") both_row = Ok (Some r)
        /\ row_get both_cols both_row (lit "female_height_m") = Ok (CFloat 77)
        /\ val_M r = Some (CFloat 77)).
Proof.
  split; [reflexivity|].
  split; [exact female_contains_male|].
  assert (G : forall col, contains (lit "female") (lower col) = true ->
              gender_column_matches (gender_prefix (lit "male")) (lower col)
              = gender_column_matches (gender_prefix (lit "female")) (lower col)).
  { intros col H. unfold gender_column_matches.
    change (gender_prefix (lit "male")) with (lit "male").
    change (gender_prefix (lit "female")) with (lit "female").
    now rewrite H, (female_contains_male _ H). }
  split.
  - intros col H Hm. rewrite (G col H). unfold gender_column_matches.
    change (gender_prefix (lit "female")) with (lit "female").
    now rewrite H, (female_contains_l _ H), Hm.
  - split.
    + intros cols row r col H. unfold gender_column. now rewrite (G col H).
    + eexists. split; [reflexivity|]. split; reflexivity.
Qed.

(** The test of the second loop on the label [Female_Height_M] in a male
    context. *)
Lemma male_context_reads_female_columns_witness :
  gender_column_matches (gender_prefix (lit "male"))
    (lower (lit "Female_Height_M")) = true.
Proof.
  apply (proj1 (proj2 (proj2 male_context_reads_female_columns))
           (lit "Female_Height_M")); reflexivity.
Defined.

(* ================================================================== *)
(** * Columns of a frame *)
(* ================================================================== *)

Lemma labelled_absent (cols : list str) (row : list cell) (c : str) :
  ~ In c cols -> labelled cols row c = [].
Proof.
  revert row; induction cols as [|a cols IH]; intros row H; [reflexivity|].
  destruct row as [|v row]; [reflexivity|].
  unfold labelled in *. cbn [cells_where].
  destruct (str_eqb a c) eqn:E.
  - apply str_eqb_eq in E. subst. elim H. now left.
  - apply IH. intros Hin. apply H. now right.
Qed.

Lemma labelled_single (cols : list str) (row : list cell) (c : str) :
  NoDup cols -> List.length row = List.length cols -> In c cols ->
  exists v, labelled cols row c = [v].
Proof.
  revert row; induction cols as [|a cols IH]; intros row Hnd Hlen Hin; [easy|].
  destruct row as [|v row]; [discriminate Hlen|].
  inversion Hnd as [|? ? Ha Hcols]; subst.
  unfold labelled in *. cbn [cells_where].
  destruct (str_eqb a c) eqn:E.
  - apply str_eqb_eq in E. subst. exists v. f_equal.
    now apply labelled_absent.
  - apply IH; [exact Hcols | now injection Hlen |].
    destruct Hin as [->|Hin]; [|exact Hin].
    assert (T : str_eqb c c = true) by now apply str_eqb_eq.
    congruence.
Qed.

Lemma filter_label_single (cols : list str) (l : str) :
  NoDup cols -> In l cols -> filter (fun c => str_eqb c l) cols = [l].
Proof.
  induction cols as [|a cols IH]; intros Hnd Hin; [easy|].
  inversion Hnd as [|? ? Ha Hcols]; subst. cbn [filter].
  destruct (str_eqb a l) eqn:E.
  - apply str_eqb_eq in E. subst. f_equal.
    clear IH Hin Hnd Hcols. induction cols as [|b cols IH]; [reflexivity|].
    cbn [filter]. destruct (str_eqb b l) eqn:F.
    + apply str_eqb_eq in F. subst. elim Ha. now left.
    + apply IH. intros H. apply Ha. now right.
  - apply IH; [exact Hcols|]. destruct Hin as [->|Hin]; [|exact Hin].
    assert (T : str_eqb l l = true) by now apply str_eqb_eq.
    congruence.
Qed.

(** Dropping the columns that fail [p] keeps the cells under every
    label that passes. *)
Lemma labelled_cells_where (p : str -> bool) (cols : list str) (row : list cell)
    (c : str) :
  p c = true ->
  labelled (filter p cols) (cells_where p cols row) c = labelled cols row c.
Proof.
  intros Hc. revert row; induction cols as [|a cols IH]; intros row; [reflexivity|].
  destruct row as [|v row].
  - cbn [cells_where]. unfold labelled. now destruct (filter p (a :: cols)).
  - cbn [filter cells_where]. destruct (p a) eqn:Ha.
    + unfold labelled in *. cbn [cells_where]. now rewrite IH.
    + rewrite IH. unfold labelled. cbn [cells_where].
      destruct (str_eqb a c) eqn:E; [|reflexivity].
      apply str_eqb_eq in E. congruence.
Qed.

Lemma length_cells_where (p : str -> bool) (cols : list str) (row : list cell) :
  List.length row = List.length cols ->
  List.length (cells_where p cols row) = List.length (filter p cols).
Proof.
  revert row; induction cols as [|a cols IH]; intros [|v row] H;
    try reflexivity; try discriminate H.
  cbn [filter cells_where]. injection H as H.
  destruct (p a); cbn [List.length]; now rewrite IH.
Qed.

(** Selecting distinct labels of a frame with distinct labels lays the
    same cells out under the selected labels. *)
Lemma select_distinct (cols : list str) (row : list cell) (labels : list str) :
  NoDup cols -> List.length row = List.length cols ->
  NoDup labels -> incl labels cols ->
  flat_map (fun l => filter (fun c => str_eqb c l) cols) labels = labels
  /\ forall c, labelled labels (flat_map (labelled cols row) labels) c
               = if in_dec (list_eq_dec ascii_dec) c labels
                 then labelled cols row c else [].
Proof.
  intros Hnd Hlen. induction labels as [|l ls IH]; intros Hl Hincl.
  - split; [reflexivity|]. intros c. reflexivity.
  - inversion Hl as [|? ? Hnotin Hls]; subst.
    assert (Hin : In l cols) by (apply Hincl; now left).
    destruct (IH Hls (fun x Hx => Hincl x (or_intror Hx))) as [IH1 IH2].
    destruct (labelled_single cols row l Hnd Hlen Hin) as [v Hv].
    split.
    + cbn [flat_map]. rewrite IH1, (filter_label_single cols l Hnd Hin). reflexivity.
    + intros c. cbn [flat_map]. rewrite Hv. cbn [app].
      unfold labelled at 1. cbn [cells_where].
      fold (labelled ls (flat_map (labelled cols row) ls) c). rewrite IH2.
      destruct (str_eqb l c) eqn:E.
      * apply str_eqb_eq in E. subst c.
        destruct (in_dec (list_eq_dec ascii_dec) l (l :: ls)) as [_|n];
          [|elim n; now left].
        destruct (in_dec (list_eq_dec ascii_dec) l ls) as [i|_]; [now elim Hnotin|].
        now rewrite Hv.
      * destruct (in_dec (list_eq_dec ascii_dec) c ls) as [i|n];
          destruct (in_dec (list_eq_dec ascii_dec) c (l :: ls)) as [i'|n'];
          try reflexivity.
        -- elim n'. now right.
        -- destruct i' as [->|i']; [|now elim n].
           assert (T : str_eqb c c = true) by now apply str_eqb_eq.
           congruence.
Qed.

(* ================================================================== *)
(** * The gender split of process_cdc_file *)
(* ================================================================== *)

Lemma Forall2_map_left {A B : Type} (R : B -> A -> Prop) (f : A -> B) (l : list A) :
  (forall x, In x l -> R (f x) x) -> Forall2 R (map f l) l.
Proof.
  induction l as [|a l IH]; intros H; [constructor|].
  cbn [map]. constructor; [apply H; now left|].
  apply IH. intros x Hx. apply H. now right.
Qed.

Lemma str_eqb_refl (c : str) : str_eqb c c = true.
Proof. now apply str_eqb_eq. Qed.

Lemma not_label_In (cols : list str) (l c : str) :
  In c (filter (fun c => negb (str_eqb c l)) cols) <-> In c cols /\ c <> l.
Proof.
  rewrite filter_In. split; intros [H1 H2]; split; try exact H1.
  - intros ->. now rewrite str_eqb_refl in H2.
  - destruct (str_eqb c l) eqn:E; [|reflexivity].
    apply str_eqb_eq in E. contradiction.
Qed.

Section GenderSplit.

Variable measurement : str.
Variable df : DataFrame.
Variable x_col : str.

Hypothesis distinct_labels : NoDup (columns df).
Hypothesis rows_fit : rectangular df.
Hypothesis x_present : In x_col (columns df).
Hypothesis x_not_sex : x_col <> lit "Sex".

Local Abbreviation without_sex :=
  (filter (fun c => negb (str_eqb c (lit "Sex"))) (columns df)).

Local Abbreviation labels :=
  (x_col :: filter (fun c => negb (str_eqb c x_col)) without_sex).

Lemma labels_distinct : NoDup labels /\ incl labels without_sex.
Proof.
  assert (Hx : In x_col without_sex) by (apply not_label_In; now split).
  split.
  - constructor.
    + intros H. apply not_label_In in H. now destruct H.
    + apply NoDup_filter, NoDup_filter. exact distinct_labels.
  - intros c [<-|H]; [exact Hx|]. now apply not_label_In in H.
Qed.

(** The frame one turn of the split builds from the rows it selects. *)
Lemma split_gender_frame (code : Z) :
  let t := x_first (drop_column (rows_where_eq df (lit "Sex") code) (lit "Sex")) x_col in
  columns t = labels
  /\ same_cells labels labels (columns df) (rows t) (rows_of_sex df code).
Proof.
  destruct labels_distinct as [Hnd Hincl].
  assert (Hws : NoDup without_sex) by (apply NoDup_filter; exact distinct_labels).
  cbv zeta. split.
  - unfold x_first, select_columns, drop_column, rows_where_eq. cbn [columns].
    apply (select_distinct without_sex (map (fun _ => CNone) without_sex) labels);
      try assumption.
    apply length_map.
  - unfold x_first, select_columns, drop_column, rows_where_eq. cbn [columns rows].
    fold (rows_of_sex df code).
    rewrite map_map. apply Forall2_map_left.
    intros row Hrow c Hc.
    assert (Hlen : List.length row = List.length (columns df)).
    { unfold rows_of_sex in Hrow. apply filter_In in Hrow as [Hrow _].
      exact (proj1 (Forall_forall _ _) rows_fit row Hrow). }
    set (row1 := cells_where (fun c => negb (str_eqb c (lit "Sex"))) (columns df) row).
    assert (Hlen1 : List.length row1 = List.length without_sex)
      by (apply length_cells_where; exact Hlen).
    destruct (select_distinct without_sex row1 labels Hws Hlen1 Hnd Hincl) as [_ S].
    unfold row_get. rewrite (S c).
    destruct (in_dec (list_eq_dec ascii_dec) c labels) as [_|n]; [|contradiction].
    unfold row1. rewrite labelled_cells_where; [reflexivity|].
    apply Hincl in Hc. apply not_label_In in Hc as [_ Hc].
    destruct (str_eqb c (lit "Sex")) eqn:E; [|reflexivity].
    apply str_eqb_eq in E. contradiction.
Qed.

Lemma split_gender_cases (code : Z) (gender : str) :
  (rows_of_sex df code = [] ->
     split_gender measurement df x_col code gender = [])
  /\ (rows_of_sex df code <> [] ->
     split_gender measurement df x_col code gender =
       [(measurement, gender,
         x_first (drop_column (rows_where_eq df (lit "Sex") code) (lit "Sex")) x_col)]).
Proof.
  unfold split_gender.
  change (rows (rows_where_eq df (lit "Sex") code)) with (rows_of_sex df code).
  destruct (rows_of_sex df code) as [|row rest]; split; intros H;
    try reflexivity; now elim H.
Qed.

End GenderSplit.



(* ================================================================== *)
(** * Files the classifier cannot place *)
(* ================================================================== *)

Lemma measurement_of_none (m : list (str * str)) (filename : str) :
  no_pattern m filename -> measurement_of m filename = None.
Proof. intros H. unfold measurement_of. now apply first_mapping_none. Qed.

Lemma who_gender_none (filename : str) :
  no_gender_token filename -> who_gender filename = None.
Proof. intros [B [M [G F]]]. unfold who_gender. now rewrite B, M, G, F. Qed.

(** C8: a WHO file whose lower-cased stem holds no measurement pattern,
    or no gender token, gives no result, whatever the file holds, and
    [main] adds no table for it; a CDC file whose lower-cased stem holds
    no measurement pattern gives the empty list, and [main] adds no
    table for it. *)
Theorem unclassifiable_file_skipped (stem : str) (csv : option DataFrame) :
  (no_pattern WHO_MEASUREMENT_MAP (lower stem) ->
     process_who_file stem csv = Ok None
     /\ forall who_data, who_step who_data (stem, csv) = Ok who_data)
  /\ (no_gender_token (lower stem) ->
     process_who_file stem csv = Ok None
     /\ forall who_data, who_step who_data (stem, csv) = Ok who_data)
  /\ (no_pattern CDC_MEASUREMENT_MAP (lower stem) ->
     process_cdc_file stem csv = []
     /\ forall cdc_data, cdc_step cdc_data (stem, csv) = cdc_data).
Proof.
  assert (W : process_who_file stem csv = Ok None ->
              forall who_data, who_step who_data (stem, csv) = Ok who_data).
  { intros H who_data. unfold who_step. cbn [fst snd]. now rewrite H. }
  repeat split.
  - unfold process_who_file. now rewrite (measurement_of_none _ _ H).
  - apply W. unfold process_who_file. now rewrite (measurement_of_none _ _ H).
  - unfold process_who_file. rewrite (who_gender_none _ H).
    now destruct (measurement_of WHO_MEASUREMENT_MAP (lower stem)).
  - apply W. unfold process_who_file. rewrite (who_gender_none _ H).
    now destruct (measurement_of WHO_MEASUREMENT_MAP (lower stem)).
  - unfold process_cdc_file. now rewrite (measurement_of_none _ _ H).
  - intros cdc_data. unfold cdc_step, process_cdc_file. cbn [fst snd].
    now rewrite (measurement_of_none _ _ H).
Qed.

(** The file [randomfile.csv] adds no table, as a WHO file or as a CDC
    file. *)
Lemma unclassifiable_file_skipped_witness :
  process_who_file (lit "randomfile") (Some cdc_example) = Ok None
  /\ process_cdc_file (lit "randomfile") (Some cdc_example) = [].
Proof.
  destruct (unclassifiable_file_skipped (lit "randomfile") (Some cdc_example))
    as [W [_ C]].
  split.
  - apply W. repeat constructor.
  - apply C. repeat constructor.
Defined.

(* ================================================================== *)
(** * combine_dataframes *)
(* ================================================================== *)



(** The two-table example of the combiner: the tables [(1,A),(2,B)] and
    [(2,C),(3,D)], four rows in all, are sorted by insertion, and the
    later table wins at x = 2. *)
Example combine_small :
  combine_dataframes
    [ {| columns := [lit "Month"; lit "M"];
         rows := [[CInt 1; CStr (lit "A")]; [CInt 2; CStr (lit "B")]] |};
      {| columns := [lit "Month"; lit "M"];
         rows := [[CInt 2; CStr (lit "C")]; [CInt 3; CStr (lit "D")]] |} ]
    (lit "Month")
  = Ok (Some {| columns := [lit "Month"; lit "M"];
                rows := [[CInt 1; CStr (lit "A")]; [CInt 2; CStr (lit "C")];
                         [CInt 3; CStr (lit "D")]] |}).
Proof. vm_compute. reflexivity. Qed.

(** C1 on the code: of the two rows of month 8 the sort puts the one of
    the later table first, so that the last occurrence, which is kept,
    is the row of the earlier table (M = 108, not 208). *)
Theorem combine_keeps_earlier_table :
  combine_dataframes [earlier_table; later_table] (lit "Month")
  = Ok (Some
      {| columns := [lit "Month"; lit "M"];
         rows := [ [CInt 0; CInt 100]; [CInt 1; CInt 101]; [CInt 2; CInt 102];
                   [CInt 3; CInt 103]; [CInt 4; CInt 104]; [CInt 5; CInt 105];
                   [CInt 6; CInt 106]; [CInt 7; CInt 107]; [CInt 8; CInt 108];
                   [CInt 9; CInt 209]; [CInt 10; CInt 210]; [CInt 11; CInt 211];
                   [CInt 12; CInt 212]; [CInt 13; CInt 213]; [CInt 14; CInt 214];
                   [CInt 15; CInt 215]; [CInt 16; CInt 216] ] |}).
Proof. vm_compute. reflexivity. Qed.

(** The order of the rows after the sort alone: row 9, the first row of
    the later table, stands before row 8, the last row of the earlier
    one. *)
Example sort_is_not_stable :
  nargsort (map KInt [0; 1; 2; 3; 4; 5; 6; 7; 8; 8; 9; 10; 11; 12; 13; 14; 15; 16]%Z)
  = [0; 1; 2; 3; 4; 5; 6; 7; 9; 8; 10; 11; 12; 13; 14; 15; 16; 17]%nat.
Proof. vm_compute. reflexivity. Qed.

(* ================================================================== *)
(** * Further facts *)
(* ================================================================== *)

(** X1. The gender of a WHO file: [male] is looked for before [female] and
    occurs in it, so a file name holding [female] is classified as boys;
    girls is reached through the token [girls] alone. *)
Theorem who_gender_female_is_boys :
  (forall filename : str,
     contains (lit "female") filename = true ->
     who_gender filename = Some (lit "boys"))
  /\ (forall filename : str,
        who_gender filename = Some (lit "girls") <->
        contains (lit "girls") filename = true
        /\ contains (lit "boys") filename = false
        /\ contains (lit "male") filename = false)
  /\ who_gender (lit "wfa_female_0-to-5-years") = Some (lit "boys").
Proof.
  split; [|split; [|reflexivity]].
  - intros f H. unfold who_gender.
    rewrite (female_contains_male f H). now rewrite orb_true_r.
  - intros f. unfold who_gender.
    destruct (contains (lit "boys") f), (contains (lit "male") f) eqn:M;
      cbn [orb]; try (split; [discriminate | intros [_ [? ?]]; discriminate]).
    destruct (contains (lit "girls") f) eqn:G; cbn [orb].
    + split; [now repeat split | reflexivity].
    + destruct (contains (lit "female") f) eqn:F.
      * rewrite (female_contains_male f F) in M. discriminate M.
      * split; [discriminate | intros [? _]; discriminate].
Qed.

(** X2. Rule order: the normaliser answers with the value of the first rule,
    in the order of the dict, whose key occurs in the lower-cased label;
    [Month Age (years)] matches four rules and resolves by the first of
    them, [years]. *)
Theorem first_rule_wins :
  (forall (m : list (str * str)) (u v : str),
     first_mapping m u = Some v <->
     exists m1 k m2,
       m = m1 ++ (k, v) :: m2
       /\ contains k u = true
       /\ Forall (fun kv => contains (fst kv) u = false) m1)
  /\ standardize_column_name (lit "Month Age (years)") = lit "age_years".
Proof.
  split; [|reflexivity].
  intros m u v. induction m as [|[k0 v0] m IH]; cbn [first_mapping].
  - split; [discriminate | intros [m1 [k [m2 [E _]]]]; now destruct m1].
  - destruct (contains k0 u) eqn:E0.
    + split.
      * intros H. injection H as <-. exists [], k0, m. now repeat split.
      * intros [m1 [k [m2 [E [Hk Hm1]]]]]. destruct m1 as [|kv m1].
        -- now injection E as _ <- _.
        -- injection E as <- _. inversion Hm1; subst. cbn [fst] in *. congruence.
    + rewrite IH. split.
      * intros [m1 [k [m2 [-> [Hk Hm1]]]]]. exists ((k0, v0) :: m1), k, m2.
        repeat split; [exact Hk | now constructor].
      * intros [m1 [k [m2 [E [Hk Hm1]]]]]. destruct m1 as [|kv m1].
        -- injection E as <- _ _. congruence.
        -- injection E as _ ->. exists m1, k, m2.
           repeat split; [exact Hk | now inversion Hm1].
Qed.

Lemma kept_keyed_In (keyed : list (key * list cell)) (kr : key * list cell) :
  In kr (kept_keyed keyed) -> In kr keyed.
Proof.
  induction keyed as [|a rest IH]; [easy|]. cbn [kept_keyed].
  destruct (existsb _ rest); intros H.
  - right. now apply IH.
  - destruct H as [->|H]; [now left | right; now apply IH].
Qed.

(** X3. The rows [drop_duplicates] keeps: they are rows of the frame in the
    order of the frame, no two of them have the same x value, and a row
    is left out only when a later row has its x value. *)
Theorem keep_last_unique (keyed : list (key * list cell)) :
  keep_last keyed = map snd (kept_keyed keyed)
  /\ subsequence (kept_keyed keyed) keyed
  /\ ForallOrdPairs (fun a b => key_same (fst a) (fst b) = false) (kept_keyed keyed)
  /\ (forall before kr after,
        keyed = before ++ kr :: after ->
        existsb (fun kr' => key_same (fst kr) (fst kr')) after = false ->
        In kr (kept_keyed keyed)).
Proof.
  repeat split.
  - induction keyed as [|[k row] rest IH]; [reflexivity|].
    cbn [keep_last kept_keyed fst]. destruct (existsb _ rest); [exact IH|].
    cbn [map snd]. now rewrite IH.
  - induction keyed as [|a rest IH]; [constructor|]. cbn [kept_keyed].
    destruct (existsb _ rest); now constructor.
  - induction keyed as [|a rest IH]; [constructor|]. cbn [kept_keyed].
    destruct (existsb (fun kr' => key_same (fst a) (fst kr')) rest) eqn:E; [exact IH|].
    constructor; [|exact IH].
    apply Forall_forall. intros b Hb. apply kept_keyed_In in Hb.
    destruct (key_same (fst a) (fst b)) eqn:S; [|reflexivity].
    assert (X : existsb (fun kr' => key_same (fst a) (fst kr')) rest = true).
    { apply existsb_exists. now exists b. }
    congruence.
  - intros before. revert keyed.
    induction before as [|b before IH]; intros keyed kr after -> H.
    + cbn [app kept_keyed]. rewrite H. now left.
    + cbn [app kept_keyed]. destruct (existsb _ (before ++ kr :: after)).
      * now apply (IH _ kr after).
      * right. now apply (IH _ kr after).
Qed.

(** End to end on a CDC file: [wtageinf.csv] with the columns Sex,
    Agemos, L, M, S and one row per gender gives a boys and a girls
    table of measurement wfa, each with the header Month, L, M, S and
    one row, and combining each table alone leaves it as it is. *)
Theorem wtageinf_end_to_end :
  let boys := {| columns := [lit "Month"; lit "L"; lit "M"; lit "S"];
                 rows := [[CInt 0; CFloat (-0.2); CFloat 3.5; CFloat 0.09]] |} in
  let girls := {| columns := [lit "Month"; lit "L"; lit "M"; lit "S"];
                  rows := [[CInt 0; CFloat (-0.1); CFloat 3.4; CFloat 0.08]] |} in
  process_cdc_file (lit "wtageinf") (Some wtageinf)
    = [(lit "wfa", lit "boys", boys); (lit "wfa", lit "girls", girls)]
  /\ cdc_step [] (lit "wtageinf", Some wtageinf)
    = [((lit "wfa", lit "boys"), [boys]); ((lit "wfa", lit "girls"), [girls])]
  /\ combine_dataframes [boys] (lit "Month") = Ok (Some boys)
  /\ combine_dataframes [girls] (lit "Month") = Ok (Some girls).
Proof. cbv zeta. repeat split; vm_compute; reflexivity. Qed.

(* ================================================================== *)
(** * Header normalisation: shape and insensitivity *)
(* ================================================================== *)

Lemma first_mapping_In (m : list (str * str)) (u v : str) :
  first_mapping m u = Some v -> In v (map snd m).
Proof.
  induction m as [|[k w] m IH]; simpl; [discriminate|].
  destruct (contains k u).
  - intros H. injection H as ->. now left.
  - intros H. right. now apply IH.
Qed.

Lemma clean_up_no_double (c : str) :
  contains double_underscore (clean_up c) = false.
Proof.
  destruct (contains double_underscore (clean_up c)) eqn:E; [|reflexivity].
  rewrite clean_up_lower in E. apply contains_strip_by in E.
  now rewrite no_double_after_runs in E.
Qed.

Lemma startswith_char (a : ascii) (s : str) :
  startswith [a] s = match s with c :: _ => Ascii.eqb a c | [] => false end.
Proof. destruct s as [|c s]; simpl; [reflexivity | apply andb_true_r]. Qed.

Lemma underscore_eqb (c : ascii) : Ascii.eqb underscore c = is_underscore c.
Proof. each_char c; reflexivity. Qed.

Lemma clean_up_ends (c : str) :
  startswith [underscore] (clean_up c) = false
  /\ endswith (clean_up c) [underscore] = false.
Proof.
  rewrite clean_up_lower. unfold strip_underscores, endswith.
  set (t := sub_underscore_runs (sub_nonword (lower c))).
  destruct (strip_by_ends is_underscore t) as [H1 H2].
  change (rev [underscore]) with [underscore].
  rewrite !startswith_char. split.
  - destruct (strip_by is_underscore t); [reflexivity|].
    now rewrite underscore_eqb.
  - destruct (rev (strip_by is_underscore t)); [reflexivity|].
    now rewrite underscore_eqb.
Qed.

Lemma standardize_name_shape (col : str) : name_shape (standardize_column_name col).
Proof.
  unfold name_shape.
  unfold standardize_column_name.
  destruct (first_mapping mappings (lower (strip col))) as [v|] eqn:E.
  - apply first_mapping_In in E.
    assert (A : Forall (fun v => canonical v
                /\ contains double_underscore v = false
                /\ startswith [underscore] v = false
                /\ endswith v [underscore] = false) (map snd mappings)).
    { repeat constructor. }
    rewrite Forall_forall in A. exact (A v E).
  - split; [apply clean_up_canonical|].
    split; [apply clean_up_no_double|]. apply clean_up_ends.
Qed.

(** X4. Whatever the header, the normalised name is made of lower-case
    ASCII letters, digits and underscores only, holds no two underscores
    in a row, and neither starts nor ends with an underscore. *)
Theorem standardize_shape (col : str) :
  canonical (standardize_column_name col)
  /\ contains double_underscore (standardize_column_name col) = false
  /\ startswith [underscore] (standardize_column_name col) = false
  /\ endswith (standardize_column_name col) [underscore] = false.
Proof. exact (standardize_name_shape col). Qed.

Lemma lower_char_idem (c : ascii) : lower_char (lower_char c) = lower_char c.
Proof. each_char c; reflexivity. Qed.

Lemma lower_idem (s : str) : lower (lower s) = lower s.
Proof.
  unfold lower. rewrite map_map. apply map_ext. intros c. apply lower_char_idem.
Qed.

Lemma lower_char_space (c : ascii) : is_space (lower_char c) = is_space c.
Proof. each_char c; reflexivity. Qed.

Lemma lower_lstrip_space (s : str) :
  lower (lstrip_by is_space s) = lstrip_by is_space (lower s).
Proof.
  induction s as [|c s IH]; [reflexivity|].
  cbn [lstrip_by lower map]. rewrite lower_char_space.
  destruct (is_space c); [exact IH | reflexivity].
Qed.

Lemma lower_strip (s : str) : lower (strip s) = strip (lower s).
Proof.
  unfold strip, strip_by, lower.
  rewrite map_rev. fold (lower (lstrip_by is_space (rev (lstrip_by is_space s)))).
  rewrite lower_lstrip_space. unfold lower at 1. rewrite map_rev.
  fold (lower (lstrip_by is_space s)). now rewrite lower_lstrip_space.
Qed.

Lemma lstrip_by_app (p : ascii -> bool) (pre s : str) :
  Forall (fun c => p c = true) pre -> lstrip_by p (pre ++ s) = lstrip_by p s.
Proof.
  induction 1 as [|c pre Hc _ IH]; [reflexivity|].
  cbn [app lstrip_by]. now rewrite Hc.
Qed.

Lemma strip_by_app (p : ascii -> bool) (pre s post : str) :
  Forall (fun c => p c = true) pre -> Forall (fun c => p c = true) post ->
  strip_by p (pre ++ s ++ post) = strip_by p s.
Proof.
  intros Hpre Hpost. unfold strip_by.
  rewrite (lstrip_by_app p pre _ Hpre).
  destruct (lstrip_by_split p s) as [q [E F]].
  destruct (lstrip_by p s) as [|c u] eqn:Eu.
  - (* nothing of [s] is kept: the rest is stripped as well *)
    rewrite app_nil_r in E. subst q.
    assert (G : Forall (fun c => p c = true) (s ++ post)) by now apply Forall_app.
    assert (N : forall t, Forall (fun c => p c = true) t -> lstrip_by p t = []).
    { intros t Ht. rewrite <- (app_nil_r t). now rewrite lstrip_by_app. }
    now rewrite (N _ G).
  - pose proof (lstrip_by_head p s) as Hh. rewrite Eu in Hh.
    assert (E2 : lstrip_by p (s ++ post) = (c :: u) ++ post).
    { rewrite E at 1. rewrite <- app_assoc. rewrite (lstrip_by_app p q _ F).
      cbn [app lstrip_by]. now rewrite Hh. }
    rewrite E2, rev_app_distr.
    rewrite (lstrip_by_app p (rev post)); [reflexivity | now apply Forall_rev].
Qed.

(** X5. For a header of code points below 256, which is what [str]
    holds, the normalised name does not depend on the case of the letters
    nor on white space around the header.  (Beyond these code points the
    second part fails: the Kelvin sign is lower-cased to k, but replaced
    by an underscore when the header is cleaned up as it stands.) *)
Theorem standardize_ignores_case_and_margin (pre col post : str) :
  Forall (fun c => is_space c = true) pre ->
  Forall (fun c => is_space c = true) post ->
  standardize_column_name (pre ++ col ++ post) = standardize_column_name col
  /\ standardize_column_name (lower col) = standardize_column_name col.
Proof.
  intros Hpre Hpost. split.
  - unfold standardize_column_name, strip. now rewrite (strip_by_app _ _ _ _ Hpre Hpost).
  - unfold standardize_column_name.
    rewrite <- lower_strip, lower_idem.
    destruct (first_mapping mappings (lower (strip col))); [reflexivity|].
    rewrite (clean_up_lower (lower (strip col))), lower_idem.
    symmetry. apply clean_up_lower.
Qed.

Lemma standardize_ignores_case_and_margin_witness :
  standardize_column_name (lit "  " ++ lit "Height (cm)" ++ lit " ")
  = standardize_column_name (lit "Height (cm)")
  /\ standardize_column_name (lower (lit "Height (cm)"))
     = standardize_column_name (lit "Height (cm)").
Proof.
  apply (standardize_ignores_case_and_margin (lit "  ") (lit "Height (cm)") (lit " "));
    repeat constructor.
Defined.

Lemma canonical_not_contains (k c : str) :
  forallb is_alnum_char k = true ->
  contains k (lower c) = false -> contains k (lower (clean_up c)) = false.
Proof.
  intros Hk H. rewrite (canonical_lower _ (clean_up_canonical c)).
  destruct (contains k (clean_up c)) eqn:E; [|reflexivity].
  now rewrite (contains_clean_up k c Hk E) in H.
Qed.

(** X6. After normalisation the columns [process_lms_data] takes for age
    columns are exactly those whose header holds, in any case, one of
    [years], [age], [week], [month]; each of them is named [age_years],
    [age_weeks] or [age_months].  The rule for [skeletal age] is never
    reached: such a header holds [age] and becomes an age column. *)
Theorem age_columns_after_standardize (col : str) :
  (is_age_col (standardize_column_name col) = true <->
     contains (lit "years") (lower (strip col))
     || contains (lit "age") (lower (strip col))
     || contains (lit "week") (lower (strip col))
     || contains (lit "month") (lower (strip col)) = true)
  /\ (is_age_col (standardize_column_name col) = true ->
      In (standardize_column_name col)
         [lit "age_years"; lit "age_weeks"; lit "age_months"])
  /\ standardize_column_name col <> lit "skeletal_age".
Proof.
  unfold standardize_column_name.
  set (l := lower (strip col)).
  assert (WM : contains (lit "week/month") l = true -> contains (lit "week") l = true).
  { apply contains_trans. reflexivity. }
  assert (PY : contains (lit "(years)") l = true -> contains (lit "years") l = true).
  { apply contains_trans. reflexivity. }
  assert (SA : contains (lit "skeletal age") l = true -> contains (lit "age") l = true).
  { apply contains_trans. reflexivity. }
  unfold mappings. cbn [first_mapping].
  destruct (contains (lit "week/month") l) eqn:E1.
  { rewrite (WM eq_refl), !orb_true_r. cbn [orb].
    repeat split; try (intros _; right; left; reflexivity); try reflexivity.
    vm_compute; discriminate. }
  destruct (contains (lit "years") l) eqn:E2.
  { cbn [orb]. repeat split; try (intros _; left; reflexivity).
    vm_compute; discriminate. }
  destruct (contains (lit "age") l) eqn:E3.
  { cbn [orb]. repeat split; try (intros _; left; reflexivity).
    vm_compute; discriminate. }
  destruct (contains (lit "(years)") l) eqn:E4; [discriminate (PY eq_refl)|].
  destruct (contains (lit "week") l) eqn:E5.
  { cbn [orb]. repeat split; try (intros _; right; left; reflexivity).
    vm_compute; discriminate. }
  destruct (contains (lit "month") l) eqn:E6.
  { cbn [orb]. repeat split; try (intros _; right; right; left; reflexivity).
    vm_compute; discriminate. }
  destruct (contains (lit "skeletal age") l) eqn:E7; [discriminate (SA eq_refl)|].
  cbn [orb].
  assert (N : forall v, is_age_col v = false ->
              (is_age_col v = true <-> false = true)
              /\ (is_age_col v = true -> In v [lit "age_years"; lit "age_weeks"; lit "age_months"])).
  { intros v Hv. rewrite Hv. split; [reflexivity | discriminate]. }
  assert (SK : forall v, v = lit "height_inches" \/ v = lit "mature_height_pct"
                         \/ v = lit "reference" ->
               is_age_col v = false /\ v <> lit "skeletal_age").
  { intros v [-> | [-> | ->]]; split; try reflexivity; vm_compute; discriminate. }
  destruct (contains (lit "ht. (inches)") l) eqn:E8.
  { destruct (SK (lit "height_inches")) as [A B]; [tauto|].
    destruct (N _ A). repeat split; tauto. }
  destruct (contains (lit "mature height") l) eqn:E9.
  { destruct (SK (lit "mature_height_pct")) as [A B]; [tauto|].
    destruct (N _ A). repeat split; tauto. }
  destruct (contains (lit "chart") l) eqn:E10.
  { destruct (SK (lit "reference")) as [A B]; [tauto|].
    destruct (N _ A). repeat split; tauto. }
  assert (A : is_age_col (clean_up (strip col)) = false).
  { unfold is_age_col. fold l in E3, E5, E6.
    rewrite !canonical_not_contains; auto. }
  destruct (N _ A) as [N1 N2]. split; [exact N1|]. split; [exact N2|].
  intros H.
  assert (C : contains (lit "age") (lower (clean_up (strip col))) = true).
  { rewrite H. reflexivity. }
  rewrite canonical_not_contains in C; [discriminate | reflexivity | exact E3].
Qed.

(* ================================================================== *)
(** * The row dicts of process_lms_data *)
(* ================================================================== *)

Lemma py_mul_number (a b c : cell) : py_mul a b = Ok c -> is_number c = true.
Proof.
  destruct a, b; simpl; try discriminate;
    repeat match goal with
    | |- (x <- ?r ;; _) = _ -> _ => destruct r; cbn [bind]
    end; intros H; try discriminate H; now injection H as <-.
Qed.

Lemma py_truediv_number (a b c : cell) : py_truediv a b = Ok c -> is_number c = true.
Proof.
  destruct a, b; simpl; try discriminate;
    repeat match goal with
    | |- (x <- ?r ;; _) = _ -> _ => destruct r; cbn [bind]
    end; intros H; try discriminate H; now injection H as <-.
Qed.

Lemma or_none_ok (v : cell) : field_ok (or_none v).
Proof. unfold or_none. destruct (isna v) eqn:E; simpl; auto. Qed.

Lemma or_previous_ok (v : cell) (previous : option cell) :
  field_ok previous -> field_ok (or_previous v previous).
Proof. unfold or_previous. destruct (isna v) eqn:E; simpl; auto. Qed.

Section RowDicts.

Variable source_name : str.
Variable measurement_type : str.
Variable gender : option str.
Variable age_range : option str.
Variable cols : list str.

Local Abbreviation well_formed :=
  (well_formed_row source_name measurement_type gender age_range).

Lemma new_result_row_well_formed :
  well_formed (new_result_row source_name measurement_type gender age_range).
Proof.
  unfold well_formed_row, new_result_row, ages_unset; simpl. tauto.
Qed.

Lemma extract_age_well_formed (age_val : cell) (r r' : result_row) :
  extract_age age_val r = Ok r' -> well_formed r -> well_formed r'.
Proof.
  unfold extract_age. intros H W.
  assert (S : forall y w m, is_number y = true -> is_number w = true ->
                is_number m = true -> well_formed (set_ages r y w m)).
  { intros y w m Hy Hw Hm. unfold well_formed_row in *. simpl.
    repeat split; try tauto. right. now exists y, w, m. }
  destruct (is_number age_val) eqn:Hn; [|now injection H as <-].
  destruct (py_lt age_val 2).
  - apply bind_ok in H as [w [Hw H]]. apply bind_ok in H as [m [Hm H]].
    injection H as <-. apply S; eauto using py_mul_number.
  - destruct (py_lt age_val 52).
    + apply bind_ok in H as [y [Hy H]]. apply bind_ok in H as [m [Hm H]].
      injection H as <-. apply S; eauto using py_truediv_number.
    + apply bind_ok in H as [y [Hy H]]. apply bind_ok in H as [w [Hw H]].
      injection H as <-. apply S; eauto using py_truediv_number, py_mul_number.
Qed.

Lemma generic_column_well_formed (row : list cell) (r r' : result_row) (col : str) :
  generic_column measurement_type cols row r col = Ok r' ->
  well_formed r -> well_formed r'.
Proof.
  unfold generic_column. intros H W.
  repeat match type of H with
  | (if ?c then _ else _) = _ => destruct c
  | (x <- ?a ;; _) = _ => destruct a; [cbn [bind] in H | discriminate H]
  end; injection H as <-; try exact W;
  unfold well_formed_row in *; simpl; repeat split; try tauto; apply or_none_ok.
Qed.

Lemma gender_column_well_formed (prefix : str) (row : list cell)
    (r r' : result_row) (col : str) :
  gender_column cols prefix row r col = Ok r' -> well_formed r -> well_formed r'.
Proof.
  unfold gender_column. intros H W.
  repeat match type of H with
  | (if ?c then _ else _) = _ => destruct c
  | (x <- ?a ;; _) = _ => destruct a; [cbn [bind] in H | discriminate H]
  end; injection H as <-; try exact W;
  unfold well_formed_row in *; simpl; repeat split; try tauto;
  apply or_previous_ok; tauto.
Qed.

Lemma scan_row_well_formed (age_val : cell) (row : list cell) (r : result_row) :
  scan_row source_name measurement_type gender age_range cols age_val row = Ok r ->
  well_formed r.
Proof.
  unfold scan_row. intros H.
  apply bind_ok in H as [r1 [H1 H]]. apply bind_ok in H as [r2 [H2 H]].
  assert (W1 : well_formed r1).
  { exact (extract_age_well_formed _ _ _ H1 new_result_row_well_formed). }
  assert (W2 : well_formed r2).
  { unfold generic_strategy in H2.
    apply (for_each_invariant well_formed _ _
             (fun st x st' _ Hb => generic_column_well_formed row st st' x Hb) _ _ H2 W1). }
  unfold gender_strategy in H.
  case_eq gender; [intros g Eg | intros Eg]; rewrite Eg in H; rewrite <- Eg;
    [|now injection H as <-].
  destruct (truthy (Some g)); [|now injection H as <-].
  apply (for_each_invariant well_formed _ _
           (fun st x st' _ Hb =>
              gender_column_well_formed (gender_prefix g) row st st' x Hb) _ _ H W2).
Qed.

Lemma collect_rows_well_formed (age_col : str) (rws : list (list cell))
    (result_rows : list result_row) :
  collect_rows source_name measurement_type gender age_range cols age_col rws
    = Ok result_rows ->
  (List.length result_rows <= List.length rws)%nat
  /\ Forall (fun r => well_formed r /\ has_M r) result_rows.
Proof.
  revert result_rows; induction rws as [|row rest IH]; intros result_rows H.
  - injection H as <-. split; [apply Nat.le_refl | constructor].
  - cbn [collect_rows] in H.
    apply bind_ok in H as [emitted [He H]]. apply bind_ok in H as [later [Hl H]].
    destruct (IH later Hl) as [IH1 IH2]. injection H as <-.
    destruct emitted as [r|]; cbn [List.length]; [|split; [lia | exact IH2]].
    split; [lia|]. constructor; [|exact IH2].
    apply process_row_emits in He as [age_val [_ [_ [Hscan HM]]]].
    pose proof (scan_row_well_formed _ _ _ Hscan) as W. split; [exact W|].
    destruct W as [_ [_ [_ [_ [_ [_ [WM _]]]]]]].
    destruct (val_M r) as [v|] eqn:E; [|now elim HM]. now exists v.
Qed.

End RowDicts.

Lemma process_lms_data_rows (df : DataFrame) (source_name measurement_type : str)
    (gender age_range : option str) (result_rows : list result_row) :
  process_lms_data df source_name measurement_type gender age_range
    = Ok (Some result_rows) ->
  result_rows <> []
  /\ (List.length result_rows <= List.length (rows df))%nat
  /\ Forall (fun r => well_formed_row source_name measurement_type gender age_range r
                      /\ has_M r) result_rows.
Proof.
  unfold process_lms_data. intros H.
  destruct (filter is_age_col (columns df)) as [|age_col others]; [discriminate H|].
  apply bind_ok in H as [rs [Hc H]].
  destruct rs as [|r rs]; [discriminate H|]. injection H as <-.
  split; [discriminate|].
  exact (collect_rows_well_formed _ _ _ _ _ _ _ _ Hc).
Qed.

(** X7. The rows [process_lms_data] returns: there is at least one and
    at most one per row of the sheet; each carries the source, the
    measurement, the gender and the age range it was called with, holds
    a value for M that is not missing, holds for L and S a value that is
    not missing or none, and has its three ages all set to numbers or
    all unset. *)
Theorem lms_rows_well_formed (df : DataFrame) (source_name measurement_type : str)
    (gender age_range : option str) (result_rows : list result_row) :
  process_lms_data df source_name measurement_type gender age_range
    = Ok (Some result_rows) ->
  result_rows <> []
  /\ (List.length result_rows <= List.length (rows df))%nat
  /\ Forall (fun r => well_formed_row source_name measurement_type gender age_range r
                      /\ has_M r) result_rows.
Proof. exact (process_lms_data_rows df source_name measurement_type gender age_range
                result_rows). Qed.

Lemma lms_rows_well_formed_witness :
  exists result_rows,
    result_rows <> []
    /\ (List.length result_rows <= 1)%nat
    /\ Forall (fun r => well_formed_row (lit "uk90") (lit "bmi") (Some (lit "male")) None r
                        /\ has_M r) result_rows.
Proof.
  eexists.
  apply (lms_rows_well_formed {| columns := lms_cols; rows := [lms_row] |}
           (lit "uk90") (lit "bmi") (Some (lit "male")) None).
  vm_compute. reflexivity.
Defined.

(* ================================================================== *)
(** * Sheets whose age label is not unique *)
(* ================================================================== *)

Lemma length_labelled (cols : list str) (row : list cell) (c : str) :
  List.length row = List.length cols ->
  List.length (labelled cols row c)
  = List.length (filter (fun x => str_eqb x c) cols).
Proof. apply length_cells_where. Qed.

Lemma duplicated_age_label_raises (df : DataFrame) (source_name measurement_type : str)
    (gender age_range : option str) (age_col : str) (others : list str)
    (row : list cell) (more : list (list cell)) :
  filter is_age_col (columns df) = age_col :: others ->
  duplicated (columns df) age_col ->
  rows df = row :: more ->
  List.length row = List.length (columns df) ->
  process_lms_data df source_name measurement_type gender age_range = Err ValueError.
Proof.
  intros Hage Hdup Hrows Hlen. unfold process_lms_data.
  rewrite Hage, Hrows. cbn [collect_rows]. unfold process_row, row_get.
  pose proof (length_labelled (columns df) row age_col Hlen) as L.
  unfold duplicated in Hdup.
  destruct (labelled (columns df) row age_col) as [|v [|w t]]; simpl in L; try lia.
  reflexivity.
Qed.

Section Sheets.

Variable output_path : str -> str.
Variable writable : str -> bool.
Variable source_name : str.
Variable file : file_ref.

(** X8. A sheet in which two headers are normalised to the label of the
    age column is skipped as a whole: reading the age of its first row
    raises, so the sheet adds no rows and is not saved as a raw CSV
    either. *)
Theorem sheet_with_duplicated_age_label_skipped
    (acc : run_state * list (list result_row)) (sheet_name : str) (df : DataFrame)
    (age_col : str) (others : list str) (row : list cell) (more : list (list cell)) :
  filter is_age_col (map standardize_column_name (columns df)) = age_col :: others ->
  duplicated (map standardize_column_name (columns df)) age_col ->
  rows df = row :: more ->
  List.length row = List.length (columns df) ->
  ProcessData.process_sheet output_path writable source_name file acc
    (sheet_name, Some df) = acc.
Proof.
  intros Hage Hdup Hrows Hlen. unfold ProcessData.process_sheet.
  destruct acc as [st results]. cbn [snd fst].
  destruct (df_empty df); [reflexivity|].
  rewrite (duplicated_age_label_raises (standardize_columns df) _ _ _ _
             age_col others row more); try assumption; try reflexivity.
  cbn [standardize_columns columns]. now rewrite length_map.
Qed.

End Sheets.

Lemma sheet_with_duplicated_age_label_skipped_witness :
  ProcessData.process_sheet (fun name => lit "raw_data/" ++ name) (fun _ => true)
    (lit "uk90")
    {| file_path := lit "temp_repo/uk90/bmi.xlsx"; file_stem := lit "bmi";
       file_name := lit "bmi.xlsx" |}
    (ProcessData.initial_state, []) (lit "Sheet1", Some two_age_headers)
  = (ProcessData.initial_state, []).
Proof.
  apply (sheet_with_duplicated_age_label_skipped _ _ _ _ _ _ two_age_headers
           (lit "age_years") [lit "age_years"] [CFloat 1; CFloat 1; CFloat 10] []).
  - reflexivity.
  - unfold duplicated. vm_compute. lia.
  - reflexivity.
  - reflexivity.
Defined.

(* ================================================================== *)
(** * process_data.py : what the file name decides *)
(* ================================================================== *)

(** X9. A file whose name holds [weight] is filed as a height file, for
    [ht] occurs in [weight]; only a name with [wt] and none of [height],
    [ht], [len] is filed as weight.  A file whose name holds [female] is
    filed as male, for [male] occurs in [female]; only a name with
    [girl] and neither [boy] nor [male] is filed as female. *)
Theorem weight_and_female_files_misfiled (filename : str) :
  (contains (lit "weight") filename = true ->
   file_measurement filename = Some (lit "height"))
  /\ (file_measurement filename = Some (lit "weight") <->
      contains (lit "wt") filename = true
      /\ contains (lit "height") filename = false
      /\ contains (lit "ht") filename = false
      /\ contains (lit "len") filename = false)
  /\ (contains (lit "female") filename = true ->
      file_gender filename = Some (lit "male"))
  /\ (file_gender filename = Some (lit "female") <->
      contains (lit "girl") filename = true
      /\ contains (lit "boy") filename = false
      /\ contains (lit "male") filename = false).
Proof.
  assert (HT : contains (lit "weight") filename = true ->
               contains (lit "ht") filename = true).
  { apply contains_trans. reflexivity. }
  assert (ML : contains (lit "female") filename = true ->
               contains (lit "male") filename = true).
  { apply contains_trans. reflexivity. }
  unfold file_measurement, file_gender.
  split; [|split; [|split]].
  - intros H. now rewrite (HT H), orb_true_r.
  - destruct (contains (lit "weight") filename) eqn:E4;
      [rewrite (HT eq_refl) in * |];
      destruct (contains (lit "height") filename);
      destruct (contains (lit "ht") filename);
      destruct (contains (lit "len") filename);
      destruct (contains (lit "wt") filename);
      cbn [orb];
      (split; [intros H | intros [H1 [H2 [H3 H4]]]]);
      try discriminate; try reflexivity; try (repeat split; reflexivity);
      destruct (contains (lit "bmi") filename); try discriminate;
      destruct (contains (lit "hc") filename || contains (lit "head") filename
                || contains (lit "ofc") filename); discriminate.
  - intros H. now rewrite (ML H), orb_true_r.
  - destruct (contains (lit "female") filename) eqn:E8;
      [rewrite (ML eq_refl) in * |];
      destruct (contains (lit "boy") filename);
      destruct (contains (lit "male") filename);
      destruct (contains (lit "girl") filename);
      cbn [orb];
      (split; [intros H | intros [H1 [H2 H3]]]);
      try discriminate; try reflexivity; repeat split; reflexivity.
Qed.

(* ================================================================== *)
(** * process_data.py : the files written and the metadata *)
(* ================================================================== *)

Lemma some_eq {A : Type} (a b : A) : Some a = Some b -> a = b.
Proof. intros H. now injection H. Qed.

Lemma appended_refl (st : run_state) : appended st st [] [].
Proof.
  unfold appended. rewrite !app_nil_r. repeat split; constructor.
Qed.

Lemma appended_trans (st1 st2 st3 : run_state) (w1 w2 : list (str * csv_content))
    (e1 e2 : list file_entry) :
  appended st1 st2 w1 e1 -> appended st2 st3 w2 e2 ->
  appended st1 st3 (w1 ++ w2) (e1 ++ e2).
Proof.
  intros [A1 [A2 [A3 A4]]] [B1 [B2 [B3 B4]]]. unfold appended.
  rewrite B1, B2, A1, A2, !app_assoc. repeat split.
  - now apply Forall2_app.
  - apply Forall_app. now split.
Qed.

Lemma appended_record (st : run_state) (output : str) (content : csv_content)
    (entry : file_entry) :
  describes entry (output, content) -> content_ok (output, content) ->
  appended st (record_file st output content entry) [(output, content)] [entry].
Proof.
  intros D C. unfold appended, record_file. cbn [written meta_files].
  split; [reflexivity|]. split; [reflexivity|]. split.
  - constructor; [exact D | constructor].
  - constructor; [exact C | constructor].
Qed.

Lemma standardize_columns_shape (df : DataFrame) :
  Forall name_shape (columns (standardize_columns df)).
Proof.
  cbn [standardize_columns columns]. apply Forall_forall. intros y Hy.
  apply in_map_iff in Hy as [col [<- _]]. apply standardize_name_shape.
Qed.

Lemma concat_nonempty {A : Type} (ls : list (list A)) :
  ls <> [] -> Forall (fun l => l <> []) ls -> List.concat ls <> [].
Proof.
  destruct ls as [|l ls]; [easy|]. intros _ H. inversion H as [|? ? Hl _]; subst.
  destruct l; [easy|]. discriminate.
Qed.

Section Files.

Variable output_path : str -> str.
Variable writable : str -> bool.

Section OneSource.

Variable source_name : str.

Local Abbreviation process_sheet :=
  (ProcessData.process_sheet output_path writable source_name).
Local Abbreviation process_excel_file :=
  (ProcessData.process_excel_file output_path writable source_name).
Local Abbreviation process_csv_file :=
  (ProcessData.process_csv_file output_path writable source_name).
Local Abbreviation process_directory :=
  (ProcessData.process_directory output_path writable source_name).

Lemma process_sheet_step (file : file_ref) (st : run_state)
    (results : list (list result_row)) (sheet : str * option DataFrame) :
  exists w e,
    appended st (fst (process_sheet file (st, results) sheet)) w e
    /\ Forall is_frame_file w
    /\ meta_sources (fst (process_sheet file (st, results) sheet)) = meta_sources st
    /\ exists added,
         snd (process_sheet file (st, results) sheet) = results ++ added
         /\ Forall (sheet_rows_ok source_name file) added.
Proof.
  assert (Same : exists w e, appended st st w e /\ Forall is_frame_file w
                   /\ meta_sources st = meta_sources st
                   /\ exists added, results = results ++ added
                        /\ Forall (sheet_rows_ok source_name file) added).
  { exists [], []. split; [apply appended_refl|]. split; [constructor|].
    split; [reflexivity|]. exists []. now rewrite app_nil_r. }
  unfold ProcessData.process_sheet. destruct sheet as [name [df|]]; cbn [snd fst];
    [|exact Same].
  destruct (df_empty df); [exact Same|].
  destruct (process_lms_data _ _ _ _ _) as [[processed|]|] eqn:E; [| |exact Same].
  - cbn [fst snd]. exists [], []. split; [apply appended_refl|].
    split; [constructor|]. split; [reflexivity|].
    exists [processed]. split; [reflexivity|]. constructor; [|constructor].
    destruct (process_lms_data_rows _ _ _ _ _ _ E) as [N [_ F]]. now split.
  - destruct (writable _); [|exact Same]. cbn [fst snd].
    eexists _, _. split; [apply appended_record|].
    + split; [reflexivity | exact I].
    + apply standardize_columns_shape.
    + split; [repeat constructor; now eexists|]. split; [reflexivity|].
      exists []. now rewrite app_nil_r.
Qed.

Lemma process_sheets_fold (file : file_ref)
    (sheets : list (str * option DataFrame)) (st : run_state)
    (results : list (list result_row)) :
  exists w e,
    appended st (fst (fold_left (process_sheet file) sheets (st, results))) w e
    /\ Forall is_frame_file w
    /\ meta_sources (fst (fold_left (process_sheet file) sheets (st, results)))
       = meta_sources st
    /\ exists added,
         snd (fold_left (process_sheet file) sheets (st, results)) = results ++ added
         /\ Forall (sheet_rows_ok source_name file) added.
Proof.
  revert st results; induction sheets as [|sheet sheets IH]; intros st results.
  - cbn [fold_left fst snd]. exists [], []. split; [apply appended_refl|].
    split; [constructor|]. split; [reflexivity|]. exists []. now rewrite app_nil_r.
  - cbn [fold_left].
    destruct (process_sheet_step file st results sheet)
      as [w1 [e1 [A1 [F1 [S1 [added1 [R1 G1]]]]]]].
    destruct (process_sheet file (st, results) sheet) as [st1 results1].
    cbn [fst snd] in *.
    destruct (IH st1 results1) as [w2 [e2 [A2 [F2 [S2 [added2 [R2 G2]]]]]]].
    exists (w1 ++ w2), (e1 ++ e2).
    split; [exact (appended_trans _ _ _ _ _ _ _ A1 A2)|].
    split; [apply Forall_app; now split|].
    split; [congruence|].
    exists (added1 ++ added2). split.
    + rewrite R2, R1. now rewrite app_assoc.
    + apply Forall_app. now split.
Qed.

(** X10. [process_excel_file] returns True exactly when it has written
    the processed file of the workbook.  That file is written last, after
    the raw CSV files of the sheets that gave no LMS rows; it is not
    empty, and each of its rows holds a value for M and carries the
    source name and the measurement, gender and age range read off the
    file name.  When False is returned, nothing but raw CSV files was
    written. *)
Theorem processed_file_rows (file : file_ref) (book : workbook) (st : run_state) :
  exists raws,
    Forall is_frame_file raws
    /\ (fst (process_excel_file file book st) = false ->
        written (snd (process_excel_file file book st)) = written st ++ raws)
    /\ (fst (process_excel_file file book st) = true ->
        exists result_rows,
          written (snd (process_excel_file file book st))
          = written st ++ raws
            ++ [(output_path (source_name ++ lit "_" ++ file_stem file
                              ++ lit "_processed.csv"),
                 LmsCsv result_rows)]
          /\ sheet_rows_ok source_name file result_rows).
Proof.
  unfold ProcessData.process_excel_file. destruct book as [sheets|].
  2:{ exists []. split; [constructor|]. cbn [fst snd].
      split; [now rewrite app_nil_r | discriminate]. }
  destruct (process_sheets_fold file sheets st [])
    as [w [e [[A _] [F [_ [added [R G]]]]]]].
  destruct (fold_left _ sheets (st, [])) as [st1 results]. cbn [fst snd] in *.
  subst results. cbn [app].
  exists w. split; [exact F|].
  destruct added as [|rs added].
  { cbn [fst snd]. split; [easy | discriminate]. }
  destruct (writable _); cbn [fst snd written record_file].
  - split; [discriminate|]. intros _. eexists. split.
    + rewrite A, <- app_assoc. reflexivity.
    + split.
      * apply concat_nonempty; [discriminate|].
        revert G. apply Forall_impl. now intros l [N _].
      * apply Forall_forall. intros r Hr.
        apply in_concat in Hr as [l [Hl Hr]].
        rewrite Forall_forall in G. destruct (G l Hl) as [_ Fl].
        rewrite Forall_forall in Fl. now apply Fl.
  - split; [easy | discriminate].
Qed.

Lemma process_excel_file_appended (file : file_ref) (book : workbook) (st : run_state) :
  exists w e,
    appended st (snd (process_excel_file file book st)) w e
    /\ meta_sources (snd (process_excel_file file book st)) = meta_sources st.
Proof.
  unfold ProcessData.process_excel_file. destruct book as [sheets|].
  2:{ exists [], []. split; [apply appended_refl | reflexivity]. }
  destruct (process_sheets_fold file sheets st [])
    as [w [e [A [_ [S [added [R G]]]]]]].
  destruct (fold_left _ sheets (st, [])) as [st1 results]. cbn [fst snd] in *.
  subst results. cbn [app].
  destruct added as [|rs added]; [now exists w, e|].
  destruct (writable _); cbn [snd]; [|now exists w, e].
  eexists _, _. split; [|exact S].
  eapply appended_trans; [exact A|]. apply appended_record.
  - split; [reflexivity|]. reflexivity.
  - cbn [content_ok snd]. split.
    + apply concat_nonempty; [discriminate|].
      revert G. apply Forall_impl. now intros l [N _].
    + apply Forall_forall. intros r Hr.
      apply in_concat in Hr as [l [Hl Hr]].
      rewrite Forall_forall in G. destruct (G l Hl) as [_ Fl].
      rewrite Forall_forall in Fl. now apply Fl.
Qed.

Lemma process_csv_file_appended (file : file_ref) (csv : option DataFrame)
    (st : run_state) :
  exists w e,
    appended st (snd (process_csv_file file csv st)) w e
    /\ meta_sources (snd (process_csv_file file csv st)) = meta_sources st.
Proof.
  unfold ProcessData.process_csv_file.
  destruct csv as [df|]; [|exists [], []; split; [apply appended_refl | reflexivity]].
  destruct (writable _); cbn [snd];
    [|exists [], []; split; [apply appended_refl | reflexivity]].
  eexists _, _. split; [|reflexivity]. apply appended_record.
  - split; reflexivity.
  - apply standardize_columns_shape.
Qed.

Lemma fold_appended {A : Type} (f : run_state -> A -> run_state) (xs : list A) :
  (forall st x, exists w e, appended st (f st x) w e
                            /\ meta_sources (f st x) = meta_sources st) ->
  forall st, exists w e, appended st (fold_left f xs st) w e
                         /\ meta_sources (fold_left f xs st) = meta_sources st.
Proof.
  intros Hf. induction xs as [|x xs IH]; intros st; cbn [fold_left].
  - exists [], []. split; [apply appended_refl | reflexivity].
  - destruct (Hf st x) as [w1 [e1 [A1 S1]]].
    destruct (IH (f st x)) as [w2 [e2 [A2 S2]]].
    exists (w1 ++ w2), (e1 ++ e2).
    split; [exact (appended_trans _ _ _ _ _ _ _ A1 A2) | congruence].
Qed.

Lemma process_directory_appended (directory : str) (found : ProcessData.listing)
    (st : run_state) :
  exists w e,
    appended st (process_directory directory found st) w e
    /\ meta_sources (process_directory directory found st)
       = meta_sources st
         ++ match found with Some _ => [(source_name, directory)] | None => [] end.
Proof.
  unfold ProcessData.process_directory.
  destruct found as [[excel_files csv_files]|].
  2:{ exists [], []. split; [apply appended_refl | now rewrite app_nil_r]. }
  set (st0 := {| written := written st;
                 meta_sources := meta_sources st ++ [(source_name, directory)];
                 meta_files := meta_files st |}).
  destruct (fold_appended
              (fun st f => snd (process_excel_file (fst f) (snd f) st)) excel_files
              (fun st x => process_excel_file_appended (fst x) (snd x) st) st0)
    as [w1 [e1 [A1 S1]]].
  destruct (fold_appended
              (fun st f => snd (process_csv_file (fst f) (snd f) st)) csv_files
              (fun st x => process_csv_file_appended (fst x) (snd x) st)
              (fold_left (fun st f => snd (process_excel_file (fst f) (snd f) st))
                         excel_files st0))
    as [w2 [e2 [A2 S2]]].
  exists (w1 ++ w2), (e1 ++ e2). split.
  - apply (appended_trans st _ _ _ _ _ _ A1 A2).
  - rewrite S2, S1. reflexivity.
Qed.

End OneSource.

Lemma main_fold (found : str -> ProcessData.listing) (srcs : list (str * str))
    (st : run_state) :
  let step := fun st source =>
    match found (snd source) with
    | None => st
    | Some _ =>
        ProcessData.process_directory output_path writable (fst source) (snd source)
          (found (snd source)) st
    end in
  exists w e,
    appended st (fold_left step srcs st) w e
    /\ meta_sources (fold_left step srcs st)
       = meta_sources st ++ filter (found_some found) srcs.
Proof.
  intros step. revert st; induction srcs as [|[name directory] srcs IH]; intros st.
  - exists [], []. split; [apply appended_refl | now rewrite app_nil_r].
  - cbn [fold_left filter]. destruct (IH (step st (name, directory))) as [w2 [e2 [A2 S2]]].
    assert (H1 : exists w e, appended st (step st (name, directory)) w e
                   /\ meta_sources (step st (name, directory))
                      = meta_sources st
                        ++ (if found_some found (name, directory)
                            then [(name, directory)] else [])).
    { unfold step, found_some. cbn [fst snd].
      destruct (found directory) as [l|] eqn:E.
      - exact (process_directory_appended name directory (Some l) st).
      - exists [], []. split; [apply appended_refl | now rewrite app_nil_r]. }
    destruct H1 as [w1 [e1 [A1 S1]]].
    exists (w1 ++ w2), (e1 ++ e2).
    split; [exact (appended_trans _ _ _ _ _ _ _ A1 A2)|].
    rewrite S2, S1, <- app_assoc.
    now destruct (found_some found (name, directory)).
Qed.

(** X11. The metadata [main] dumps lists exactly the files the run has
    written, in the order they were written: each entry names the path
    of its file, and an entry with a row count gives the number of rows
    written to it.  The sources listed are those of the table whose
    directory exists, in the order of the table. *)
Theorem metadata_lists_written_files (found : str -> ProcessData.listing)
    (st : run_state) :
  ProcessData.main output_path writable true found = Some st ->
  Forall2 describes (meta_files st) (written st)
  /\ meta_sources st = filter (found_some found) ProcessData.sources.
Proof.
  destruct (main_fold found ProcessData.sources ProcessData.initial_state)
    as [w [e [[A1 [A2 [A3 _]]] S]]].
  cbv zeta in A1, A2, S.
  unfold ProcessData.main. cbn [negb]. intros H. apply some_eq in H.
  rewrite H in A1, A2, S. rewrite A1, A2, S. now split.
Qed.

(** X12. Every file [main] writes has normalised headers when it is a
    frame saved as read (a raw sheet or a CSV file), and is a table that
    is not empty and holds a value for M in every row when it is a
    processed LMS file. *)
Theorem written_files_content (found : str -> ProcessData.listing)
    (st : run_state) :
  ProcessData.main output_path writable true found = Some st ->
  Forall content_ok (written st).
Proof.
  destruct (main_fold found ProcessData.sources ProcessData.initial_state)
    as [w [e [[A1 [_ [_ A4]]] _]]].
  cbv zeta in A1.
  unfold ProcessData.main. cbn [negb]. intros H. apply some_eq in H.
  rewrite H in A1. now rewrite A1.
Qed.

End Files.

Lemma metadata_lists_written_files_witness :
  exists st,
    ProcessData.main (fun name => lit "raw_data/" ++ name) (fun _ => true) true
      sample_found = Some st
    /\ Forall2 describes (meta_files st) (written st)
    /\ meta_sources st = filter (found_some sample_found) ProcessData.sources.
Proof.
  eexists. split; [reflexivity|].
  apply (metadata_lists_written_files (fun name => lit "raw_data/" ++ name)
           (fun _ => true) sample_found).
  reflexivity.
Defined.

Lemma written_files_content_witness :
  exists st,
    ProcessData.main (fun name => lit "raw_data/" ++ name) (fun _ => true) true
      sample_found = Some st
    /\ Forall content_ok (written st).
Proof.
  eexists. split; [reflexivity|].
  apply (written_files_content (fun name => lit "raw_data/" ++ name)
           (fun _ => true) sample_found).
  reflexivity.
Defined.

(* ================================================================== *)
(** * 02_standardize_data.py : the tables of a WHO file *)
(* ================================================================== *)

Lemma has_column_In (df : DataFrame) (col : str) :
  has_column df col = true <-> In col (columns df).
Proof.
  unfold has_column. rewrite existsb_exists. split.
  - intros [c [Hc E]]. apply str_eqb_eq in E. now subst.
  - intros H. exists col. split; [exact H | apply str_eqb_refl].
Qed.

Lemma filter_label_head (cols : list str) (x : str) :
  In x cols -> exists others, filter (fun c => str_eqb c x) cols = x :: others.
Proof.
  induction cols as [|a cols IH]; [easy|]. intros H. cbn [filter].
  destruct (str_eqb a x) eqn:E.
  - apply str_eqb_eq in E. subst. now eexists.
  - apply IH. destruct H as [->|H]; [|exact H]. now rewrite str_eqb_refl in E.
Qed.

(** The x-axis column comes first. *)
Lemma x_first_head (df : DataFrame) (x : str) :
  has_column df x = true -> exists others, columns (x_first df x) = x :: others.
Proof.
  intros H. apply has_column_In in H.
  unfold x_first, select_columns. cbn [columns flat_map].
  destruct (filter_label_head _ _ H) as [others ->]. now eexists.
Qed.

Lemma x_first_rows (df : DataFrame) (x : str) :
  List.length (rows (x_first df x)) = List.length (rows df).
Proof. unfold x_first, select_columns. cbn [rows]. apply length_map. Qed.

Lemma x_first_labels (df : DataFrame) (x c : str) :
  In c (columns (x_first df x)) -> In c (columns df).
Proof.
  unfold x_first, select_columns. cbn [columns]. intros H.
  apply in_flat_map in H as [l [_ H]]. now apply filter_In in H.
Qed.

Lemma map_result_length {A B : Type} (f : A -> result B) (xs : list A) (ys : list B) :
  map_result f xs = Ok ys -> List.length ys = List.length xs.
Proof.
  revert ys; induction xs as [|x xs IH]; intros ys H; simpl in H.
  - now injection H as <-.
  - apply bind_ok in H as [y [_ H]]. apply bind_ok in H as [ys' [H' H]].
    injection H as <-. simpl. now rewrite (IH ys' H').
Qed.

Lemma zip_with_length {A B C : Type} (f : A -> B -> C) (xs : list A) (ys : list B) :
  List.length ys = List.length xs ->
  List.length (zip_with f xs ys) = List.length xs.
Proof.
  revert ys; induction xs as [|x xs IH]; intros [|y ys] H; simpl in *;
    try reflexivity; try discriminate. now rewrite IH; [|injection H].
Qed.

Lemma set_column_rows (df : DataFrame) (col : str) (values : list cell) :
  List.length values = List.length (rows df) ->
  List.length (rows (set_column df col values)) = List.length (rows df).
Proof.
  intros H. unfold set_column.
  destruct (has_column df col); cbn [rows]; now apply zip_with_length.
Qed.

Lemma set_column_has (df : DataFrame) (col : str) (values : list cell) :
  has_column (set_column df col values) col = true.
Proof.
  unfold set_column. destruct (has_column df col) eqn:E.
  - exact E.
  - apply has_column_In. cbn [columns]. apply in_or_app. right. now left.
Qed.

Lemma drop_column_has (df : DataFrame) (col c : str) :
  has_column (drop_column df col) c = true <-> has_column df c = true /\ c <> col.
Proof.
  rewrite !has_column_In. unfold drop_column. cbn [columns]. apply not_label_In.
Qed.

Lemma who_gender_values (filename gender : str) :
  who_gender filename = Some gender -> In gender [lit "boys"; lit "girls"].
Proof.
  unfold who_gender.
  destruct (_ || _); [intros H; injection H as <-; now left|].
  destruct (_ || _); [intros H; injection H as <-; right; now left | discriminate].
Qed.

Lemma is_length_based_eq (measurement : str) :
  is_length_based measurement = true <->
  measurement = lit "wfl" \/ measurement = lit "wfh".
Proof.
  unfold is_length_based. now rewrite orb_true_iff, !str_eqb_eq.
Qed.

Lemma process_who_file_accepted (stem : str) (csv : option DataFrame)
    (measurement gender : str) (out : DataFrame) :
  process_who_file stem csv = Ok (Some (measurement, gender, out)) ->
  exists df others x,
    csv = Some df
    /\ In measurement (map snd WHO_MEASUREMENT_MAP)
    /\ In gender [lit "boys"; lit "girls"]
    /\ List.length (rows out) = List.length (rows df)
    /\ columns out = x :: others
    /\ (if is_length_based measurement
        then x = lit "Length" \/ x = lit "Height"
        else x = lit "Month" /\ ~ In (lit "Week") (columns out)).
Proof.
  unfold process_who_file, measurement_of. intros H.
  destruct (first_mapping WHO_MEASUREMENT_MAP (lower stem)) as [m|] eqn:Em;
    [|discriminate H].
  destruct (who_gender (lower stem)) as [g|] eqn:Eg; [|discriminate H].
  destruct csv as [df|]; [|discriminate H].
  pose proof (first_mapping_In _ _ _ Em) as Hm.
  pose proof (who_gender_values _ _ Eg) as Hg.
  exists df.
  destruct (is_length_based m) eqn:Elb.
  - destruct (has_column df (lit "Length")) eqn:E1.
    + injection H as <- <- <-. destruct (x_first_head _ _ E1) as [others Ho].
      exists others, (lit "Length"). rewrite Elb, x_first_rows. tauto.
    + destruct (has_column df (lit "Height")) eqn:E2; [|discriminate H].
      injection H as <- <- <-. destruct (x_first_head _ _ E2) as [others Ho].
      exists others, (lit "Height"). rewrite Elb, x_first_rows. tauto.
  - destruct (has_column df (lit "Week")) eqn:E1.
    + apply bind_ok in H as [months [Hw H]]. injection H as <- <- <-.
      set (df2 := drop_column (set_column df (lit "Month") months) (lit "Week")).
      assert (HM : has_column df2 (lit "Month") = true).
      { apply drop_column_has. split; [apply set_column_has|].
        vm_compute. discriminate. }
      destruct (x_first_head _ _ HM) as [others Ho].
      exists others, (lit "Month"). rewrite Elb, x_first_rows.
      repeat split; try assumption.
      * unfold df2, drop_column. cbn [rows]. rewrite length_map.
        apply set_column_rows. apply map_result_length in Hw. rewrite Hw.
        unfold column. apply length_map.
      * intros Hin. apply x_first_labels in Hin.
        apply has_column_In, drop_column_has in Hin. now destruct Hin.
    + destruct (has_column df (lit "Month")) eqn:E2; [|discriminate H].
      cbn [negb] in H. injection H as <- <- <-.
      destruct (x_first_head _ _ E2) as [others Ho].
      exists others, (lit "Month"). rewrite Elb, x_first_rows.
      repeat split; try assumption.
      intros Hin. apply x_first_labels, has_column_In in Hin. congruence.
Qed.

(** X13. What [process_who_file] returns for a file it accepts: the
    measurement is a value of the WHO map, the gender is boys or girls,
    and the table has as many rows as the file.  For weight-for-length
    and weight-for-height its first column is Length or Height; for the
    other measurements its first column is Month and it has no Week
    column. *)
Theorem process_who_file_shape (stem : str) (csv : option DataFrame)
    (measurement gender : str) (out : DataFrame) :
  process_who_file stem csv = Ok (Some (measurement, gender, out)) ->
  exists df others x,
    csv = Some df
    /\ In measurement (map snd WHO_MEASUREMENT_MAP)
    /\ In gender [lit "boys"; lit "girls"]
    /\ List.length (rows out) = List.length (rows df)
    /\ columns out = x :: others
    /\ (if is_length_based measurement
        then x = lit "Length" \/ x = lit "Height"
        else x = lit "Month" /\ ~ In (lit "Week") (columns out)).
Proof. exact (process_who_file_accepted stem csv measurement gender out). Qed.

Lemma process_who_file_shape_witness :
  exists out df others x,
    Some wfa_boys_weeks = Some df
    /\ In (lit "wfa") (map snd WHO_MEASUREMENT_MAP)
    /\ In (lit "boys") [lit "boys"; lit "girls"]
    /\ List.length (rows out) = List.length (rows df)
    /\ columns out = x :: others
    /\ (if is_length_based (lit "wfa")
        then x = lit "Length" \/ x = lit "Height"
        else x = lit "Month" /\ ~ In (lit "Week") (columns out)).
Proof.
  eexists.
  apply (process_who_file_shape (lit "wfa_boys_0-to-13-weeks") (Some wfa_boys_weeks)
           (lit "wfa") (lit "boys")).
  vm_compute. reflexivity.
Defined.

(* ================================================================== *)
(** * 02_standardize_data.py : the two dicts of main *)
(* ================================================================== *)

Lemma key_eqb_eq (a b : str * str) : key_eqb a b = true <-> a = b.
Proof.
  unfold key_eqb. rewrite andb_true_iff, !str_eqb_eq.
  destruct a, b; simpl. split; [intros [-> ->]; reflexivity|].
  intros H. now injection H.
Qed.

Lemma key_eqb_refl (a : str * str) : key_eqb a a = true.
Proof. now apply key_eqb_eq. Qed.

Lemma key_eqb_sym (a b : str * str) : key_eqb a b = key_eqb b a.
Proof.
  destruct (key_eqb a b) eqn:E1, (key_eqb b a) eqn:E2; try reflexivity.
  - apply key_eqb_eq in E1. subst. now rewrite key_eqb_refl in E2.
  - apply key_eqb_eq in E2. subst. now rewrite key_eqb_refl in E1.
Qed.

(** Filing a table and looking a key up. *)
Lemma tables_get_append (data : tables) (key key' : str * str) (df : DataFrame) :
  tables_get (append_table data key df) key'
  = if key_eqb key key' then tables_get data key' ++ [df] else tables_get data key'.
Proof.
  unfold tables_get. induction data as [|[k dfs] data IH]; cbn [append_table find].
  - cbn [fst snd]. now destruct (key_eqb key key').
  - destruct (key_eqb k key) eqn:E1.
    + apply key_eqb_eq in E1. rewrite E1. cbn [find fst snd].
      now destruct (key_eqb key key').
    + cbn [find fst snd]. destruct (key_eqb k key') eqn:E2; [|exact IH].
      apply key_eqb_eq in E2. rewrite E2 in E1.
      now rewrite (key_eqb_sym key key'), E1.
Qed.

Lemma append_table_keys (data : tables) (key : str * str) (df : DataFrame) :
  map fst (append_table data key df)
  = if existsb (fun k => key_eqb k key) (map fst data)
    then map fst data else map fst data ++ [key].
Proof.
  induction data as [|[k dfs] data IH]; [reflexivity|].
  cbn [append_table map existsb fst].
  destruct (key_eqb k key) eqn:E; [reflexivity|].
  cbn [map fst orb]. rewrite IH. now destruct (existsb _ _).
Qed.

Lemma append_table_ok (data : tables) (key : str * str) (df : DataFrame) :
  tables_ok data -> key_ok key -> x_axis_first df ->
  tables_ok (append_table data key df).
Proof.
  intros [ND F] K X. split.
  - rewrite append_table_keys. destruct (existsb _ _) eqn:E; [exact ND|].
    apply NoDup_app; [exact ND | repeat constructor; easy |].
    intros k Hk [Ek|[]]. subst k.
    assert (T : existsb (fun k0 => key_eqb k0 key) (map fst data) = true).
    { apply existsb_exists. exists key. split; [exact Hk | apply key_eqb_refl]. }
    congruence.
  - clear ND. induction data as [|[k dfs] data IH]; cbn [append_table].
    + constructor; [|constructor]. split; [exact K|]. cbn [snd].
      split; [discriminate | now constructor].
    + inversion F as [|? ? [G1 [G2 G3]] F']; subst. cbn [fst snd] in *.
      destruct (key_eqb k key).
      * constructor; [|exact F']. split; [exact G1|]. cbn [snd]. split.
        -- now destruct dfs.
        -- apply Forall_app. split; [exact G3 | now constructor].
      * constructor; [now split | now apply IH].
Qed.

Lemma who_step_ok (data data' : tables) (file : str * option DataFrame) :
  who_step data file = Ok data' -> tables_ok data -> tables_ok data'.
Proof.
  unfold who_step. intros H T. apply bind_ok in H as [r [Hr H]].
  destruct r as [[[m g] out]|]; injection H as <-; [|exact T].
  destruct (process_who_file_accepted _ _ _ _ _ Hr)
    as [df [others [x [_ [Hm [Hg [_ [Hc Hx]]]]]]]].
  apply append_table_ok; [exact T | |].
  - split; [apply in_or_app; now left | exact Hg].
  - exists x, others. split; [exact Hc|]. unfold x_axis_labels.
    destruct (is_length_based m);
      [destruct Hx as [Hx | Hx] | destruct Hx as [Hx _]]; rewrite Hx;
      cbn [In]; tauto.
Qed.

Lemma who_step_get (data data' : tables) (file : str * option DataFrame)
    (key : str * str) :
  who_step data file = Ok data' ->
  tables_get data' key = tables_get data key ++ who_tables key [file].
Proof.
  unfold who_step, who_tables. cbn [flat_map]. rewrite app_nil_r. intros H.
  apply bind_ok in H as [r [Hr H]]. rewrite Hr.
  destruct r as [[[m g] out]|]; injection H as <-.
  - rewrite tables_get_append. destruct (key_eqb (m, g) key); [reflexivity|].
    now rewrite app_nil_r.
  - now rewrite app_nil_r.
Qed.

Lemma collect_who_from (who_files : list (str * option DataFrame)) (data data' : tables) :
  for_each who_step who_files data = Ok data' ->
  (tables_ok data -> tables_ok data')
  /\ forall key, tables_get data' key = tables_get data key ++ who_tables key who_files.
Proof.
  revert data; induction who_files as [|file files IH]; intros data H.
  - injection H as <-. split; [easy|]. intros key. unfold who_tables.
    cbn [flat_map]. now rewrite app_nil_r.
  - cbn [for_each] in H. apply bind_ok in H as [data1 [H1 H]].
    destruct (IH data1 H) as [IH1 IH2]. split.
    + intros T. apply IH1. exact (who_step_ok _ _ _ H1 T).
    + intros key. rewrite IH2, (who_step_get _ _ _ key H1), <- app_assoc.
      unfold who_tables. cbn [flat_map]. now rewrite app_nil_r.
Qed.

Lemma tables_ok_nil : tables_ok [].
Proof. split; constructor. Qed.

(** X14. The dict [main] builds from the WHO files: its keys are
    distinct, and under each key stand exactly the tables of the files
    [process_who_file] files under that key, in the order of the files;
    a file that is not accepted adds nothing. *)
Theorem who_tables_grouped (who_files : list (str * option DataFrame)) (data : tables) :
  StandardizeData.collect_who who_files = Ok data ->
  NoDup (map fst data)
  /\ (forall key, tables_get data key = who_tables key who_files)
  /\ Forall (fun group => snd group <> []) data.
Proof.
  unfold StandardizeData.collect_who. intros H.
  destruct (collect_who_from who_files [] data H) as [T G].
  destruct (T tables_ok_nil) as [ND F]. split; [exact ND|]. split.
  - intros key. now rewrite G.
  - revert F. apply Forall_impl. now intros group [_ [N _]].
Qed.

Lemma who_tables_grouped_witness :
  exists data,
    StandardizeData.collect_who
      [(lit "wfa_boys_0-to-13-weeks", Some wfa_boys_weeks);
       (lit "readme", None);
       (lit "wfa_boys_0-to-5-years", Some (month_table 3 [0; 1; 2]%Z))] = Ok data
    /\ NoDup (map fst data)
    /\ (forall key,
          tables_get data key
          = who_tables key
              [(lit "wfa_boys_0-to-13-weeks", Some wfa_boys_weeks);
               (lit "readme", None);
               (lit "wfa_boys_0-to-5-years", Some (month_table 3 [0; 1; 2]%Z))])
    /\ Forall (fun group => snd group <> []) data.
Proof.
  eexists. split; [vm_compute; reflexivity|].
  apply (who_tables_grouped
           [(lit "wfa_boys_0-to-13-weeks", Some wfa_boys_weeks);
            (lit "readme", None);
            (lit "wfa_boys_0-to-5-years", Some (month_table 3 [0; 1; 2]%Z))]).
  vm_compute. reflexivity.
Defined.

(** ** The CDC files *)

Lemma rename_column_has (df : DataFrame) (old new : str) :
  has_column df old = true -> has_column (rename_column df old new) new = true.
Proof.
  rewrite !has_column_In. unfold rename_column. cbn [columns]. intros H.
  apply in_map_iff. exists old. split; [now rewrite str_eqb_refl | exact H].
Qed.

Lemma split_gender_ok (measurement : str) (df : DataFrame) (x_col : str)
    (sex_code : Z) (gender : str) :
  has_column df x_col = true -> x_col <> lit "Sex" -> In x_col x_axis_labels ->
  Forall (fun t => fst (fst t) = measurement /\ snd (fst t) = gender
                   /\ x_axis_first (snd t))
         (split_gender measurement df x_col sex_code gender).
Proof.
  intros H N X. unfold split_gender.
  destruct (0 <? _)%nat; [|constructor].
  constructor; [|constructor]. cbn [fst snd]. repeat split.
  assert (H2 : has_column (drop_column (rows_where_eq df (lit "Sex") sex_code)
                             (lit "Sex")) x_col = true).
  { apply drop_column_has. split; [exact H | exact N]. }
  destruct (x_first_head _ _ H2) as [others Ho]. now exists x_col, others.
Qed.

Lemma split_by_gender_ok (measurement : str) (df : DataFrame) (x_col : str) :
  has_column df x_col = true -> x_col <> lit "Sex" -> In x_col x_axis_labels ->
  Forall (fun t => fst (fst t) = measurement
                   /\ In (snd (fst t)) [lit "boys"; lit "girls"]
                   /\ x_axis_first (snd t))
         (split_by_gender measurement df x_col).
Proof.
  intros H N X. unfold split_by_gender. apply Forall_app. split.
  - generalize (split_gender_ok measurement df x_col 1 (lit "boys") H N X).
    apply Forall_impl. intros t [A [B C]]. rewrite B. cbn [In]. tauto.
  - generalize (split_gender_ok measurement df x_col 2 (lit "girls") H N X).
    apply Forall_impl. intros t [A [B C]]. rewrite B. cbn [In]. tauto.
Qed.

Lemma process_cdc_file_ok (stem : str) (csv : option DataFrame) :
  Forall (fun t => key_ok (fst t) /\ x_axis_first (snd t))
         (process_cdc_file stem csv).
Proof.
  unfold process_cdc_file, measurement_of.
  destruct (first_mapping CDC_MEASUREMENT_MAP (lower stem)) as [m|] eqn:Em;
    [|constructor].
  destruct csv as [df|]; [|constructor].
  pose proof (first_mapping_In _ _ _ Em) as Hm.
  assert (K : forall x_col df', has_column df' x_col = true ->
                x_col <> lit "Sex" -> In x_col x_axis_labels ->
                Forall (fun t => key_ok (fst t) /\ x_axis_first (snd t))
                       (split_by_gender m df' x_col)).
  { intros x_col df' H N X. generalize (split_by_gender_ok m df' x_col H N X).
    apply Forall_impl. intros [[m' g] out] [A [B C]]. cbn [fst snd] in *. subst m'.
    split; [|exact C]. split; [apply in_or_app; now right | exact B]. }
  destruct (is_length_based m).
  - destruct (has_column df (lit "Sex")); cbn [negb]; [|constructor].
    destruct (has_column df (lit "Length")) eqn:E1.
    { apply K; [exact E1 | vm_compute; discriminate | cbn; tauto]. }
    destruct (has_column df (lit "Height")) eqn:E2.
    { apply K; [exact E2 | vm_compute; discriminate | cbn; tauto]. }
    destruct (has_column df (lit "Stature")) eqn:E3; [|constructor].
    apply K; [exact E3 | vm_compute; discriminate | cbn; tauto].
  - destruct (has_column df (lit "Sex")); cbn [negb orb]; [|constructor].
    destruct (has_column df (lit "Agemos")) eqn:E1; cbn [negb]; [|constructor].
    apply K; [now apply rename_column_has | vm_compute; discriminate | cbn; tauto].
Qed.

Lemma file_tables_from (ts : list (str * str * DataFrame)) (data : tables) :
  Forall (fun t => key_ok (fst t) /\ x_axis_first (snd t)) ts ->
  (tables_ok data ->
   tables_ok (fold_left (fun data '(measurement, gender, df) =>
                           append_table data (measurement, gender) df) ts data))
  /\ forall key,
       tables_get (fold_left (fun data '(measurement, gender, df) =>
                                append_table data (measurement, gender) df) ts data) key
       = tables_get data key
         ++ flat_map (fun '(measurement, gender, df) =>
                        if key_eqb (measurement, gender) key then [df] else []) ts.
Proof.
  revert data. induction ts as [|t ts IH]; intros data F.
  - cbn [fold_left flat_map]. split; [easy|]. intros key. now rewrite app_nil_r.
  - inversion F as [|? ? [K X] F']; subst. destruct t as [[m g] out].
    cbn [fold_left flat_map fst snd] in *.
    destruct (IH (append_table data (m, g) out) F') as [IH1 IH2]. split.
    + intros T. apply IH1. now apply append_table_ok.
    + intros key. rewrite IH2, tables_get_append.
      destruct (key_eqb (m, g) key); [now rewrite <- app_assoc | reflexivity].
Qed.

Lemma cdc_step_from (data : tables) (file : str * option DataFrame) :
  (tables_ok data -> tables_ok (cdc_step data file))
  /\ forall key, tables_get (cdc_step data file) key
                 = tables_get data key ++ cdc_tables key [file].
Proof.
  unfold cdc_step, cdc_tables.
  destruct (file_tables_from _ data (process_cdc_file_ok (fst file) (snd file)))
    as [A B].
  split; [exact A|]. intros key. cbn [flat_map]. rewrite app_nil_r. apply B.
Qed.

Lemma collect_cdc_from (cdc_files : list (str * option DataFrame)) (data : tables) :
  (tables_ok data -> tables_ok (fold_left cdc_step cdc_files data))
  /\ forall key, tables_get (fold_left cdc_step cdc_files data) key
                 = tables_get data key ++ cdc_tables key cdc_files.
Proof.
  revert data; induction cdc_files as [|file files IH]; intros data.
  - cbn [fold_left]. split; [easy|]. intros key. unfold cdc_tables.
    cbn [flat_map]. now rewrite app_nil_r.
  - cbn [fold_left]. destruct (cdc_step_from data file) as [S1 S2].
    destruct (IH (cdc_step data file)) as [IH1 IH2]. split.
    + intros T. apply IH1, S1, T.
    + intros key. rewrite IH2, S2, <- app_assoc.
      unfold cdc_tables. cbn [flat_map]. now rewrite app_nil_r.
Qed.

(** X15. The dict [main] builds from the CDC files: its keys are
    distinct, and under each key stand exactly the tables the gender
    split of [process_cdc_file] gives for that key, in the order of the
    files and with boys before girls within a file. *)
Theorem cdc_tables_grouped (cdc_files : list (str * option DataFrame)) :
  NoDup (map fst (StandardizeData.collect_cdc cdc_files))
  /\ (forall key, tables_get (StandardizeData.collect_cdc cdc_files) key
                  = cdc_tables key cdc_files)
  /\ Forall (fun group => snd group <> []) (StandardizeData.collect_cdc cdc_files).
Proof.
  unfold StandardizeData.collect_cdc.
  destruct (collect_cdc_from cdc_files []) as [T G].
  destruct (T tables_ok_nil) as [ND F]. split; [exact ND|]. split.
  - intros key. now rewrite G.
  - revert F. apply Forall_impl. now intros group [_ [N _]].
Qed.

(* ================================================================== *)
(** * 02_standardize_data.py : how main can end *)
(* ================================================================== *)

Lemma float_of_int_err (n : Z) (e : exn) : float_of_int n = Err e -> e = OverflowError.
Proof.
  unfold float_of_int. destruct (binary_normalize _ _ _ _ _); intros H;
    try discriminate H. now injection H.
Qed.

Lemma map_result_err {A B : Type} (f : A -> result B) (xs : list A) (e : exn) :
  map_result f xs = Err e -> exists x, In x xs /\ f x = Err e.
Proof.
  induction xs as [|x xs IH]; simpl; [discriminate|].
  destruct (f x) as [y|e'] eqn:E; cbn [bind].
  - destruct (map_result f xs) as [ys|e'] eqn:E'; cbn [bind]; [discriminate|].
    intros H. injection H as ->. destruct (IH eq_refl) as [x' [Hin Hx]].
    exists x'. split; [now right | exact Hx].
  - intros H. injection H as ->. exists x. split; [now left | exact E].
Qed.

Lemma map_result_fails {A B : Type} (f : A -> result B) (xs : list A) (x : A) (e : exn) :
  In x xs -> f x = Err e -> exists e', map_result f xs = Err e'.
Proof.
  induction xs as [|a xs IH]; [easy|]. intros [->|Hin] Hx; simpl.
  - rewrite Hx. now eexists.
  - destruct (f a); cbn [bind]; [|now eexists].
    destruct (IH Hin Hx) as [e' ->]. now eexists.
Qed.

Lemma weeks_to_months_err (weeks : list cell) (e : exn) :
  weeks_to_months weeks = Err e -> e = TypeError \/ e = OverflowError.
Proof.
  unfold weeks_to_months. intros H.
  apply map_result_err in H as [w [_ H]].
  destruct (isna w); [discriminate H|].
  destruct w as [|n|f|s|n]; cbn [py_truediv] in H.
  - left. now injection H.
  - destruct (float_of_int n) as [f|e'] eqn:E; cbn [bind] in H.
    + unfold float_truediv in H.
      replace (PrimFloat.eqb 4.33 0) with false in H by reflexivity.
      discriminate H.
    + injection H as <-. right. exact (float_of_int_err _ _ E).
  - unfold float_truediv in H.
    replace (PrimFloat.eqb 4.33 0) with false in H by reflexivity.
    discriminate H.
  - left. now injection H.
  - destruct (float_of_int n) as [f|e'] eqn:E; cbn [bind] in H.
    + unfold float_truediv in H.
      replace (PrimFloat.eqb 4.33 0) with false in H by reflexivity.
      discriminate H.
    + injection H as <-. right. exact (float_of_int_err _ _ E).
Qed.

Lemma process_who_file_err (stem : str) (csv : option DataFrame) (e : exn) :
  process_who_file stem csv = Err e -> e = TypeError \/ e = OverflowError.
Proof.
  unfold process_who_file. intros H.
  repeat match type of H with
  | match ?x with _ => _ end = _ => destruct x; try discriminate H
  end.
  destruct (weeks_to_months _) eqn:E; [discriminate H|].
  injection H as <-. exact (weeks_to_months_err _ _ E).
Qed.

Lemma collect_who_err (who_files : list (str * option DataFrame)) (data : tables)
    (e : exn) :
  for_each who_step who_files data = Err e -> e = TypeError \/ e = OverflowError.
Proof.
  revert data; induction who_files as [|file files IH]; intros data H;
    [discriminate H|].
  cbn [for_each] in H. destruct (who_step data file) as [data1|e1] eqn:E;
    cbn [bind] in H; [exact (IH _ H)|].
  injection H as <-. unfold who_step in E.
  destruct (process_who_file (fst file) (snd file)) as [r|e2] eqn:E2;
    cbn [bind] in E.
  - now destruct r as [[[m g] out]|].
  - injection E as <-. exact (process_who_file_err _ _ _ E2).
Qed.

Lemma column_keys_err (cells : list cell) (e : exn) :
  column_keys cells = Err e -> e = TypeError \/ e = OverflowError.
Proof.
  unfold column_keys. destruct (forallb is_int_cell cells); [discriminate|].
  intros H. apply map_result_err in H as [v [_ H]].
  destruct v as [|n|f|s|n]; cbn [float_key] in H; try discriminate H.
  - destruct (float_of_int n) eqn:E; [discriminate H|].
    injection H as <-. right. exact (float_of_int_err _ _ E).
  - left. now injection H.
  - destruct (float_of_int n) eqn:E; [discriminate H|].
    injection H as <-. right. exact (float_of_int_err _ _ E).
Qed.

Lemma unique_labels_In (seen labels : list str) (x : str) :
  In x labels -> existsb (str_eqb x) seen = false -> In x (unique_labels seen labels).
Proof.
  revert seen; induction labels as [|l labels IH]; intros seen Hin Hs; [easy|].
  cbn [unique_labels]. destruct (existsb (str_eqb l) seen) eqn:E.
  - apply IH; [|exact Hs]. destruct Hin as [->|Hin]; [congruence | exact Hin].
  - destruct (str_eqb x l) eqn:Exl.
    + apply str_eqb_eq in Exl. subst. now left.
    + destruct Hin as [->|Hin]; [now rewrite str_eqb_refl in Exl|].
      right. apply IH; [exact Hin|]. cbn [existsb]. now rewrite Exl, Hs.
Qed.

Lemma concat_has_column (dfs : list DataFrame) (df : DataFrame) (x : str) :
  In df dfs -> In x (columns df) -> has_column (concat dfs) x = true.
Proof.
  intros Hdf Hx. apply has_column_In. unfold concat. cbn [columns].
  apply unique_labels_In; [|reflexivity].
  apply in_flat_map. now exists df.
Qed.

Lemma combine_dataframes_ok (dfs : list DataFrame) (x_col : str) :
  has_column (concat dfs) x_col = true -> dfs <> [] ->
  (exists combined, combine_dataframes dfs x_col = Ok (Some combined))
  \/ combine_dataframes dfs x_col = Err TypeError
  \/ combine_dataframes dfs x_col = Err OverflowError.
Proof.
  intros H N. unfold combine_dataframes. destruct dfs as [|df dfs]; [easy|].
  set (c := concat (df :: dfs)) in *. unfold sort_values. rewrite H.
  destruct (column_keys (column c x_col)) as [keys|e] eqn:E; cbn [bind].
  2:{ right. destruct (column_keys_err _ _ E) as [-> | ->]; tauto. }
  unfold drop_duplicates_last.
  match goal with
  | |- context [has_column ?sorted x_col] =>
      change (has_column sorted x_col) with (has_column c x_col)
  end.
  rewrite H.
  match goal with
  | |- context [column_keys ?cells] =>
      destruct (column_keys cells) as [keys'|e] eqn:E'; cbn [bind]
  end.
  - left. now eexists.
  - right. destruct (column_keys_err _ _ E') as [-> | ->]; tauto.
Qed.

Lemma choose_x_col_ok (dfs : list DataFrame) :
  dfs <> [] -> Forall x_axis_first dfs ->
  exists x_col, StandardizeData.choose_x_col dfs = inr x_col
                /\ has_column (concat dfs) x_col = true.
Proof.
  destruct dfs as [|df dfs]; [easy|]. intros _ F.
  inversion F as [|? ? [x [others [Hc Hx]]] _]; subst.
  unfold StandardizeData.choose_x_col. rewrite Hc.
  assert (E : existsb (str_eqb x)
                [lit "Month"; lit "Length"; lit "Height"; lit "Stature"] = true).
  { apply existsb_exists. exists x. split; [exact Hx | apply str_eqb_refl]. }
  rewrite E. exists x. split; [reflexivity|].
  apply (concat_has_column _ df); [now left | rewrite Hc; now left].
Qed.

(** The groups saved before the loop ends, and how it ends. *)
Lemma save_groups_from (suffix : str) (data : tables) (files : list (str * DataFrame)) :
  Forall group_ok data ->
  exists saved others,
    data = saved ++ others
    /\ map fst (fst (StandardizeData.save_groups suffix data files))
       = map fst files
         ++ map (fun group => StandardizeData.output_name (fst group) suffix) saved
    /\ match snd (StandardizeData.save_groups suffix data files) with
       | None => others = []
       | Some f =>
           f = StandardizeData.Raised TypeError
           \/ f = StandardizeData.Raised OverflowError
       end.
Proof.
  revert files; induction data as [|[key dfs] data IH]; intros files F.
  - exists [], []. cbn [StandardizeData.save_groups fst snd map].
    rewrite !app_nil_r. repeat split.
  - inversion F as [|? ? [K [N X]] F']; subst. cbn [fst snd] in *.
    cbn [StandardizeData.save_groups].
    destruct (choose_x_col_ok dfs N X) as [x_col [-> Hc]].
    destruct (combine_dataframes_ok dfs x_col Hc N) as [[combined ->] | [-> | ->]].
    + destruct (IH (files ++ [(StandardizeData.output_name key suffix, combined)]) F')
        as [saved [others [E [M S]]]].
      exists ((key, dfs) :: saved), others. split; [now rewrite E|].
      split; [|exact S]. rewrite M, map_app, <- app_assoc. reflexivity.
    + exists [], ((key, dfs) :: data). cbn [fst snd map].
      rewrite app_nil_r. repeat split; tauto.
    + exists [], ((key, dfs) :: data). cbn [fst snd map].
      rewrite app_nil_r. repeat split; tauto.
Qed.

Lemma main_tables_ok (who_files cdc_files : list (str * option DataFrame))
    (who_data : tables) :
  StandardizeData.collect_who who_files = Ok who_data ->
  tables_ok who_data /\ tables_ok (StandardizeData.collect_cdc cdc_files).
Proof.
  intros H. split.
  - exact (proj1 (collect_who_from who_files [] who_data H) tables_ok_nil).
  - exact (proj1 (collect_cdc_from cdc_files []) tables_ok_nil).
Qed.

(** Distinct labels stay distinct through the steps of the two
    [process_*_file] functions. *)
Lemma filter_label_absent (cols : list str) (x : str) :
  ~ In x cols -> filter (fun c => str_eqb c x) cols = [].
Proof.
  intros N. destruct (filter (fun c => str_eqb c x) cols) as [|c l] eqn:E;
    [reflexivity|].
  assert (H : In c (filter (fun c => str_eqb c x) cols)) by (rewrite E; now left).
  apply filter_In in H as [H1 H2]. apply str_eqb_eq in H2. now subst.
Qed.

Lemma x_first_distinct (df : DataFrame) (x : str) :
  NoDup (columns df) -> NoDup (columns (x_first df x)).
Proof.
  intros Hnd. unfold x_first, select_columns. cbn [columns flat_map].
  set (others := filter (fun c => negb (str_eqb c x)) (columns df)).
  assert (Ho : NoDup others) by now apply NoDup_filter.
  assert (R : flat_map (fun l => filter (fun c => str_eqb c l) (columns df)) others
              = others).
  { apply (select_distinct (columns df) (map (fun _ => CNone) (columns df)) others);
      [exact Hnd | apply length_map | exact Ho |].
    intros c Hc. now apply not_label_In in Hc. }
  rewrite R. destruct (has_column df x) eqn:E.
  - apply has_column_In in E. rewrite (filter_label_single _ _ Hnd E).
    constructor; [|exact Ho]. intros H. apply not_label_In in H. now destruct H.
  - rewrite filter_label_absent; [exact Ho|].
    intros H. apply has_column_In in H. congruence.
Qed.

Lemma set_column_distinct (df : DataFrame) (col : str) (values : list cell) :
  NoDup (columns df) -> NoDup (columns (set_column df col values)).
Proof.
  intros Hnd. unfold set_column. destruct (has_column df col) eqn:E; [exact Hnd|].
  cbn [columns]. apply NoDup_app; [exact Hnd | repeat constructor; easy |].
  intros a Ha [<-|[]]. apply has_column_In in Ha. congruence.
Qed.

Lemma drop_column_distinct (df : DataFrame) (col : str) :
  NoDup (columns df) -> NoDup (columns (drop_column df col)).
Proof. intros H. unfold drop_column. cbn [columns]. now apply NoDup_filter. Qed.

Lemma rename_column_distinct (df : DataFrame) (old new : str) :
  NoDup (columns df) -> ~ In new (columns df) ->
  NoDup (columns (rename_column df old new)).
Proof.
  unfold rename_column. cbn [columns]. intros Hnd Hnew.
  apply NoDup_map_NoDup_ForallPairs; [|exact Hnd].
  intros a b Ha Hb. destruct (str_eqb a old) eqn:Ea, (str_eqb b old) eqn:Eb;
    intros E.
  - apply str_eqb_eq in Ea, Eb. congruence.
  - subst b. contradiction.
  - subst a. contradiction.
  - exact E.
Qed.

Lemma split_by_gender_distinct (measurement : str) (df : DataFrame) (x_col : str) :
  NoDup (columns df) ->
  Forall (fun t => NoDup (columns (snd t))) (split_by_gender measurement df x_col).
Proof.
  intros Hnd.
  assert (K : forall code gender,
            Forall (fun t => NoDup (columns (snd t)))
                   (split_gender measurement df x_col code gender)).
  { intros code gender. unfold split_gender.
    destruct (0 <? _)%nat; [|constructor].
    constructor; [|constructor]. cbn [snd].
    apply x_first_distinct, drop_column_distinct. exact Hnd. }
  unfold split_by_gender. apply Forall_app. split; apply K.
Qed.

Lemma process_who_file_distinct (stem : str) (df out : DataFrame)
    (measurement gender : str) :
  process_who_file stem (Some df) = Ok (Some (measurement, gender, out)) ->
  NoDup (columns df) -> NoDup (columns out).
Proof.
  unfold process_who_file. intros H Hnd.
  destruct (measurement_of WHO_MEASUREMENT_MAP (lower stem)); [|discriminate H].
  destruct (who_gender (lower stem)); [|discriminate H].
  destruct (is_length_based s).
  - destruct (has_column df (lit "Length")).
    + injection H as _ _ <-. now apply x_first_distinct.
    + destruct (has_column df (lit "Height")); [|discriminate H].
      injection H as _ _ <-. now apply x_first_distinct.
  - destruct (has_column df (lit "Week")).
    + apply bind_ok in H as [months [_ H]]. injection H as _ _ <-.
      now apply x_first_distinct, drop_column_distinct, set_column_distinct.
    + destruct (negb (has_column df (lit "Month"))); [discriminate H|].
      injection H as _ _ <-. now apply x_first_distinct.
Qed.

Lemma process_cdc_file_distinct (file : str * option DataFrame) :
  as_read file -> month_beside_agemos file = false ->
  Forall (fun t => NoDup (columns (snd t))) (process_cdc_file (fst file) (snd file)).
Proof.
  unfold as_read, month_beside_agemos, process_cdc_file.
  destruct file as [stem [df|]]; cbn [fst snd]; intros Hnd Hm.
  2:{ destruct (measurement_of _ _); constructor. }
  destruct (measurement_of CDC_MEASUREMENT_MAP (lower stem)); [|constructor].
  destruct (is_length_based s).
  - destruct (negb (has_column df (lit "Sex"))); [constructor|].
    destruct (has_column df (lit "Length"));
      [now apply split_by_gender_distinct|].
    destruct (has_column df (lit "Height"));
      [now apply split_by_gender_distinct|].
    destruct (has_column df (lit "Stature"));
      [now apply split_by_gender_distinct | constructor].
  - destruct (has_column df (lit "Agemos")) eqn:Ea;
      [|rewrite orb_true_r; constructor].
    destruct (negb (has_column df (lit "Sex"))); [constructor|]. cbn [orb negb].
    apply split_by_gender_distinct, rename_column_distinct; [exact Hnd|].
    intros H. apply has_column_In in H. rewrite H in Hm. discriminate Hm.
Qed.

Lemma filed_tables_distinct (who_files cdc_files : list (str * option DataFrame))
    (key : str * str) (df : DataFrame) :
  Forall as_read who_files -> Forall as_read cdc_files ->
  Forall (fun file => month_beside_agemos file = false) cdc_files ->
  In df (who_tables key who_files) \/ In df (cdc_tables key cdc_files) ->
  NoDup (columns df).
Proof.
  intros Hw Hc Hm [H|H].
  - unfold who_tables in H. apply in_flat_map in H as [file [Hf H]].
    rewrite Forall_forall in Hw. specialize (Hw file Hf). unfold as_read in Hw.
    destruct file as [stem [d|]]; cbn [fst snd] in *.
    + destruct (process_who_file stem (Some d)) as [[[[m g] out]|]|] eqn:E;
        try contradiction.
      destruct (key_eqb (m, g) key); [|contradiction].
      destruct H as [<-|[]]. exact (process_who_file_distinct _ _ _ _ _ E Hw).
    + destruct (process_who_file stem None) as [[[[m g] out]|]|] eqn:E;
        try contradiction.
      unfold process_who_file in E.
      destruct (measurement_of _ _); [|discriminate E].
      destruct (who_gender _); discriminate E.
  - unfold cdc_tables in H. apply in_flat_map in H as [file [Hf H]].
    rewrite Forall_forall in Hc, Hm.
    pose proof (process_cdc_file_distinct file (Hc file Hf) (Hm file Hf)) as D.
    rewrite Forall_forall in D.
    apply in_flat_map in H as [[[m g] out] [Ht H]].
    destruct (key_eqb (m, g) key); [|contradiction].
    destruct H as [<-|[]]. exact (D _ Ht).
Qed.

(** X16. For files as [pd.read_csv] gives them, of which no CDC file has
    a Month column beside its Agemos column, every table filed in the two
    dicts of [main] has distinct labels, and [main] can only be ended by
    a TypeError or an OverflowError.  The look-up of the first column
    never raises IndexError, and the combiner never raises KeyError or,
    the sort label being unique, ValueError: every table of a group
    starts with its x-axis column. *)
Theorem main_failures (who_files cdc_files : list (str * option DataFrame)) :
  Forall as_read who_files -> Forall as_read cdc_files ->
  Forall (fun file => month_beside_agemos file = false) cdc_files ->
  (forall key df,
     In df (who_tables key who_files) \/ In df (cdc_tables key cdc_files) ->
     NoDup (columns df)
     /\ exists x others, columns df = x :: others /\ In x x_axis_labels)
  /\ (forall f : StandardizeData.failure,
        snd (StandardizeData.main who_files cdc_files) = Some f ->
        f = StandardizeData.Raised TypeError
        \/ f = StandardizeData.Raised OverflowError).
Proof.
  intros Hw Hc Hm. split.
  - intros key df H. split;
      [exact (filed_tables_distinct who_files cdc_files key df Hw Hc Hm H)|].
    destruct H as [H|H].
    + unfold who_tables in H. apply in_flat_map in H as [file [_ H]].
      destruct (process_who_file (fst file) (snd file)) as [[[[m g] out]|]|] eqn:E;
        try contradiction.
      destruct (key_eqb (m, g) key); [|contradiction]. destruct H as [<-|[]].
      destruct (process_who_file_accepted _ _ _ _ _ E)
        as [d [others [x [_ [_ [_ [_ [Hx Hk]]]]]]]].
      exists x, others. split; [exact Hx|]. unfold x_axis_labels.
      destruct (is_length_based m);
        [destruct Hk as [-> | ->] | destruct Hk as [-> _]]; cbn [In]; auto.
    + unfold cdc_tables in H. apply in_flat_map in H as [file [_ H]].
      apply in_flat_map in H as [[[m g] out] [Ht H]].
      destruct (key_eqb (m, g) key); [|contradiction]. destruct H as [<-|[]].
      pose proof (process_cdc_file_ok (fst file) (snd file)) as F.
      rewrite Forall_forall in F. exact (proj2 (F _ Ht)).
  - intros f. unfold StandardizeData.main.
    destruct (StandardizeData.collect_who who_files) as [who_data|e] eqn:E.
    2:{ cbn [snd]. intros H. injection H as <-.
        destruct (collect_who_err _ _ _ E) as [-> | ->]; tauto. }
    destruct (main_tables_ok who_files cdc_files who_data E) as [[_ T1] [_ T2]].
    destruct (save_groups_from (lit "who") who_data [] T1) as [s1 [o1 [_ [_ S1]]]].
    destruct (StandardizeData.save_groups (lit "who") who_data []) as [files [f1|]].
    + cbn [snd] in *. intros H. injection H as <-. exact S1.
    + destruct (save_groups_from (lit "cdc") (StandardizeData.collect_cdc cdc_files)
                  files T2) as [s2 [o2 [_ [_ S2]]]].
      intros H. rewrite H in S2. exact S2.
Qed.

Lemma main_failures_witness :
  snd (StandardizeData.main
         [(lit "wfa_boys", Some {| columns := [lit "Week"; lit "M"];
                                   rows := [ [CStr (lit "birth"); CFloat 3.3] ] |})]
         [(lit "bmiagerev", Some cdc_example)])
  = Some (StandardizeData.Raised TypeError)
  /\ (StandardizeData.Raised TypeError = StandardizeData.Raised TypeError
      \/ StandardizeData.Raised TypeError = StandardizeData.Raised OverflowError).
Proof.
  split; [reflexivity|].
  apply (main_failures
           [(lit "wfa_boys", Some {| columns := [lit "Week"; lit "M"];
                                     rows := [ [CStr (lit "birth"); CFloat 3.3] ] |})]
           [(lit "bmiagerev", Some cdc_example)]).
  - repeat constructor; cbn; intuition discriminate.
  - repeat constructor; cbn; intuition discriminate.
  - repeat constructor.
  - reflexivity.
Defined.

(** Why the Month column is excluded: renaming Agemos onto an existing
    Month leaves the table with two Month labels, for which
    [sort_values] of pandas raises ValueError (the label is not unique);
    [concat] and [sort_values] above are about distinct labels only. *)
Example agemos_beside_month_duplicates_label :
  map (fun t => columns (snd t))
      (process_cdc_file (lit "bmiagerev") (Some agemos_and_month))
  = [[lit "Month"; lit "Month"; lit "L"]].
Proof. reflexivity. Qed.

(** X17. When [main] ends without an exception it has written one file
    for every key of the two dicts, the WHO groups first and then the CDC
    groups, each in the order of its dict: the combiner never returns
    None for a group, and the fallback to Month for the x-axis is never
    taken. *)
Theorem main_writes_every_group (who_files cdc_files : list (str * option DataFrame)) :
  snd (StandardizeData.main who_files cdc_files) = None ->
  exists who_data,
    StandardizeData.collect_who who_files = Ok who_data
    /\ map fst (fst (StandardizeData.main who_files cdc_files))
       = map (fun group => StandardizeData.output_name (fst group) (lit "who")) who_data
         ++ map (fun group => StandardizeData.output_name (fst group) (lit "cdc"))
                (StandardizeData.collect_cdc cdc_files).
Proof.
  unfold StandardizeData.main.
  destruct (StandardizeData.collect_who who_files) as [who_data|e] eqn:E;
    [|discriminate].
  destruct (main_tables_ok who_files cdc_files who_data E) as [[_ T1] [_ T2]].
  destruct (save_groups_from (lit "who") who_data [] T1) as [s1 [o1 [D1 [M1 S1]]]].
  destruct (StandardizeData.save_groups (lit "who") who_data []) as [files [f1|]];
    [discriminate|].
  cbn [fst snd] in *. subst o1. rewrite app_nil_r in D1. subst s1.
  destruct (save_groups_from (lit "cdc") (StandardizeData.collect_cdc cdc_files)
              files T2) as [s2 [o2 [D2 [M2 S2]]]].
  intros H. rewrite H in S2. subst o2. rewrite app_nil_r in D2.
  exists who_data. split; [reflexivity|]. rewrite M2, M1, <- D2. reflexivity.
Qed.

Lemma main_writes_every_group_witness :
  exists who_data,
    StandardizeData.collect_who [(lit "wfa_boys", Some wfa_boys_weeks)] = Ok who_data
    /\ map fst (fst (StandardizeData.main [(lit "wfa_boys", Some wfa_boys_weeks)]
                       [(lit "wtageinf", Some wtageinf)]))
       = map (fun group => StandardizeData.output_name (fst group) (lit "who")) who_data
         ++ map (fun group => StandardizeData.output_name (fst group) (lit "cdc"))
                (StandardizeData.collect_cdc [(lit "wtageinf", Some wtageinf)]).
Proof.
  apply (main_writes_every_group [(lit "wfa_boys", Some wfa_boys_weeks)]
           [(lit "wtageinf", Some wtageinf)]).
  vm_compute. reflexivity.
Defined.

(* ================================================================== *)
(** * 02_standardize_data.py : the names of the files written *)
(* ================================================================== *)

Lemma output_name_injective (k1 k2 : str * str) (s1 s2 : str) :
  key_ok k1 -> key_ok k2 ->
  In s1 [lit "who"; lit "cdc"] -> In s2 [lit "who"; lit "cdc"] ->
  StandardizeData.output_name k1 s1 = StandardizeData.output_name k2 s2 ->
  k1 = k2 /\ s1 = s2.
Proof.
  intros [M1 G1] [M2 G2] S1 S2 E.
  set (all := list_prod
                (list_prod (map snd WHO_MEASUREMENT_MAP ++ map snd CDC_MEASUREMENT_MAP)
                           [lit "boys"; lit "girls"])
                [lit "who"; lit "cdc"]).
  assert (C : forallb (fun a =>
                forallb (fun b =>
                  negb (str_eqb (StandardizeData.output_name (fst a) (snd a))
                                (StandardizeData.output_name (fst b) (snd b)))
                  || (key_eqb (fst a) (fst b) && str_eqb (snd a) (snd b))) all) all
              = true).
  { vm_compute. reflexivity. }
  assert (I1 : In (k1, s1) all).
  { destruct k1 as [m g]. apply in_prod; [apply in_prod|]; assumption. }
  assert (I2 : In (k2, s2) all).
  { destruct k2 as [m g]. apply in_prod; [apply in_prod|]; assumption. }
  rewrite forallb_forall in C. specialize (C _ I1).
  rewrite forallb_forall in C. specialize (C _ I2).
  cbn [fst snd] in C. rewrite E, str_eqb_refl in C. cbn [negb orb] in C.
  apply andb_true_iff in C as [C1 C2].
  apply key_eqb_eq in C1. apply str_eqb_eq in C2. now split.
Qed.

Lemma NoDup_map_on {A B : Type} (f : A -> B) (l : list A) :
  (forall a b, In a l -> In b l -> f a = f b -> a = b) ->
  NoDup l -> NoDup (map f l).
Proof.
  induction l as [|a l IH]; intros Hf ND; [constructor|].
  inversion ND as [|? ? Ha Hl]; subst. cbn [map]. constructor.
  - intros Hin. apply in_map_iff in Hin as [b [E Hb]].
    assert (b = a) by (apply Hf; [now right | now left | exact E]).
    subst. contradiction.
  - apply IH; [|exact Hl]. intros x y Hx Hy. apply Hf; now right.
Qed.

Lemma group_names_distinct (suffix : str) (data : tables) :
  In suffix [lit "who"; lit "cdc"] -> tables_ok data ->
  NoDup (map (fun group => StandardizeData.output_name (fst group) suffix) data).
Proof.
  intros S [ND F].
  rewrite <- (map_map fst (fun key => StandardizeData.output_name key suffix)).
  apply NoDup_map_on; [|exact ND].
  intros a b Ha Hb E.
  assert (K : forall k, In k (map fst data) -> key_ok k).
  { intros k Hk. apply in_map_iff in Hk as [group [<- Hg]].
    rewrite Forall_forall in F. now destruct (F group Hg). }
  now destruct (output_name_injective a b suffix suffix (K a Ha) (K b Hb) S S E).
Qed.

Lemma tables_ok_prefix (saved others : tables) :
  tables_ok (saved ++ others) -> tables_ok saved.
Proof.
  intros [ND F]. split.
  - rewrite map_app in ND. now apply NoDup_app_remove_r in ND.
  - now apply Forall_app in F.
Qed.

(** X18. No two files [main] writes have the same name, whether the run
    ends with an exception or not: a key gives one file, and distinct
    keys, or the same key in the WHO and in the CDC dict, give distinct
    names. *)
Theorem output_files_distinct (who_files cdc_files : list (str * option DataFrame)) :
  NoDup (map fst (fst (StandardizeData.main who_files cdc_files))).
Proof.
  unfold StandardizeData.main.
  destruct (StandardizeData.collect_who who_files) as [who_data|e] eqn:E;
    [|constructor].
  destruct (main_tables_ok who_files cdc_files who_data E) as [T1 T2].
  destruct (save_groups_from (lit "who") who_data [] (proj2 T1))
    as [s1 [o1 [D1 [M1 _]]]].
  assert (N1 : NoDup (map (fun group =>
                  StandardizeData.output_name (fst group) (lit "who")) s1)).
  { apply group_names_distinct; [now left|].
    apply (tables_ok_prefix s1 o1). now rewrite <- D1. }
  destruct (StandardizeData.save_groups (lit "who") who_data []) as [files [f1|]];
    cbn [fst snd map app] in *.
  { now rewrite M1. }
  destruct (save_groups_from (lit "cdc") (StandardizeData.collect_cdc cdc_files)
              files (proj2 T2)) as [s2 [o2 [D2 [M2 _]]]].
  rewrite M2, M1.
  assert (K1 : Forall group_ok s1).
  { apply (tables_ok_prefix s1 o1). now rewrite <- D1. }
  assert (T2' : tables_ok s2).
  { apply (tables_ok_prefix s2 o2). now rewrite <- D2. }
  apply NoDup_app; [exact N1 | |].
  - apply group_names_distinct; [right; now left | exact T2'].
  - intros name H1 H2.
    apply in_map_iff in H1 as [g1 [E1 I1]]. apply in_map_iff in H2 as [g2 [E2 I2]].
    rewrite Forall_forall in K1. destruct (K1 g1 I1) as [Q1 _].
    destruct T2' as [_ K2]. rewrite Forall_forall in K2.
    destruct (K2 g2 I2) as [Q2 _].
    assert (W : In (lit "who") [lit "who"; lit "cdc"]) by now left.
    assert (C : In (lit "cdc") [lit "who"; lit "cdc"]) by (right; now left).
    destruct (output_name_injective _ _ _ _ Q1 Q2 W C (eq_trans E1 (eq_sym E2)))
      as [_ X].
    vm_compute in X. discriminate X.
Qed.

(** ** An exception in the first loop *)

Lemma for_each_fails {A St : Type} (body : St -> A -> result St) (xs : list A)
    (x : A) :
  In x xs -> (forall st, exists e, body st x = Err e) ->
  forall st, exists e, for_each body xs st = Err e.
Proof.
  induction xs as [|a xs IH]; [easy|]. intros [->|Hin] Hx st; cbn [for_each].
  - destruct (Hx st) as [e ->]. now eexists.
  - destruct (body st a) as [st1|e]; cbn [bind]; [|now eexists].
    now apply IH.
Qed.

(** X19. [process_who_file] guards only the reading of the file.  When
    an accepted WHO file of an age-based measurement has a Week column
    that holds a text cell, the division of that column raises, the
    exception leaves [main] during its first loop, and no file at all is
    written, not even for the other files. *)
Theorem text_in_week_column_stops_the_run
    (who_files cdc_files : list (str * option DataFrame)) (stem : str)
    (df : DataFrame) (measurement gender : str) (s : str) :
  In (stem, Some df) who_files ->
  measurement_of WHO_MEASUREMENT_MAP (lower stem) = Some measurement ->
  is_length_based measurement = false ->
  who_gender (lower stem) = Some gender ->
  has_column df (lit "Week") = true ->
  In (CStr s) (column df (lit "Week")) ->
  exists e, StandardizeData.main who_files cdc_files
            = ([], Some (StandardizeData.Raised e)).
Proof.
  intros Hin Hm Hl Hg Hw Hs.
  assert (F : exists e, process_who_file stem (Some df) = Err e).
  { unfold process_who_file. rewrite Hm, Hg, Hl, Hw.
    destruct (map_result_fails
                (fun w => if isna w then Ok (CFloat PrimFloat.nan)
                          else py_truediv w (CFloat 4.33))
                (column df (lit "Week")) (CStr s) TypeError Hs eq_refl) as [e He].
    exists e. unfold weeks_to_months. now rewrite He. }
  destruct F as [e0 F].
  destruct (for_each_fails who_step who_files (stem, Some df) Hin) with (st := @nil ((str * str) * list DataFrame))
    as [e He].
  { intros st. exists e0. unfold who_step. cbn [fst snd]. now rewrite F. }
  exists e. unfold StandardizeData.main, StandardizeData.collect_who. now rewrite He.
Qed.

Lemma text_in_week_column_stops_the_run_witness :
  exists e,
    StandardizeData.main
      [(lit "wfa_boys", Some wfa_boys_weeks);
       (lit "wfa_girls", Some {| columns := [lit "Week"; lit "M"];
                                 rows := [ [CStr (lit "birth"); CFloat 3.3] ] |})]
      [(lit "wtageinf", Some wtageinf)]
    = ([], Some (StandardizeData.Raised e)).
Proof.
  apply (text_in_week_column_stops_the_run _ _ (lit "wfa_girls")
           {| columns := [lit "Week"; lit "M"];
              rows := [ [CStr (lit "birth"); CFloat 3.3] ] |}
           (lit "wfa") (lit "girls") (lit "birth")).
  - right. now left.
  - reflexivity.
  - reflexivity.
  - reflexivity.
  - reflexivity.
  - now left.
Defined.

(* ================================================================== *)
(** * 01_convert_to_csv.py *)
(* ================================================================== *)

Section Convert.

Variable writable : str -> bool.

Lemma convert_sheets_from (stem : str) (n_sheets : nat)
    (sheets : list (str * option DataFrame)) (files : list (str * DataFrame))
    (created_files : list str) :
  exists converted others,
    sheets = converted ++ others
    /\ forallb (convertible writable stem n_sheets) converted = true
    /\ fst (ConvertToCsv.convert_sheets writable stem n_sheets sheets files created_files)
       = files ++ sheet_files stem n_sheets converted
    /\ match others with
       | [] =>
           snd (ConvertToCsv.convert_sheets writable stem n_sheets sheets files
                  created_files)
           = Some (created_files
                   ++ map (fun sheet => ConvertToCsv.csv_filename stem n_sheets (fst sheet))
                          converted)
       | sheet :: _ =>
           convertible writable stem n_sheets sheet = false
           /\ snd (ConvertToCsv.convert_sheets writable stem n_sheets sheets files
                     created_files) = None
       end.
Proof.
  revert files created_files.
  induction sheets as [|[sheet_name read] sheets IH]; intros files created_files.
  - exists [], []. cbn. now rewrite !app_nil_r.
  - cbn [ConvertToCsv.convert_sheets]. destruct read as [df|].
    2:{ exists [], ((sheet_name, None) :: sheets). cbn. now rewrite app_nil_r. }
    destruct (writable (ConvertToCsv.csv_filename stem n_sheets sheet_name)) eqn:W.
    2:{ exists [], ((sheet_name, Some df) :: sheets). cbn [app forallb sheet_files flat_map fst snd].
        rewrite app_nil_r. unfold convertible. cbn [fst snd]. now rewrite W. }
    destruct (IH (files ++ [(ConvertToCsv.csv_filename stem n_sheets sheet_name, df)])
                 (created_files ++ [ConvertToCsv.csv_filename stem n_sheets sheet_name]))
      as [converted [others [E [C [F S]]]]].
    exists ((sheet_name, Some df) :: converted), others.
    split; [now rewrite E|]. split.
    { cbn [forallb]. unfold convertible at 1. cbn [fst snd]. now rewrite W, C. }
    split.
    { rewrite F, <- app_assoc. reflexivity. }
    destruct others; [|exact S]. rewrite S, <- app_assoc. reflexivity.
Qed.

Lemma convert_excel_prefix (excel : ConvertToCsv.excel_input)
    (files : list (str * DataFrame)) :
  exists converted others,
    sheets_of excel = converted ++ others
    /\ forallb (convertible writable (ConvertToCsv.stem excel)
                  (List.length (sheets_of excel))) converted = true
    /\ fst (ConvertToCsv.convert_excel_to_csv writable excel files)
       = files ++ sheet_files (ConvertToCsv.stem excel) (List.length (sheets_of excel))
                    converted
    /\ match others with
       | [] =>
           snd (ConvertToCsv.convert_excel_to_csv writable excel files)
           = map (fun sheet =>
                    ConvertToCsv.csv_filename (ConvertToCsv.stem excel)
                      (List.length (sheets_of excel)) (fst sheet)) converted
       | sheet :: _ =>
           convertible writable (ConvertToCsv.stem excel)
             (List.length (sheets_of excel)) sheet = false
           /\ snd (ConvertToCsv.convert_excel_to_csv writable excel files) = []
       end.
Proof.
  unfold ConvertToCsv.convert_excel_to_csv, sheets_of.
  destruct (ConvertToCsv.present excel); cbn [negb].
  2:{ exists [], []. cbn. now rewrite app_nil_r. }
  destruct (ConvertToCsv.book excel) as [sheets|].
  2:{ exists [], []. cbn. now rewrite app_nil_r. }
  destruct (convert_sheets_from (ConvertToCsv.stem excel) (List.length sheets)
              sheets files []) as [converted [others [E [C [F S]]]]].
  exists converted, others. split; [exact E|]. split; [exact C|].
  destruct (ConvertToCsv.convert_sheets writable _ _ sheets files [])
    as [files' [created_files|]]; cbn [fst snd] in *.
  - split; [exact F|]. destruct others as [|sheet others].
    + now injection S as ->.
    + now destruct S.
  - split; [exact F|]. destruct others as [|sheet others]; [discriminate S|].
    now destruct S.
Qed.

(** X20. [convert_excel_to_csv] returns all or nothing, but does not
    write all or nothing.  The sheets are converted in order up to the
    first one that cannot be read or written; the CSV files of the sheets
    before it stay written.  The list returned names one file per sheet
    when every sheet was converted, and is empty as soon as one was not,
    or when the file is missing or cannot be opened. *)
Theorem convert_returns_all_or_nothing (excel : ConvertToCsv.excel_input)
    (files : list (str * DataFrame)) :
  exists converted others,
    sheets_of excel = converted ++ others
    /\ forallb (convertible writable (ConvertToCsv.stem excel)
                  (List.length (sheets_of excel))) converted = true
    /\ fst (ConvertToCsv.convert_excel_to_csv writable excel files)
       = files ++ sheet_files (ConvertToCsv.stem excel) (List.length (sheets_of excel))
                    converted
    /\ match others with
       | [] =>
           snd (ConvertToCsv.convert_excel_to_csv writable excel files)
           = map (fun sheet =>
                    ConvertToCsv.csv_filename (ConvertToCsv.stem excel)
                      (List.length (sheets_of excel)) (fst sheet)) converted
       | sheet :: _ =>
           convertible writable (ConvertToCsv.stem excel)
             (List.length (sheets_of excel)) sheet = false
           /\ snd (ConvertToCsv.convert_excel_to_csv writable excel files) = []
       end.
Proof. exact (convert_excel_prefix excel files). Qed.

Lemma created_independent (excel : ConvertToCsv.excel_input)
    (files : list (str * DataFrame)) :
  snd (ConvertToCsv.convert_excel_to_csv writable excel files)
  = created_of writable excel.
Proof.
  unfold created_of.
  destruct (convert_excel_prefix excel files)
    as [c1 [o1 [E1 [C1 [_ S1]]]]].
  destruct (convert_excel_prefix excel [])
    as [c2 [o2 [E2 [C2 [_ S2]]]]].
  set (conv := convertible writable (ConvertToCsv.stem excel)
                 (List.length (sheets_of excel))) in *.
  assert (U : forall a b c d, a ++ b = c ++ d -> forallb conv a = true ->
                forallb conv c = true ->
                match b with x :: _ => conv x = false | [] => True end ->
                match d with x :: _ => conv x = false | [] => True end ->
                a = c /\ b = d).
  { induction a as [|x a IH]; intros b c d E Ca Cc Hb Hd.
    - destruct c as [|y c]; [now split|]. cbn in E. subst b.
      cbn in Cc. apply andb_true_iff in Cc as [Cy _]. congruence.
    - destruct c as [|y c].
      + cbn in E. subst d. cbn in Ca. apply andb_true_iff in Ca as [Cx _]. congruence.
      + cbn in E. injection E as -> E. cbn in Ca, Cc.
        apply andb_true_iff in Ca as [_ Ca]. apply andb_true_iff in Cc as [_ Cc].
        destruct (IH b c d E Ca Cc Hb Hd) as [-> ->]. now split. }
  rewrite E1 in E2.
  destruct (U c1 o1 c2 o2 E2 C1 C2) as [-> ->].
  - destruct o1; [exact I | now destruct S1].
  - destruct o2; [exact I | now destruct S2].
  - destruct o2 as [|sheet o2]; [congruence|].
    destruct S1 as [_ ->]. now destruct S2 as [_ ->].
Qed.

Lemma convert_written (excel : ConvertToCsv.excel_input)
    (files : list (str * DataFrame)) :
  exists done,
    fst (ConvertToCsv.convert_excel_to_csv writable excel files) = files ++ done
    /\ (List.length (created_of writable excel) <= List.length done)%nat.
Proof.
  rewrite <- (created_independent excel files).
  destruct (convert_excel_prefix excel files)
    as [converted [others [E [C [F S]]]]].
  eexists. split; [exact F|].
  destruct others as [|sheet others]; [|destruct S as [_ ->]; apply Nat.le_0_l].
  rewrite S, length_map. clear S E F.
  induction converted as [|[name [df|]] converted IH]; [apply Nat.le_refl| |].
  - cbn in C |- *. apply andb_true_iff in C as [_ C]. specialize (IH C).
    unfold sheet_files in IH. lia.
  - cbn in C. discriminate C.
Qed.

Lemma convert_all_counts (excel_files : list ConvertToCsv.excel_input)
    (files : list (str * DataFrame)) (total_converted total_errors : nat) :
  exists done,
    fst (ConvertToCsv.convert_all writable excel_files files total_converted total_errors)
    = files ++ done
    /\ snd (ConvertToCsv.convert_all writable excel_files files total_converted
              total_errors)
       = ((total_converted
           + list_sum (map (fun excel => List.length (created_of writable excel))
                           excel_files))%nat,
          (total_errors
           + List.length (filter (nothing_created writable) excel_files))%nat)
    /\ (list_sum (map (fun excel => List.length (created_of writable excel)) excel_files)
        <= List.length done)%nat.
Proof.
  revert files total_converted total_errors.
  induction excel_files as [|excel rest IH]; intros files total_converted total_errors.
  - exists []. cbn. rewrite app_nil_r, !Nat.add_0_r. repeat split. apply Nat.le_refl.
  - cbn [ConvertToCsv.convert_all].
    pose proof (created_independent excel files) as Cr.
    destruct (convert_written excel files) as [done1 [F1 L1]].
    destruct (ConvertToCsv.convert_excel_to_csv writable excel files)
      as [files1 created]. cbn [fst snd] in *. subst files1.
    assert (LS : forall a l, list_sum (a :: l) = (a + list_sum l)%nat) by reflexivity.
    cbn [map filter]. rewrite LS. unfold nothing_created at 1. rewrite <- Cr.
    destruct created as [|name created].
    + destruct (IH (files ++ done1) total_converted (total_errors + 1)%nat)
        as [done2 [F2 [S2 L2]]].
      exists (done1 ++ done2). rewrite F2, S2, <- app_assoc.
      split; [reflexivity|]. split.
      * cbn [List.length]. f_equal; lia.
      * rewrite length_app. cbn [List.length]. lia.
    + destruct (IH (files ++ done1)
                  (total_converted + List.length (name :: created))%nat total_errors)
        as [done2 [F2 [S2 L2]]].
      exists (done1 ++ done2). rewrite F2, S2, <- app_assoc.
      split; [reflexivity|]. split.
      * f_equal; lia.
      * rewrite length_app. rewrite <- Cr in L1. lia.
Qed.


End Convert.

Lemma safe_sheet_name_free (sheet_name : str) :
  ~ In "/"%char (ConvertToCsv.safe_sheet_name sheet_name)
  /\ ~ In "\"%char (ConvertToCsv.safe_sheet_name sheet_name).
Proof.
  unfold ConvertToCsv.safe_sheet_name. rewrite map_map.
  split; intros H; apply in_map_iff in H as [c [E _]]; revert E;
    each_char c; vm_compute; discriminate.
Qed.

(** X22. The name of a CSV file holds no path separator other than those
    of the stem of the Excel file: every slash and backslash of the sheet
    name is replaced, so the file is written into the output directory
    itself. *)
Theorem csv_filename_in_directory (stem : str) (n_sheets : nat) (sheet_name : str) :
  ~ In "/"%char stem -> ~ In "/"%char (ConvertToCsv.csv_filename stem n_sheets sheet_name).
Proof.
  intros Hs. unfold ConvertToCsv.csv_filename.
  destruct (n_sheets =? 1)%nat; intros H.
  - apply in_app_or in H as [H|H]; [contradiction|].
    vm_compute in H. intuition discriminate.
  - apply in_app_or in H as [H|H]; [contradiction|].
    apply in_app_or in H as [H|H]; [vm_compute in H; intuition discriminate|].
    apply in_app_or in H as [H|H].
    + now apply (proj1 (safe_sheet_name_free sheet_name)).
    + vm_compute in H. intuition discriminate.
Qed.

Lemma csv_filename_in_directory_witness :
  ~ In "/"%char (ConvertToCsv.csv_filename (lit "wfa") 2 (lit "0/5 years")).
Proof.
  apply (csv_filename_in_directory (lit "wfa") 2 (lit "0/5 years")).
  vm_compute. intuition discriminate.
Defined.

(* ================================================================== *)
(** * The arrays of the sort *)
(* ================================================================== *)

Lemma put_length (a : list nat) (i x : nat) : List.length (put a i x) = List.length a.
Proof.
  revert i; induction a as [|h t IH]; intros [|i]; simpl; auto.
Qed.

Lemma get_put_same (a : list nat) (i x : nat) :
  (i < List.length a)%nat -> get (put a i x) i = x.
Proof.
  unfold get. revert i; induction a as [|h t IH]; intros [|i] H; simpl in *;
    try lia; auto. apply IH. lia.
Qed.

Lemma get_put_other (a : list nat) (i j x : nat) :
  i <> j -> get (put a i x) j = get a j.
Proof.
  unfold get. revert i j; induction a as [|h t IH]; intros [|i] [|j] H; simpl;
    try reflexivity; try lia. apply IH. lia.
Qed.

Lemma array_ext (a b : list nat) :
  List.length a = List.length b ->
  (forall k, (k < List.length a)%nat -> get a k = get b k) -> a = b.
Proof. intros L H. now apply (nth_ext a b O O). Qed.

Lemma put_same (a : list nat) (i : nat) : put a i (get a i) = a.
Proof.
  apply array_ext; [apply put_length|]. intros k Hk. rewrite put_length in Hk.
  destruct (Nat.eq_dec i k) as [->|N].
  - now rewrite get_put_same.
  - now rewrite get_put_other.
Qed.

Lemma swap_length (a : list nat) (i j : nat) :
  List.length (swap a i j) = List.length a.
Proof. unfold swap. now rewrite !put_length. Qed.

Lemma get_swap (a : list nat) (i j k : nat) :
  (i < List.length a)%nat -> (j < List.length a)%nat ->
  get (swap a i j) k
  = if (k =? j)%nat then get a i else if (k =? i)%nat then get a j else get a k.
Proof.
  intros Hi Hj. unfold swap.
  destruct (Nat.eqb_spec k j) as [->|Nj].
  - rewrite get_put_same; [reflexivity | now rewrite put_length].
  - rewrite get_put_other by auto.
    destruct (Nat.eqb_spec k i) as [->|Ni].
    + now rewrite get_put_same.
    + now rewrite get_put_other by auto.
Qed.

Lemma swap_perm (a : list nat) (i j : nat) :
  (i < List.length a)%nat -> (j < List.length a)%nat ->
  Permutation a (swap a i j).
Proof.
  intros Hi Hj. apply (Permutation_nth a (swap a i j) O).
  cbv zeta. split; [apply swap_length|].
  exists (fun k => if (k =? j)%nat then i else if (k =? i)%nat then j else k).
  split; [|split].
  - intros k Hk. destruct (k =? j)%nat; [|destruct (k =? i)%nat]; lia.
  - intros x y Hx Hy.
    destruct (Nat.eqb_spec x j), (Nat.eqb_spec y j),
             (Nat.eqb_spec x i), (Nat.eqb_spec y i); lia.
  - intros k Hk. fold (get (swap a i j) k). rewrite (get_swap a i j k Hi Hj).
    unfold get. destruct (k =? j)%nat; [|destruct (k =? i)%nat]; reflexivity.
Qed.

Lemma same_outside_refl (a : list nat) (lo hi : nat) : same_outside a a lo hi.
Proof. split; reflexivity. Qed.

Lemma same_outside_trans (a b c : list nat) (lo hi : nat) :
  same_outside a b lo hi -> same_outside b c lo hi -> same_outside a c lo hi.
Proof.
  intros [L1 H1] [L2 H2]. split; [congruence|].
  intros k Hk. now rewrite H1, H2.
Qed.

Lemma same_outside_sym (a b : list nat) (lo hi : nat) :
  same_outside a b lo hi -> same_outside b a lo hi.
Proof.
  intros [L H]. split; [congruence|]. intros k Hk. now rewrite H.
Qed.

Lemma same_outside_wider (a b : list nat) (lo hi lo' hi' : nat) :
  (lo' <= lo)%nat -> (hi <= hi')%nat ->
  same_outside a b lo hi -> same_outside a b lo' hi'.
Proof.
  intros Hlo Hhi [L H]. split; [exact L|]. intros k Hk. apply H. lia.
Qed.

Lemma same_outside_put (a : list nat) (i x lo hi : nat) :
  (lo <= i)%nat -> (i <= hi)%nat -> same_outside (put a i x) a lo hi.
Proof.
  intros Hlo Hhi. split; [apply put_length|].
  intros k Hk. apply get_put_other. lia.
Qed.

Lemma same_outside_swap (a : list nat) (i j lo hi : nat) :
  (lo <= i)%nat -> (i <= hi)%nat -> (lo <= j)%nat -> (j <= hi)%nat ->
  same_outside (swap a i j) a lo hi.
Proof.
  intros. unfold swap.
  apply (same_outside_trans _ (put a i (get a j))); now apply same_outside_put.
Qed.

Lemma below_all_perm (n : nat) (a b : list nat) :
  Permutation a b -> below_all n a -> below_all n b.
Proof.
  intros P H k Hk. unfold get.
  assert (I : In (nth k b O) a).
  { apply (Permutation_in _ (Permutation_sym P)). now apply nth_In. }
  apply (In_nth a _ O) in I as [k' [Hk' E]]. rewrite <- E. now apply H.
Qed.

(** What stands in [lo..hi] after a rearrangement of [lo..hi] stood
    there before. *)
Lemma perm_segment (a b : list nat) (lo hi k : nat) :
  Permutation a b -> same_outside b a lo hi ->
  (lo <= k)%nat -> (k <= hi)%nat -> (k < List.length b)%nat ->
  exists k', (lo <= k')%nat /\ (k' <= hi)%nat /\ (k' < List.length a)%nat
             /\ get b k = get a k'.
Proof.
  intros P [L Out] Hlo Hhi Hk.
  set (m := (hi + 1 - lo)%nat).
  assert (Sa : a = firstn lo a ++ firstn m (skipn lo a) ++ skipn m (skipn lo a)).
  { now rewrite !firstn_skipn. }
  assert (Sb : b = firstn lo b ++ firstn m (skipn lo b) ++ skipn m (skipn lo b)).
  { now rewrite !firstn_skipn. }
  assert (E1 : firstn lo b = firstn lo a).
  { apply (nth_ext _ _ O O).
    - rewrite !length_firstn. lia.
    - intros i Hi. rewrite length_firstn in Hi.
      rewrite !nth_firstn.
      destruct (i <? lo)%nat eqn:C; [|reflexivity].
      apply Nat.ltb_lt in C. apply (Out i). lia. }
  assert (E3 : skipn m (skipn lo b) = skipn m (skipn lo a)).
  { apply (nth_ext _ _ O O).
    - rewrite !length_skipn. lia.
    - intros i Hi. rewrite !nth_skipn. apply (Out (lo + (m + i))%nat). lia. }
  rewrite Sa, Sb, E1, E3 in P.
  apply Permutation_app_inv_l, Permutation_app_inv_r in P.
  assert (I : In (get b k) (firstn m (skipn lo b))).
  { assert (G : get b k = nth (k - lo) (firstn m (skipn lo b)) O).
    { rewrite nth_firstn.
      replace (k - lo <? m)%nat with true by (symmetry; apply Nat.ltb_lt; lia).
      rewrite nth_skipn. unfold get. f_equal. lia. }
    rewrite G. apply nth_In. rewrite length_firstn, length_skipn. lia. }
  apply (Permutation_in _ (Permutation_sym P)) in I.
  apply (In_nth _ _ O) in I as [i [Hi E]].
  rewrite length_firstn, length_skipn in Hi.
  rewrite nth_firstn in E.
  replace (i <? m)%nat with true in E by (symmetry; apply Nat.ltb_lt; lia).
  rewrite nth_skipn in E.
  exists (lo + i)%nat. unfold get. rewrite E. repeat split; lia.
Qed.

(* ================================================================== *)
(** * The insertion sort of short segments *)
(* ================================================================== *)

Lemma below_all_put (n : nat) (a : list nat) (i x : nat) :
  below_all n a -> (x < n)%nat -> below_all n (put a i x).
Proof.
  intros H Hx k Hk. rewrite put_length in Hk.
  destruct (Nat.eq_dec i k) as [->|N].
  - now rewrite get_put_same.
  - rewrite get_put_other by exact N. now apply H.
Qed.

(** Moving the element that stands before the gap into the gap swaps
    it with the element held back. *)
Lemma shift_is_swap (a : list nat) (pj vi : nat) :
  (0 < pj)%nat -> (pj < List.length a)%nat ->
  put (put a pj (get a (pj - 1))) (pj - 1) vi = swap (put a pj vi) (pj - 1) pj.
Proof.
  intros H0 H. apply array_ext.
  - now rewrite swap_length, !put_length.
  - intros k Hk. rewrite !put_length in Hk.
    rewrite get_swap by (rewrite put_length; lia).
    destruct (Nat.eqb_spec k pj) as [->|N1].
    + rewrite get_put_other by lia. rewrite get_put_same by exact H.
      rewrite get_put_other by lia. reflexivity.
    + destruct (Nat.eqb_spec k (pj - 1)) as [->|N2].
      * rewrite get_put_same by (rewrite put_length; lia).
        now rewrite get_put_same.
      * now rewrite !get_put_other by lia.
Qed.

Lemma insert_at_frame (less : nat -> nat -> bool) (steps : nat) (a : list nat)
    (pl pj hi vi : nat) :
  (pl <= pj)%nat -> (pj <= hi)%nat -> (hi < List.length a)%nat ->
  Permutation (put a pj vi) (insert_at less steps a pl pj vi)
  /\ same_outside (insert_at less steps a pl pj vi) (put a pj vi) pl hi.
Proof.
  revert a pj; induction steps as [|steps IH]; intros a pj Hl Hh Hlen;
    cbn [insert_at].
  - split; [apply Permutation_refl | apply same_outside_refl].
  - destruct ((pl <? pj)%nat && less vi (get a (pj - 1))) eqn:C;
      [|split; [apply Permutation_refl | apply same_outside_refl]].
    apply andb_true_iff in C as [C _]. apply Nat.ltb_lt in C.
    destruct (IH (put a pj (get a (pj - 1))) (pj - 1)%nat) as [P S];
      try lia; [now rewrite put_length|].
    rewrite shift_is_swap in P, S by lia. split.
    + assert (Q : Permutation (put a pj vi) (swap (put a pj vi) (pj - 1) pj))
        by (apply swap_perm; rewrite put_length; lia).
      exact (Permutation_trans Q P).
    + apply (same_outside_trans _ _ _ _ _ S).
      apply same_outside_swap; lia.
Qed.

(** The inner loop compares the element held back with elements of
    [pl..pj-1] only. *)
Lemma insert_at_ext (less1 less2 : nat -> nat -> bool) (steps : nat) (a : list nat)
    (pl pj vi : nat) :
  (forall k, (pl <= k)%nat -> (k < pj)%nat -> less1 vi (get a k) = less2 vi (get a k)) ->
  insert_at less1 steps a pl pj vi = insert_at less2 steps a pl pj vi.
Proof.
  revert a pj; induction steps as [|steps IH]; intros a pj H; cbn [insert_at];
    [reflexivity|].
  destruct (Nat.ltb_spec pl pj) as [C|C]; cbn [andb]; [|reflexivity].
  rewrite <- (H (pj - 1)%nat) by lia.
  destruct (less1 vi (get a (pj - 1))); [|reflexivity].
  apply IH. intros k Hk1 Hk2. rewrite get_put_other by lia. apply H; lia.
Qed.

Section SortProofs.

Variable less : nat -> nat -> bool.
Variable n : nat.
Hypothesis order : strict_weak_order less n.

Lemma less_irrefl (i : nat) : (i < n)%nat -> less i i = false.
Proof. apply order. Qed.

Lemma less_asym (i j : nat) :
  (i < n)%nat -> (j < n)%nat -> less i j = true -> less j i = false.
Proof.
  intros Hi Hj H. destruct (less j i) eqn:E; [|reflexivity].
  destruct order as [I [T _]].
  rewrite <- (I i Hi). symmetry. exact (T i j i Hi Hj Hi H E).
Qed.

(** [x <= y] and [y <= z] give [x <= z], where [x <= y] is "[y] is not
    below [x]". *)
Lemma not_less_trans (x y z : nat) :
  (x < n)%nat -> (y < n)%nat -> (z < n)%nat ->
  less y x = false -> less z y = false -> less z x = false.
Proof.
  intros Hx Hy Hz H1 H2. destruct order as [_ [_ N]].
  exact (N z y x Hz Hy Hx H2 H1).
Qed.

(** [x <= y] and [y < z] give [x < z]. *)
Lemma not_less_less (x y z : nat) :
  (x < n)%nat -> (y < n)%nat -> (z < n)%nat ->
  less y x = false -> less y z = true -> less x z = true.
Proof.
  intros Hx Hy Hz H1 H2. destruct (less x z) eqn:E; [reflexivity|].
  destruct order as [_ [_ N]].
  rewrite (N y x z Hy Hx Hz H1 E) in H2. discriminate.
Qed.

Lemma insert_at_sorted (steps : nat) (a : list nat) (pl pj hi vi : nat) :
  (pl <= pj)%nat -> (pj <= hi)%nat -> (hi < List.length a)%nat ->
  (pj - pl <= steps)%nat ->
  below_all n a -> (vi < n)%nat ->
  sorted_except less (put a pj vi) pl hi pj ->
  seg_sorted less (insert_at less steps a pl pj vi) pl hi.
Proof.
  revert a pj; induction steps as [|steps IH];
    intros a pj Hl Hh Hlen Hsteps Ha Hvi S; cbn [insert_at].
  - intros i j Hi Hij Hj. apply S; lia.
  - assert (V : below_all n (put a pj vi)) by now apply below_all_put.
    assert (Vk : forall k, (k <= hi)%nat -> (get (put a pj vi) k < n)%nat).
    { intros k Hk. apply V. rewrite put_length. lia. }
    destruct (Nat.ltb_spec pl pj) as [C|C]; cbn [andb].
    2:{ intros i j Hi Hij Hj. apply S; lia. }
    destruct (less vi (get a (pj - 1))) eqn:L.
    + apply IH; [lia | lia | now rewrite put_length | lia | | exact Hvi |].
      * apply below_all_put; [exact Ha|]. apply Ha. lia.
      * rewrite shift_is_swap by lia.
        assert (E1 : get (put a pj vi) pj = vi) by now rewrite get_put_same by lia.
        assert (E2 : get (put a pj vi) (pj - 1) = get a (pj - 1))
          by now rewrite get_put_other by lia.
        intros i j Hi Hij Hj Hne.
        rewrite !get_swap by (rewrite put_length; lia).
        destruct (Nat.eqb_spec j pj) as [->|Nj].
        -- destruct (Nat.eqb_spec i pj) as [->|Ni]; [lia|].
           destruct (Nat.eqb_spec i (pj - 1)) as [->|Ni'].
           ++ rewrite E1, E2. apply less_asym; auto. apply Ha; lia.
           ++ apply S; lia.
        -- destruct (Nat.eqb_spec j (pj - 1)) as [->|Nj']; [lia|].
           destruct (Nat.eqb_spec i pj) as [->|Ni]; [apply S; lia|].
           destruct (Nat.eqb_spec i (pj - 1)) as [->|Ni']; apply S; lia.
    + intros i j Hi Hij Hj.
      destruct (Nat.eq_dec j pj) as [->|Nj]; [|apply S; lia].
      destruct (Nat.eq_dec i (pj - 1)) as [->|Ni].
      * rewrite get_put_same by lia. rewrite get_put_other by lia. exact L.
      * apply (not_less_trans _ (get (put a pj vi) (pj - 1))); try (apply Vk; lia).
        -- apply S; lia.
        -- rewrite get_put_same by lia. rewrite get_put_other by lia. exact L.
Qed.

Lemma insertion_from_sorted (turns : nat) (a : list nat) (pl pi pr : nat) :
  (pl < pi)%nat -> (pi + turns = pr + 1)%nat -> (pr < List.length a)%nat ->
  below_all n a -> seg_sorted less a pl (pi - 1) ->
  seg_sorted less (insertion_from less turns a pl pi) pl pr
  /\ Permutation a (insertion_from less turns a pl pi)
  /\ same_outside (insertion_from less turns a pl pi) a pl pr.
Proof.
  revert a pi; induction turns as [|turns IH]; intros a pi Hl Ht Hlen Ha S;
    cbn [insertion_from].
  - split; [|split; [apply Permutation_refl | apply same_outside_refl]].
    intros i j Hi Hij Hj. apply S; lia.
  - destruct (insert_at_frame less (pi - pl) a pl pi pi (get a pi)) as [P1 O1];
      try lia.
    rewrite put_same in P1, O1.
    assert (S1 : seg_sorted less (insert_at less (pi - pl) a pl pi (get a pi)) pl pi).
    { apply insert_at_sorted; try lia; try exact Ha.
      - apply Ha. lia.
      - rewrite put_same. intros i j Hi Hij Hj Hne. apply S; lia. }
    destruct (IH (insert_at less (pi - pl) a pl pi (get a pi)) (pi + 1)%nat)
      as [S2 [P2 O2]]; try lia.
    + destruct O1 as [L1 _]. lia.
    + exact (below_all_perm _ _ _ P1 Ha).
    + replace (pi + 1 - 1)%nat with pi by lia. exact S1.
    + split; [exact S2|]. split; [exact (Permutation_trans P1 P2)|].
      apply (same_outside_trans _ _ _ _ _ O2).
      apply (same_outside_wider _ _ pl pi); try lia. exact O1.
Qed.

Lemma insertion_sort_sorted (a : list nat) (pl pr : nat) :
  (pl <= pr)%nat -> (pr < List.length a)%nat -> below_all n a ->
  seg_sorted less (insertion_sort less a pl pr) pl pr
  /\ Permutation a (insertion_sort less a pl pr)
  /\ same_outside (insertion_sort less a pl pr) a pl pr.
Proof.
  intros Hl Hlen Ha. unfold insertion_sort.
  apply insertion_from_sorted; try lia; try exact Ha.
  intros i j Hi Hij Hj. lia.
Qed.


(** ** The partition around the median of three *)

Lemma below_all_swap (a : list nat) (i j : nat) :
  (i < List.length a)%nat -> (j < List.length a)%nat ->
  below_all n a -> below_all n (swap a i j).
Proof.
  intros Hi Hj. apply below_all_perm. now apply swap_perm.
Qed.

(** [if (v[tosort[i]] < v[tosort[j]]) swap] : afterwards the key at [i]
    is not below the key at [j]. *)
Lemma ordered_swap (a : list nat) (i j : nat) :
  (i < List.length a)%nat -> (j < List.length a)%nat -> i <> j -> below_all n a ->
  less (get (if less (get a i) (get a j) then swap a i j else a) i)
       (get (if less (get a i) (get a j) then swap a i j else a) j) = false.
Proof.
  intros Hi Hj Hne Ha. destruct (less (get a i) (get a j)) eqn:E; [|exact E].
  rewrite !get_swap by assumption.
  rewrite Nat.eqb_refl.
  destruct (Nat.eqb_spec i j) as [->|_]; [contradiction|].
  destruct (Nat.eqb_spec j i) as [->|_]; [contradiction|]. rewrite Nat.eqb_refl.
  apply less_asym; auto.
Qed.

Lemma median_of_three_spec (a : list nat) (pl pm pr : nat) :
  (pl < pm)%nat -> (pm < pr)%nat -> (pr < List.length a)%nat -> below_all n a ->
  Permutation a (median_of_three less a pl pm pr)
  /\ same_outside (median_of_three less a pl pm pr) a pl pr
  /\ less (get (median_of_three less a pl pm pr) pm)
          (get (median_of_three less a pl pm pr) pl) = false
  /\ less (get (median_of_three less a pl pm pr) pr)
          (get (median_of_three less a pl pm pr) pm) = false.
Proof.
  intros H1 H2 Hlen Ha. unfold median_of_three.
  set (a1 := if less (get a pm) (get a pl) then swap a pm pl else a).
  assert (L1 : List.length a1 = List.length a).
  { unfold a1. destruct (less (get a pm) (get a pl));
      [apply swap_length | reflexivity]. }
  assert (P1 : Permutation a a1).
  { unfold a1. destruct (less (get a pm) (get a pl));
      [apply swap_perm; lia | apply Permutation_refl]. }
  assert (O1 : same_outside a1 a pl pr).
  { unfold a1. destruct (less (get a pm) (get a pl));
      [apply same_outside_swap; lia | apply same_outside_refl]. }
  assert (B1 : below_all n a1) by exact (below_all_perm _ _ _ P1 Ha).
  assert (M1 : less (get a1 pm) (get a1 pl) = false).
  { unfold a1. apply ordered_swap; auto; lia. }
  set (a2 := if less (get a1 pr) (get a1 pm) then swap a1 pr pm else a1).
  assert (L2 : List.length a2 = List.length a).
  { unfold a2. destruct (less (get a1 pr) (get a1 pm));
      [rewrite swap_length|]; exact L1. }
  assert (P2 : Permutation a1 a2).
  { unfold a2. destruct (less (get a1 pr) (get a1 pm));
      [apply swap_perm; lia | apply Permutation_refl]. }
  assert (O2 : same_outside a2 a1 pl pr).
  { unfold a2. destruct (less (get a1 pr) (get a1 pm));
      [apply same_outside_swap; lia | apply same_outside_refl]. }
  assert (B2 : below_all n a2) by exact (below_all_perm _ _ _ P2 B1).
  assert (M2 : less (get a2 pr) (get a2 pm) = false).
  { unfold a2. apply ordered_swap; auto; lia. }
  assert (K2 : get a2 pl = get a1 pl).
  { unfold a2. destruct (less (get a1 pr) (get a1 pm)); [|reflexivity].
    rewrite get_swap by lia.
    destruct (Nat.eqb_spec pl pm); [lia|]. destruct (Nat.eqb_spec pl pr); [lia|].
    reflexivity. }
  assert (C2 : (a2 = a1 /\ less (get a1 pr) (get a1 pm) = false)
               \/ (get a2 pr = get a1 pm /\ get a2 pm = get a1 pr)).
  { unfold a2. destruct (less (get a1 pr) (get a1 pm)) eqn:E; [right | now left].
    rewrite !get_swap by lia. rewrite !Nat.eqb_refl.
    destruct (Nat.eqb_spec pr pm); [lia|]. destruct (Nat.eqb_spec pm pr); [lia|].
    now split. }
  set (a3 := if less (get a2 pm) (get a2 pl) then swap a2 pm pl else a2).
  assert (P3 : Permutation a2 a3).
  { unfold a3. destruct (less (get a2 pm) (get a2 pl));
      [apply swap_perm; lia | apply Permutation_refl]. }
  assert (O3 : same_outside a3 a2 pl pr).
  { unfold a3. destruct (less (get a2 pm) (get a2 pl));
      [apply same_outside_swap; lia | apply same_outside_refl]. }
  split; [exact (Permutation_trans P1 (Permutation_trans P2 P3))|].
  split; [exact (same_outside_trans _ _ _ _ _ O3 (same_outside_trans _ _ _ _ _ O2 O1))|].
  split; [unfold a3; apply ordered_swap; auto; lia|].
  unfold a3. destruct (less (get a2 pm) (get a2 pl)) eqn:E; [|exact M2].
  rewrite !get_swap by lia.
  destruct (Nat.eqb_spec pr pl); [lia|]. destruct (Nat.eqb_spec pr pm); [lia|].
  destruct (Nat.eqb_spec pm pl); [lia|]. rewrite Nat.eqb_refl.
  destruct C2 as [[E2 _] | [E2 E2']].
  - rewrite E2 in E. congruence.
  - rewrite E2, K2. exact M1.
Qed.

Lemma scan_up_spec (steps : nat) (a : list nat) (vp pi bound : nat) :
  (pi < bound)%nat -> less (get a bound) vp = false -> (bound - pi <= steps)%nat ->
  (pi < scan_up less steps a vp pi)%nat
  /\ (scan_up less steps a vp pi <= bound)%nat
  /\ less (get a (scan_up less steps a vp pi)) vp = false
  /\ forall k, (pi < k)%nat -> (k < scan_up less steps a vp pi)%nat ->
       less (get a k) vp = true.
Proof.
  revert pi; induction steps as [|steps IH]; intros pi H1 H2 H3; [lia|].
  cbn [scan_up]. destruct (less (get a (pi + 1)) vp) eqn:E.
  - assert (N : (pi + 1)%nat <> bound) by (intros <-; congruence).
    destruct (IH (pi + 1)%nat) as [A [B [C D]]]; try lia; [exact H2|].
    split; [lia|]. split; [lia|]. split; [exact C|].
    intros k Hk1 Hk2. destruct (Nat.eq_dec k (pi + 1)) as [->|N']; [exact E|].
    apply D; lia.
  - split; [lia|]. split; [lia|]. split; [exact E|]. intros k Hk1 Hk2. lia.
Qed.

Lemma scan_down_spec (steps : nat) (a : list nat) (vp pj bound : nat) :
  (bound < pj)%nat -> less vp (get a bound) = false -> (pj - bound <= steps)%nat ->
  (bound <= scan_down less steps a vp pj)%nat
  /\ (scan_down less steps a vp pj < pj)%nat
  /\ less vp (get a (scan_down less steps a vp pj)) = false
  /\ forall k, (scan_down less steps a vp pj < k)%nat -> (k < pj)%nat ->
       less vp (get a k) = true.
Proof.
  revert pj; induction steps as [|steps IH]; intros pj H1 H2 H3; [lia|].
  cbn [scan_down]. destruct (less vp (get a (pj - 1))) eqn:E.
  - assert (N : (pj - 1)%nat <> bound) by (intros <-; congruence).
    destruct (IH (pj - 1)%nat) as [A [B [C D]]]; try lia; [exact H2|].
    split; [lia|]. split; [lia|]. split; [exact C|].
    intros k Hk1 Hk2. destruct (Nat.eq_dec k (pj - 1)) as [->|N']; [exact E|].
    apply D; lia.
  - split; [lia|]. split; [lia|]. split; [exact E|]. intros k Hk1 Hk2. lia.
Qed.

Lemma partition_loop_spec (turns : nat) (a : list nat) (vp pi pj pl pr : nat) :
  (pl <= pi)%nat -> (pi < pj)%nat -> (pj <= pr - 1)%nat -> (pr < List.length a)%nat ->
  below_all n a -> (vp < n)%nat -> (pj - pi <= turns)%nat ->
  (forall k, (pl <= k)%nat -> (k <= pi)%nat -> less vp (get a k) = false) ->
  (forall k, (pj <= k)%nat -> (k <= pr)%nat -> less (get a k) vp = false) ->
  get a (pr - 1) = vp ->
  (pi < snd (partition_loop less turns a vp pi pj))%nat
  /\ (snd (partition_loop less turns a vp pi pj) <= pr - 1)%nat
  /\ Permutation a (fst (partition_loop less turns a vp pi pj))
  /\ same_outside (fst (partition_loop less turns a vp pi pj)) a pl pr
  /\ get (fst (partition_loop less turns a vp pi pj)) (pr - 1) = vp
  /\ (forall k, (pl <= k)%nat -> (k < snd (partition_loop less turns a vp pi pj))%nat ->
        less vp (get (fst (partition_loop less turns a vp pi pj)) k) = false)
  /\ (forall k, (snd (partition_loop less turns a vp pi pj) <= k)%nat -> (k <= pr)%nat ->
        less (get (fst (partition_loop less turns a vp pi pj)) k) vp = false).
Proof.
  revert a pi pj; induction turns as [|turns IH];
    intros a pi pj H1 H2 H3 Hlen Ha Hvp Ht Lo Hi Piv; [lia|].
  cbn [partition_loop].
  destruct (scan_up_spec (List.length a) a vp pi pj) as [U1 [U2 [U3 U4]]];
    try lia; [apply Hi; lia|].
  destruct (scan_down_spec (List.length a) a vp pj pi) as [D1 [D2 [D3 D4]]];
    try lia; [apply Lo; lia|].
  set (pi' := scan_up less (List.length a) a vp pi) in *.
  set (pj' := scan_down less (List.length a) a vp pj) in *.
  assert (Lo' : forall k, (pl <= k)%nat -> (k < pi')%nat -> less vp (get a k) = false).
  { intros k Hk1 Hk2. destruct (Nat.le_gt_cases k pi) as [C|C]; [now apply Lo|].
    apply less_asym; auto. apply Ha. lia. }
  assert (Hi' : forall k, (pj' < k)%nat -> (k <= pr)%nat -> less (get a k) vp = false).
  { intros k Hk1 Hk2. destruct (Nat.le_gt_cases pj k) as [C|C]; [now apply Hi|].
    apply less_asym; auto. apply Ha. lia. }
  destruct (Nat.leb_spec pj' pi') as [C|C]; cbn [fst snd].
  - split; [lia|]. split; [lia|]. split; [apply Permutation_refl|].
    split; [apply same_outside_refl|]. split; [exact Piv|]. split; [exact Lo'|].
    intros k Hk1 Hk2. destruct (Nat.eq_dec k pi') as [->|N]; [exact U3|].
    apply Hi'; lia.
  - assert (Ps : Permutation a (swap a pi' pj')) by (apply swap_perm; lia).
    assert (Gs : forall k, get (swap a pi' pj') k
                 = if (k =? pj')%nat then get a pi'
                   else if (k =? pi')%nat then get a pj' else get a k).
    { intros k. apply get_swap; lia. }
    destruct (IH (swap a pi' pj') pi' pj') as [R1 [R2 [R3 [R4 [R5 [R6 R7]]]]]];
      [lia | lia | lia | rewrite swap_length; lia
      | exact (below_all_perm _ _ _ Ps Ha) | exact Hvp | lia | | | |].
    + intros k Hk1 Hk2. rewrite Gs.
      destruct (Nat.eqb_spec k pj'); [lia|].
      destruct (Nat.eqb_spec k pi'); [exact D3 | apply Lo'; lia].
    + intros k Hk1 Hk2. rewrite Gs.
      destruct (Nat.eqb_spec k pj'); [exact U3|].
      destruct (Nat.eqb_spec k pi'); [lia | apply Hi'; lia].
    + rewrite Gs. destruct (Nat.eqb_spec (pr - 1) pj'); [lia|].
      destruct (Nat.eqb_spec (pr - 1) pi'); [lia | exact Piv].
    + split; [lia|]. split; [exact R2|].
      split; [exact (Permutation_trans Ps R3)|].
      split; [|split; [exact R5 | split; [exact R6 | exact R7]]].
      apply (same_outside_trans _ _ _ _ _ R4). apply same_outside_swap; lia.
Qed.

Lemma partition_spec (a : list nat) (pl pr : nat) :
  (pl + 2 < pr)%nat -> (pr < List.length a)%nat -> below_all n a ->
  (pl < snd (partition less a pl pr))%nat
  /\ (snd (partition less a pl pr) < pr)%nat
  /\ Permutation a (fst (partition less a pl pr))
  /\ same_outside (fst (partition less a pl pr)) a pl pr
  /\ (forall k, (pl <= k)%nat -> (k < snd (partition less a pl pr))%nat ->
        less (get (fst (partition less a pl pr)) (snd (partition less a pl pr)))
             (get (fst (partition less a pl pr)) k) = false)
  /\ (forall k, (snd (partition less a pl pr) < k)%nat -> (k <= pr)%nat ->
        less (get (fst (partition less a pl pr)) k)
             (get (fst (partition less a pl pr)) (snd (partition less a pl pr))) = false).
Proof.
  intros H Hlen Ha. unfold partition.
  set (pm := (pl + (pr - pl) / 2)%nat).
  assert (Hm : (pl < pm)%nat /\ (pm < pr - 1)%nat).
  { unfold pm. pose proof (Nat.div_mod_eq (pr - pl) 2) as E.
    pose proof (Nat.mod_upper_bound (pr - pl) 2). lia. }
  destruct (median_of_three_spec a pl pm pr) as [P1 [O1 [M1 M2]]]; try lia;
    [exact Ha|].
  set (a1 := median_of_three less a pl pm pr) in *.
  assert (L1 : List.length a1 = List.length a) by apply O1.
  assert (B1 : below_all n a1) by exact (below_all_perm _ _ _ P1 Ha).
  set (vp := get a1 pm).
  assert (P2 : Permutation a1 (swap a1 pm (pr - 1))) by (apply swap_perm; lia).
  assert (G2 : forall k, get (swap a1 pm (pr - 1)) k
               = if (k =? pr - 1)%nat then get a1 pm
                 else if (k =? pm)%nat then get a1 (pr - 1) else get a1 k).
  { intros k. apply get_swap; lia. }
  set (a2 := swap a1 pm (pr - 1)) in *.
  assert (L2 : List.length a2 = List.length a).
  { unfold a2. now rewrite swap_length. }
  assert (B2 : below_all n a2) by exact (below_all_perm _ _ _ P2 B1).
  assert (Hvp : (vp < n)%nat) by (apply B1; lia).
  destruct (partition_loop_spec (List.length a2) a2 vp pl (pr - 1) pl pr)
    as [R1 [R2 [R3 [R4 [R5 [R6 R7]]]]]];
    [lia | lia | lia | lia | exact B2 | exact Hvp | lia | | | |].
  - intros k Hk1 Hk2. replace k with pl by lia. rewrite G2.
    destruct (Nat.eqb_spec pl (pr - 1)); [lia|].
    destruct (Nat.eqb_spec pl pm); [lia | exact M1].
  - intros k Hk1 Hk2. rewrite G2.
    destruct (Nat.eqb_spec k (pr - 1)); [now apply less_irrefl|].
    replace k with pr by lia. destruct (Nat.eqb_spec pr pm); [lia | exact M2].
  - rewrite G2. now rewrite Nat.eqb_refl.
  - destruct (partition_loop less (List.length a2) a2 vp pl (pr - 1)) as [r pi].
    cbn [fst snd] in *.
    assert (Lr : List.length r = List.length a) by (destruct R4; lia).
    assert (G3 : forall k, get (swap r pi (pr - 1)) k
                 = if (k =? pr - 1)%nat then get r pi
                   else if (k =? pi)%nat then get r (pr - 1) else get r k).
    { intros k. apply get_swap; lia. }
    split; [lia|]. split; [lia|]. split.
    { apply (Permutation_trans P1), (Permutation_trans P2), (Permutation_trans R3).
      apply swap_perm; lia. }
    split.
    { apply (same_outside_trans _ r); [apply same_outside_swap; lia|].
      apply (same_outside_trans _ _ _ _ _ R4).
      apply (same_outside_trans _ a1); [apply same_outside_swap; lia | exact O1]. }
    assert (Epi : get (swap r pi (pr - 1)) pi = vp).
    { rewrite G3. destruct (Nat.eqb_spec pi (pr - 1)) as [->|N]; [exact R5|].
      rewrite Nat.eqb_refl. exact R5. }
    rewrite Epi. split.
    + intros k Hk1 Hk2. rewrite G3.
      destruct (Nat.eqb_spec k (pr - 1)); [lia|].
      destruct (Nat.eqb_spec k pi); [lia|]. apply R6; lia.
    + intros k Hk1 Hk2. rewrite G3.
      destruct (Nat.eqb_spec k (pr - 1)); [apply R7; lia|].
      destruct (Nat.eqb_spec k pi); [lia|]. apply R7; lia.
Qed.

Lemma seg_sorted_same (a b : list nat) (lo hi : nat) :
  (forall k, (lo <= k)%nat -> (k <= hi)%nat -> get b k = get a k) ->
  seg_sorted less a lo hi -> seg_sorted less b lo hi.
Proof.
  intros E S i j Hi Hij Hj. rewrite !E by lia. now apply S.
Qed.

Lemma join_sorted (r : list nat) (pl pi pr : nat) :
  (pr < List.length r)%nat -> below_all n r ->
  seg_sorted less r pl (pi - 1) -> seg_sorted less r (pi + 1) pr ->
  (forall k, (pl <= k)%nat -> (k < pi)%nat -> less (get r pi) (get r k) = false) ->
  (forall k, (pi < k)%nat -> (k <= pr)%nat -> less (get r k) (get r pi) = false) ->
  seg_sorted less r pl pr.
Proof.
  intros Hlen Hr S1 S2 Lo Hi i j Hi1 Hij Hj.
  destruct (Nat.lt_trichotomy j pi) as [C|[->|C]].
  - apply S1; lia.
  - apply Lo; lia.
  - destruct (Nat.lt_trichotomy i pi) as [D|[->|D]].
    + apply (not_less_trans _ (get r pi)); try (apply Hr; lia).
      * apply Lo; lia.
      * apply Hi; lia.
    + apply Hi; lia.
    + apply S2; lia.
Qed.


(** ** The heapsort of a segment whose depth budget is spent *)

(** Filling the gap at [p] from [q] and putting [v] at [q] swaps [p] and
    [q] in the array that has [v] in the gap. *)
Lemma move_is_swap (a : list nat) (p q v : nat) :
  (p < List.length a)%nat -> (q < List.length a)%nat -> p <> q ->
  put (put a p (get a q)) q v = swap (put a p v) p q.
Proof.
  intros Hp Hq Hne. apply array_ext.
  - now rewrite swap_length, !put_length.
  - intros k Hk. rewrite !put_length in Hk.
    rewrite get_swap by (rewrite put_length; lia).
    destruct (Nat.eqb_spec k q) as [->|N1].
    + rewrite get_put_same by (rewrite put_length; lia).
      now rewrite get_put_same.
    + rewrite get_put_other by lia.
      destruct (Nat.eqb_spec k p) as [->|N2].
      * rewrite get_put_same by lia. now rewrite get_put_other by lia.
      * now rewrite !get_put_other by lia.
Qed.

Lemma sift_frame (steps : nat) (a : list nat) (pl size tmp i : nat) :
  (1 <= i)%nat -> (i <= size)%nat -> (pl + size <= List.length a)%nat ->
  Permutation (put a (pl + i - 1) tmp) (sift less steps a pl size tmp i (i + i))
  /\ same_outside (sift less steps a pl size tmp i (i + i))
       (put a (pl + i - 1) tmp) pl (pl + size - 1).
Proof.
  revert a i; induction steps as [|steps IH]; intros a i H1 H2 Hlen; cbn [sift].
  - split; [apply Permutation_refl | apply same_outside_refl].
  - destruct (Nat.leb_spec (i + i) size) as [C|C];
      [|split; [apply Permutation_refl | apply same_outside_refl]].
    set (j := if ((i + i <? size)%nat
                  && less (get a (pl + (i + i) - 1)) (get a (pl + (i + i))))
              then (i + i + 1)%nat else (i + i)%nat).
    assert (Hj : (j = i + i \/ j = i + i + 1)%nat /\ (j <= size)%nat).
    { unfold j. destruct (Nat.ltb_spec (i + i) size); cbn [andb];
        [destruct (less _ _)|]; lia. }
    destruct (less tmp (get a (pl + j - 1)));
      [|split; [apply Permutation_refl | apply same_outside_refl]].
    destruct (IH (put a (pl + i - 1) (get a (pl + j - 1))) j) as [P Sf];
      try lia; [now rewrite put_length|].
    rewrite move_is_swap in P, Sf by lia.
    split.
    + assert (Q : Permutation (put a (pl + i - 1) tmp)
                    (swap (put a (pl + i - 1) tmp) (pl + i - 1) (pl + j - 1)))
        by (apply swap_perm; rewrite put_length; lia).
      exact (Permutation_trans Q P).
    + apply (same_outside_trans _ _ _ _ _ Sf). apply same_outside_swap; lia.
Qed.

Lemma sift_heap (steps : nat) (a : list nat) (pl size tmp i l0 : nat) :
  (1 <= l0)%nat -> (l0 <= i)%nat -> (i <= size)%nat ->
  (pl + size <= List.length a)%nat -> below_all n a -> (tmp < n)%nat ->
  (size + 1 - (i + i) <= steps)%nat ->
  heap_from less a pl size (if (i =? l0)%nat then l0 + 1 else l0)%nat ->
  (forall p, (i = p + p \/ i = p + p + 1)%nat -> (l0 <= p)%nat ->
     less (get a (pl + p - 1)) tmp = false) ->
  heap_from less (sift less steps a pl size tmp i (i + i)) pl size l0.
Proof.
  revert a i; induction steps as [|steps IH];
    intros a i H0 H1 H2 Hlen Ha Htmp Hsteps Heap Parent.
  - (* no child is left *)
    cbn [sift]. intros p c Hp Hc Hcs.
    destruct (Nat.eq_dec p i) as [->|Np]; [lia|].
    destruct (Nat.eq_dec c i) as [->|Nc].
    + rewrite get_put_same by lia. rewrite get_put_other by lia.
      now apply Parent.
    + rewrite !get_put_other by lia. apply Heap; try assumption.
      destruct (Nat.eqb_spec i l0); lia.
  - cbn [sift].
    assert (Done : forall b,
              (forall c, (c = i + i \/ c = i + i + 1)%nat -> (c <= size)%nat ->
                 less tmp (get a (pl + c - 1)) = false) ->
              b = put a (pl + i - 1) tmp -> heap_from less b pl size l0).
    { intros b Children ->. intros p c Hp Hc Hcs.
      destruct (Nat.eq_dec p i) as [->|Np].
      - rewrite get_put_same by lia. rewrite get_put_other by lia.
        now apply Children.
      - destruct (Nat.eq_dec c i) as [->|Nc].
        + rewrite get_put_same by lia. rewrite get_put_other by lia.
          now apply Parent.
        + rewrite !get_put_other by lia. apply Heap; try assumption.
          destruct (Nat.eqb_spec i l0); lia. }
    destruct (Nat.leb_spec (i + i) size) as [C|C].
    2:{ apply (Done _); [|reflexivity]. intros c Hc Hcs. lia. }
    set (j := if ((i + i <? size)%nat
                  && less (get a (pl + (i + i) - 1)) (get a (pl + (i + i))))
              then (i + i + 1)%nat else (i + i)%nat).
    assert (Hj : (j = i + i \/ j = i + i + 1)%nat /\ (j <= size)%nat).
    { unfold j. destruct (Nat.ltb_spec (i + i) size); cbn [andb];
        [destruct (less _ _)|]; lia. }
    assert (V : forall c, (1 <= c)%nat -> (c <= size)%nat -> (get a (pl + c - 1) < n)%nat).
    { intros c Hc1 Hc2. apply Ha. lia. }
    (* the child at [j] is not below the other child *)
    assert (Larger : forall c, (c = i + i \/ c = i + i + 1)%nat -> (c <= size)%nat ->
                       less (get a (pl + j - 1)) (get a (pl + c - 1)) = false).
    { intros c Hc Hcs. unfold j.
      destruct (Nat.ltb_spec (i + i) size) as [D|D]; cbn [andb].
      - destruct (less (get a (pl + (i + i) - 1)) (get a (pl + (i + i)))) eqn:E.
        + destruct Hc as [-> | ->].
          * replace (pl + (i + i + 1) - 1)%nat with (pl + (i + i))%nat by lia.
            apply less_asym; auto; try (apply Ha; lia).
          * apply less_irrefl. apply Ha. lia.
        + destruct Hc as [-> | ->].
          * apply less_irrefl. apply Ha. lia.
          * replace (pl + (i + i + 1) - 1)%nat with (pl + (i + i))%nat by lia.
            exact E.
      - replace c with (i + i)%nat by lia. apply less_irrefl. apply Ha. lia. }
    destruct (less tmp (get a (pl + j - 1))) eqn:E.
    + apply IH; [lia | lia | lia | now rewrite put_length | | exact Htmp | lia | |].
      * apply below_all_put; [exact Ha | apply V; lia].
      * destruct (Nat.eqb_spec j l0) as [->|_]; [lia|].
        intros p c Hp Hc Hcs.
        destruct (Nat.eq_dec p i) as [->|Np].
        -- rewrite get_put_same by lia. rewrite get_put_other by lia.
           now apply Larger.
        -- destruct (Nat.eq_dec c i) as [->|Nc].
           ++ rewrite get_put_same by lia. rewrite get_put_other by lia.
              destruct (Nat.eqb_spec i l0) as [->|_]; [lia|].
              apply (not_less_trans _ (get a (pl + i - 1))); try (apply V; lia).
              ** apply Heap; [lia | lia | lia].
              ** apply Heap; [lia | exact Hc | lia].
           ++ rewrite !get_put_other by lia. apply Heap; try assumption.
              destruct (Nat.eqb_spec i l0); lia.
      * intros p Hp Hl. replace p with i by lia.
        rewrite get_put_same by lia. apply less_asym; auto. apply V; lia.
    + apply (Done _); [|reflexivity]. intros c Hc Hcs.
      apply (not_less_trans _ (get a (pl + j - 1))); try (apply V; lia); auto.
Qed.

Lemma build_heap_spec (l : nat) (a : list nat) (pl size : nat) :
  (l + l <= size)%nat -> (pl + size <= List.length a)%nat -> below_all n a ->
  heap_from less a pl size (l + 1) ->
  heap_from less (build_heap less l a pl size) pl size 1
  /\ Permutation a (build_heap less l a pl size)
  /\ same_outside (build_heap less l a pl size) a pl (pl + size - 1).
Proof.
  revert a; induction l as [|l IH]; intros a Hl Hlen Ha Heap.
  - cbn [build_heap]. split; [exact Heap|].
    split; [apply Permutation_refl | apply same_outside_refl].
  - cbn [build_heap].
    destruct (sift_frame size a pl size (get a (pl + S l - 1)) (S l)) as [P Sf];
      try lia.
    rewrite put_same in P, Sf.
    set (a1 := sift less size a pl size (get a (pl + S l - 1)) (S l) (S l + S l)) in *.
    assert (H1 : heap_from less a1 pl size (l + 1)).
    { replace (l + 1)%nat with (S l) by lia. unfold a1.
      apply sift_heap;
        [lia | lia | lia | lia | exact Ha | apply Ha; lia | lia | |].
      - rewrite Nat.eqb_refl. exact Heap.
      - intros p Hp Hlp. lia. }
    destruct (IH a1) as [R1 [R2 R3]];
      [lia | destruct Sf as [L _]; lia | exact (below_all_perm _ _ _ P Ha)
      | exact H1 |].
    split; [exact R1|]. split; [exact (Permutation_trans P R2)|].
      exact (same_outside_trans _ _ _ _ _ R3 Sf).
Qed.

(** The root of a heap holds a key that none of the heap is above. *)
Lemma heap_root (a : list nat) (pl size : nat) :
  (pl + size <= List.length a)%nat -> below_all n a ->
  heap_from less a pl size 1 ->
  forall h, (1 <= h)%nat -> (h <= size)%nat ->
    less (get a pl) (get a (pl + h - 1)) = false.
Proof.
  intros Hlen Ha Heap h. induction h as [h IH] using lt_wf_ind. intros H1 H2.
  destruct (Nat.eq_dec h 1) as [->|N].
  - replace (pl + 1 - 1)%nat with pl by lia. apply less_irrefl. apply Ha. lia.
  - pose proof (Nat.div_mod_eq h 2) as E.
    pose proof (Nat.mod_upper_bound h 2 ltac:(lia)) as B.
    set (p := (h / 2)%nat) in *.
    apply (not_less_trans _ (get a (pl + p - 1))); try (apply Ha; lia).
    + apply Heap; lia.
    + apply IH; lia.
Qed.

Lemma drain_heap_spec (turns : nat) (a : list nat) (pl size total : nat) :
  (size <= total)%nat -> (pl + total <= List.length a)%nat -> (1 <= total)%nat ->
  (size <= turns + 1)%nat -> below_all n a ->
  heap_from less a pl size 1 ->
  seg_sorted less a (pl + size) (pl + total - 1) ->
  (forall h t, (1 <= h)%nat -> (h <= size)%nat -> (size < t)%nat -> (t <= total)%nat ->
     less (get a (pl + t - 1)) (get a (pl + h - 1)) = false) ->
  seg_sorted less (drain_heap less turns a pl size) pl (pl + total - 1)
  /\ Permutation a (drain_heap less turns a pl size)
  /\ same_outside (drain_heap less turns a pl size) a pl (pl + total - 1).
Proof.
  revert a size; induction turns as [|turns IH];
    intros a size Hs Hlen Ht Hturns Ha Heap Tail Bound.
  - cbn [drain_heap]. split; [|split; [apply Permutation_refl | apply same_outside_refl]].
    intros i j Hi Hij Hj. destruct (Nat.le_gt_cases (pl + size) i) as [C|C].
    + apply Tail; lia.
    + replace (get a j) with (get a (pl + (j - pl + 1) - 1)) by (f_equal; lia).
      replace (get a i) with (get a (pl + (i - pl + 1) - 1)) by (f_equal; lia).
      apply Bound; lia.
  - cbn [drain_heap]. destruct (Nat.ltb_spec 1 size) as [C|C].
    2:{ split; [|split; [apply Permutation_refl | apply same_outside_refl]].
        intros i j Hi Hij Hj. destruct (Nat.le_gt_cases (pl + size) i) as [D|D].
        - apply Tail; lia.
        - replace (get a j) with (get a (pl + (j - pl + 1) - 1)) by (f_equal; lia).
          replace (get a i) with (get a (pl + (i - pl + 1) - 1)) by (f_equal; lia).
          apply Bound; lia. }
    set (tmp := get a (pl + size - 1)).
    set (a1 := put a (pl + size - 1) (get a pl)).
    assert (L1 : List.length a1 = List.length a) by apply put_length.
    assert (B1 : below_all n a1).
    { apply below_all_put; [exact Ha | apply Ha; lia]. }
    destruct (sift_frame size a1 pl (size - 1) tmp 1) as [P Sf]; try lia.
    replace (pl + 1 - 1)%nat with pl in P, Sf by lia.
    assert (E : put a1 pl tmp = swap a (pl + size - 1) pl).
    { unfold a1, tmp. rewrite move_is_swap by lia. now rewrite put_same. }
    rewrite E in P, Sf.
    assert (Gs : forall k, get (swap a (pl + size - 1) pl) k
                 = if (k =? pl)%nat then get a (pl + size - 1)
                   else if (k =? pl + size - 1)%nat then get a pl else get a k).
    { intros k. apply get_swap; lia. }
    assert (Ps : Permutation a (swap a (pl + size - 1) pl)) by (apply swap_perm; lia).
    set (r := sift less size a1 pl (size - 1) tmp 1 (1 + 1)) in *.
    assert (Lr : List.length r = List.length a).
    { destruct Sf as [L _]. rewrite L, swap_length. reflexivity. }
    assert (Br : below_all n r).
    { apply (below_all_perm _ _ _ P). exact (below_all_perm _ _ _ Ps Ha). }
    assert (Hr : heap_from less r pl (size - 1) 1).
    { unfold r. apply sift_heap;
        [lia | lia | lia | lia | exact B1 | apply Ha; lia | lia | |].
      - cbn [Nat.eqb]. intros p c Hp Hc Hcs. unfold a1.
        rewrite !get_put_other by lia. apply Heap; lia.
      - intros p Hp Hl. lia. }
    (* what stands behind the heap after the turn *)
    assert (Out : forall k, (pl + size - 1 <= k)%nat ->
                    get r k = if (k =? pl + size - 1)%nat then get a pl else get a k).
    { intros k Hk. destruct Sf as [_ Sg]. rewrite Sg by lia. rewrite Gs.
      destruct (Nat.eqb_spec k pl); [lia | reflexivity]. }
    (* what stands in the heap stood in the heap before *)
    assert (In_heap : forall h, (1 <= h)%nat -> (h <= size - 1)%nat ->
                        exists h', (1 <= h')%nat /\ (h' <= size)%nat
                                   /\ get r (pl + h - 1) = get a (pl + h' - 1)).
    { intros h Hh1 Hh2.
      destruct (perm_segment _ r pl (pl + (size - 1) - 1) (pl + h - 1) P Sf)
        as [k' [K1 [K2 [K3 K4]]]]; try lia.
      rewrite K4, Gs. destruct (Nat.eqb_spec k' pl) as [->|N1].
      - exists size. repeat split; lia.
      - destruct (Nat.eqb_spec k' (pl + size - 1)) as [->|N2]; [lia|].
        exists (k' - pl + 1)%nat. repeat split; try lia. f_equal. lia. }
    destruct (IH r (size - 1)%nat) as [R1 [R2 R3]];
      [lia | lia | lia | lia | exact Br | exact Hr | | |].
    + replace (pl + (size - 1))%nat with (pl + size - 1)%nat by lia.
      intros i j Hi Hij Hj. rewrite !Out by lia.
      destruct (Nat.eqb_spec j (pl + size - 1)); [lia|].
      destruct (Nat.eqb_spec i (pl + size - 1)) as [->|Ni].
      * replace (get a j) with (get a (pl + (j - pl + 1) - 1)) by (f_equal; lia).
        replace (get a pl) with (get a (pl + 1 - 1)) by (f_equal; lia).
        apply Bound; lia.
      * apply Tail; lia.
    + intros h t Hh1 Hh2 Ht1 Ht2.
      destruct (In_heap h Hh1 Hh2) as [h' [A1 [A2 ->]]].
      rewrite Out by lia.
      destruct (Nat.eqb_spec (pl + t - 1) (pl + size - 1)) as [Et|Nt].
      * apply (heap_root a pl size); [lia | exact Ha | exact Heap | lia | lia].
      * apply Bound; lia.
    + split; [exact R1|]. split.
      * exact (Permutation_trans Ps (Permutation_trans P R2)).
      * apply (same_outside_trans _ _ _ _ _ R3).
        apply (same_outside_trans _ (swap a (pl + size - 1) pl)).
        -- apply (same_outside_wider _ _ pl (pl + (size - 1) - 1)); try lia. exact Sf.
        -- apply same_outside_swap; lia.
Qed.

Lemma aheapsort_spec (a : list nat) (pl size : nat) :
  (1 <= size)%nat -> (pl + size <= List.length a)%nat -> below_all n a ->
  seg_sorted less (aheapsort less a pl size) pl (pl + size - 1)
  /\ Permutation a (aheapsort less a pl size)
  /\ same_outside (aheapsort less a pl size) a pl (pl + size - 1).
Proof.
  intros Hs Hlen Ha. unfold aheapsort.
  pose proof (Nat.div_mod_eq size 2) as E.
  pose proof (Nat.mod_upper_bound size 2 ltac:(lia)) as B.
  destruct (build_heap_spec (size / 2) a pl size) as [H1 [P1 S1]];
    [lia | lia | exact Ha | intros p c Hp Hc Hcs; lia |].
  set (a1 := build_heap less (size / 2) a pl size) in *.
  destruct (drain_heap_spec size a1 pl size size) as [R1 [R2 R3]];
    [lia | destruct S1 as [L _]; lia | lia | lia
    | exact (below_all_perm _ _ _ P1 Ha) | exact H1
    | intros i j Hi Hij Hj; lia | intros h t Hh1 Hh2 Ht1 Ht2; lia |].
  split; [exact R1|]. split; [exact (Permutation_trans P1 R2)|].
  exact (same_outside_trans _ _ _ _ _ R3 S1).
Qed.


(** ** The introsort *)

Lemma aquicksort_segment_spec (fuel : nat) (popped : bool) (cdepth : Z)
    (a : list nat) (pl pr : nat) :
  (pl <= pr)%nat -> (pr < List.length a)%nat -> (pr - pl < fuel)%nat ->
  below_all n a ->
  seg_sorted less (aquicksort_segment less fuel popped cdepth a pl pr) pl pr
  /\ Permutation a (aquicksort_segment less fuel popped cdepth a pl pr)
  /\ same_outside (aquicksort_segment less fuel popped cdepth a pl pr) a pl pr.
Proof.
  revert popped cdepth a pl pr; induction fuel as [|fuel IH];
    intros popped cdepth a pl pr Hl Hlen Hfuel Ha; [lia|].
  cbn [aquicksort_segment].
  destruct (popped && (cdepth <? 0)%Z).
  { destruct (aheapsort_spec a pl (pr - pl + 1)) as [R1 [R2 R3]];
      [lia | lia | exact Ha |].
    replace (pl + (pr - pl + 1) - 1)%nat with pr in R1, R3 by lia. now split. }
  destruct (Nat.ltb_spec 16 (pr - pl)) as [C|C];
    [|now apply insertion_sort_sorted].
  destruct (partition_spec a pl pr) as [Q1 [Q2 [Q3 [Q4 [Q5 Q6]]]]];
    [lia | lia | exact Ha |].
  destruct (partition less a pl pr) as [a1 pi]. cbn [fst snd] in *.
  assert (L1 : List.length a1 = List.length a) by apply Q4.
  assert (B1 : below_all n a1) by exact (below_all_perm _ _ _ Q3 Ha).
  (* the array after both sides are sorted, whichever comes first *)
  assert (Join : forall r,
            Permutation a1 r -> same_outside r a1 pl pr ->
            get r pi = get a1 pi ->
            seg_sorted less r pl (pi - 1) -> seg_sorted less r (pi + 1) pr ->
            (forall k, (pl <= k)%nat -> (k < pi)%nat ->
               exists k', (pl <= k')%nat /\ (k' < pi)%nat /\ get r k = get a1 k') ->
            (forall k, (pi < k)%nat -> (k <= pr)%nat ->
               exists k', (pi < k')%nat /\ (k' <= pr)%nat /\ get r k = get a1 k') ->
            seg_sorted less r pl pr /\ Permutation a r /\ same_outside r a pl pr).
  { intros r P O E S1 S2 I1 I2.
    assert (Lr : List.length r = List.length a) by (destruct O; lia).
    split; [|split; [exact (Permutation_trans Q3 P)
                    | exact (same_outside_trans _ _ _ _ _ O Q4)]].
    apply (join_sorted r pl pi pr); [lia | exact (below_all_perm _ _ _ P B1)
                                     | exact S1 | exact S2 | |].
    - intros k Hk1 Hk2. destruct (I1 k Hk1 Hk2) as [k' [A1 [A2 ->]]].
      rewrite E. now apply Q5.
    - intros k Hk1 Hk2. destruct (I2 k Hk1 Hk2) as [k' [A1 [A2 ->]]].
      rewrite E. now apply Q6. }
  destruct (Nat.ltb_spec (pi - pl) (pr - pi)) as [D|D].
  - destruct (IH false (cdepth - 1)%Z a1 pl (pi - 1)%nat) as [R1 [R2 R3]];
      [lia | lia | lia | exact B1 |].
    set (a2 := aquicksort_segment less fuel false (cdepth - 1) a1 pl (pi - 1)) in *.
    assert (L2 : List.length a2 = List.length a1) by apply R3.
    destruct (IH true (cdepth - 1)%Z a2 (pi + 1)%nat pr) as [T1 [T2 T3]];
      [lia | lia | lia | exact (below_all_perm _ _ _ R2 B1) |].
    set (r := aquicksort_segment less fuel true (cdepth - 1) a2 (pi + 1) pr) in *.
    apply Join.
    + exact (Permutation_trans R2 T2).
    + apply (same_outside_trans _ a2).
      * apply (same_outside_wider _ _ (pi + 1) pr); [lia | lia | exact T3].
      * apply (same_outside_wider _ _ pl (pi - 1)); [lia | lia | exact R3].
    + destruct T3 as [_ T3]. rewrite T3 by lia.
      destruct R3 as [_ R3]. apply R3. lia.
    + apply (seg_sorted_same a2); [|exact R1].
      intros k Hk1 Hk2. destruct T3 as [_ T3]. apply T3. lia.
    + exact T1.
    + intros k Hk1 Hk2.
      assert (E : get r k = get a2 k) by (destruct T3 as [_ T3]; apply T3; lia).
      destruct (perm_segment a1 a2 pl (pi - 1) k R2 R3) as [k' [K1 [K2 [K3 K4]]]];
        try lia.
      exists k'. rewrite E, K4. repeat split; lia.
    + intros k Hk1 Hk2.
      destruct (perm_segment a2 r (pi + 1) pr k T2 T3) as [k' [K1 [K2 [K3 K4]]]];
        try lia.
      { destruct T3 as [L3 _]. lia. }
      exists k'. rewrite K4. destruct R3 as [_ R3]. rewrite R3 by lia.
      repeat split; lia.
  - destruct (IH false (cdepth - 1)%Z a1 (pi + 1)%nat pr) as [R1 [R2 R3]];
      [lia | lia | lia | exact B1 |].
    set (a2 := aquicksort_segment less fuel false (cdepth - 1) a1 (pi + 1) pr) in *.
    assert (L2 : List.length a2 = List.length a1) by apply R3.
    destruct (IH true (cdepth - 1)%Z a2 pl (pi - 1)%nat) as [T1 [T2 T3]];
      [lia | lia | lia | exact (below_all_perm _ _ _ R2 B1) |].
    set (r := aquicksort_segment less fuel true (cdepth - 1) a2 pl (pi - 1)) in *.
    apply Join.
    + exact (Permutation_trans R2 T2).
    + apply (same_outside_trans _ a2).
      * apply (same_outside_wider _ _ pl (pi - 1)); [lia | lia | exact T3].
      * apply (same_outside_wider _ _ (pi + 1) pr); [lia | lia | exact R3].
    + destruct T3 as [_ T3]. rewrite T3 by lia.
      destruct R3 as [_ R3]. apply R3. lia.
    + exact T1.
    + apply (seg_sorted_same a2); [|exact R1].
      intros k Hk1 Hk2. destruct T3 as [_ T3]. apply T3. lia.
    + intros k Hk1 Hk2.
      destruct (perm_segment a2 r pl (pi - 1) k T2 T3) as [k' [K1 [K2 [K3 K4]]]];
        try lia.
      { destruct T3 as [L3 _]. lia. }
      exists k'. rewrite K4. destruct R3 as [_ R3]. rewrite R3 by lia.
      repeat split; lia.
    + intros k Hk1 Hk2.
      assert (E : get r k = get a2 k) by (destruct T3 as [_ T3]; apply T3; lia).
      destruct (perm_segment a1 a2 (pi + 1) pr k R2 R3) as [k' [K1 [K2 [K3 K4]]]];
        try lia.
      exists k'. rewrite E, K4. repeat split; lia.
Qed.

Lemma get_seq (k : nat) : (k < n)%nat -> get (seq 0 n) k = k.
Proof. intros H. unfold get. now rewrite seq_nth. Qed.

Lemma below_all_seq : below_all n (seq 0 n).
Proof. intros k Hk. rewrite length_seq in Hk. now rewrite get_seq. Qed.

Lemma argsort_quicksort_spec :
  Permutation (seq 0 n) (argsort_quicksort less n)
  /\ sorted_by less (argsort_quicksort less n).
Proof.
  unfold argsort_quicksort. destruct (Nat.eq_dec n 0) as [E|N].
  - rewrite E. cbn. split; [constructor|]. intros i j Hij Hj. cbn in Hj. lia.
  - destruct (aquicksort_segment_spec (S n) true (2 * Z.log2 (Z.of_nat n))%Z
                (seq 0 n) 0 (n - 1)) as [R1 [R2 R3]];
      [lia | rewrite length_seq; lia | lia | exact below_all_seq |].
    split; [exact R2|]. intros i j Hij Hj.
    destruct R3 as [L _]. rewrite L, length_seq in Hj. apply R1; lia.
Qed.

(** ** Short arrays are sorted by insertion, which keeps the order of
    the rows with equal keys *)

Lemma less_then_number_order : strict_weak_order (less_then_number less) n.
Proof.
  destruct order as [I [T N]]. unfold less_then_number. split; [|split].
  - intros i Hi. rewrite (I i Hi), Nat.ltb_irrefl. reflexivity.
  - intros i j k Hi Hj Hk H1 H2.
    destruct (less i k) eqn:Eik; [reflexivity|]. cbn [orb] in *.
    destruct (less i j) eqn:Eij; cbn [orb] in H1.
    + destruct (less j k) eqn:Ejk; [now rewrite (T i j k) in Eik|].
      cbn [orb] in H2. apply andb_true_iff in H2 as [H2 H2'].
      apply negb_true_iff in H2.
      (* i < j, j ~ k : then i < k *)
      now rewrite (N i k j Hi Hk Hj Eik H2) in Eij.
    + apply andb_true_iff in H1 as [H1 H1']. apply negb_true_iff in H1.
      destruct (less j k) eqn:Ejk; cbn [orb] in H2.
      * now rewrite (N j i k Hj Hi Hk H1 Eik) in Ejk.
      * apply andb_true_iff in H2 as [H2 H2']. apply negb_true_iff in H2.
        rewrite (N k j i Hk Hj Hi H2 H1). cbn [negb andb].
        apply Nat.ltb_lt in H1', H2'. apply Nat.ltb_lt. lia.
  - intros i j k Hi Hj Hk H1 H2.
    apply orb_false_iff in H1 as [A1 A2]. apply orb_false_iff in H2 as [B1 B2].
    rewrite (N i j k Hi Hj Hk A1 B1). cbn [orb].
    destruct (less k i) eqn:Eki; [reflexivity|]. cbn [negb andb].
    destruct (less j i) eqn:Eji.
    + (* j < i and not k < i : then j < k *)
      destruct (less k j) eqn:Ekj.
      * now rewrite (T k j i Hk Hj Hi Ekj Eji) in Eki.
      * cbn [negb andb] in B2.
        assert (Ejk : less j k = true).
        { destruct (less j k) eqn:E; [reflexivity|].
          now rewrite (N j k i Hj Hk Hi E Eki) in Eji. }
        congruence.
    + cbn [negb andb] in A2. destruct (less k j) eqn:Ekj.
      * now rewrite (N k i j Hk Hi Hj Eki) in Ekj by exact A1.
      * cbn [negb andb] in B2. apply Nat.ltb_ge in A2, B2. apply Nat.ltb_ge. lia.
Qed.

Lemma insertion_from_numbered (turns : nat) (a : list nat) (pl pi : nat) :
  (pl < pi)%nat -> (pi + turns <= List.length a)%nat ->
  (forall k, (pi <= k)%nat -> (k < List.length a)%nat -> get a k = k) ->
  (forall k, (pl <= k)%nat -> (k < pi)%nat -> (get a k < pi)%nat) ->
  insertion_from less turns a pl pi
  = insertion_from (less_then_number less) turns a pl pi.
Proof.
  revert a pi; induction turns as [|turns IH]; intros a pi Hl Hlen Id Lo;
    [reflexivity|].
  cbn [insertion_from].
  assert (E : insert_at less (pi - pl) a pl pi (get a pi)
              = insert_at (less_then_number less) (pi - pl) a pl pi (get a pi)).
  { apply insert_at_ext. intros k Hk1 Hk2. unfold less_then_number.
    rewrite (Id pi) by lia.
    replace (pi <? get a k)%nat with false
      by (symmetry; apply Nat.ltb_ge; specialize (Lo k Hk1 Hk2); lia).
    now rewrite andb_false_r, orb_false_r. }
  rewrite <- E.
  destruct (insert_at_frame less (pi - pl) a pl pi pi (get a pi)) as [P O];
    [lia | lia | lia |].
  rewrite put_same in P, O.
  set (a1 := insert_at less (pi - pl) a pl pi (get a pi)) in *.
  assert (L1 : List.length a1 = List.length a) by apply O.
  apply IH; [lia | lia | |].
  - intros k Hk1 Hk2. destruct O as [_ O]. rewrite O by lia. apply Id; lia.
  - intros k Hk1 Hk2.
    destruct (perm_segment a a1 pl pi k P O) as [k' [K1 [K2 [K3 K4]]]]; try lia.
    rewrite K4. destruct (Nat.eq_dec k' pi) as [->|N'].
    + rewrite Id by lia. lia.
    + specialize (Lo k' K1 ltac:(lia)). lia.
Qed.

Lemma argsort_small_is_insertion :
  (n <= 17)%nat ->
  argsort_quicksort less n = insertion_sort (less_then_number less) (seq 0 n) 0 (n - 1).
Proof.
  intros H. destruct (Nat.eq_dec n 0) as [E|N]; [rewrite E; reflexivity|].
  unfold argsort_quicksort. cbn [aquicksort_segment].
  replace (2 * Z.log2 (Z.of_nat n) <? 0)%Z with false
    by (symmetry; apply Z.ltb_ge; pose proof (Z.log2_nonneg (Z.of_nat n)); lia).
  cbn [andb].
  replace (16 <? n - 1 - 0)%nat with false by (symmetry; apply Nat.ltb_ge; lia).
  unfold insertion_sort. apply insertion_from_numbered.
  - lia.
  - rewrite length_seq. lia.
  - intros k Hk1 Hk2. rewrite length_seq in Hk2. now apply get_seq.
  - intros k Hk1 Hk2. rewrite get_seq by lia. lia.
Qed.

End SortProofs.

(** X23. The argsort behind [sort_values] sorts: when the comparison of
    the keys is a strict weak order on the row numbers below [num], the
    row numbers returned are a rearrangement of [0 .. num-1] in which no
    key is below the key of an earlier place.  This holds on every path
    of the introsort: partitioning, insertion sort and heapsort. *)
Theorem argsort_quicksort_sorts (less : nat -> nat -> bool) (num : nat) :
  strict_weak_order less num ->
  Permutation (seq 0 num) (argsort_quicksort less num)
  /\ sorted_by less (argsort_quicksort less num).
Proof. intros order. exact (argsort_quicksort_spec less num order). Qed.

Lemma argsort_quicksort_sorts_witness :
  Permutation (seq 0 20) (argsort_quicksort (fun i j => (i mod 7 <? j mod 7)%nat) 20)
  /\ sorted_by (fun i j => (i mod 7 <? j mod 7)%nat)
       (argsort_quicksort (fun i j => (i mod 7 <? j mod 7)%nat) 20).
Proof.
  apply (argsort_quicksort_sorts (fun i j => (i mod 7 <? j mod 7)%nat) 20).
  split; [|split].
  - intros i Hi. apply Nat.ltb_irrefl.
  - intros i j k Hi Hj Hk H1 H2. apply Nat.ltb_lt in H1, H2. apply Nat.ltb_lt. lia.
  - intros i j k Hi Hj Hk H1 H2. apply Nat.ltb_ge in H1, H2. apply Nat.ltb_ge. lia.
Defined.

Lemma argsort_small_spec (less : nat -> nat -> bool) (num : nat) :
  (num <= 17)%nat -> strict_weak_order less num ->
  Permutation (seq 0 num) (argsort_quicksort less num)
  /\ sorted_by (less_then_number less) (argsort_quicksort less num).
Proof.
  intros H order. split; [exact (proj1 (argsort_quicksort_spec less num order))|].
  rewrite (argsort_small_is_insertion less num H).
  destruct (Nat.eq_dec num 0) as [->|N].
  { intros i j Hij Hj. cbn in Hj. lia. }
  destruct (insertion_sort_sorted (less_then_number less) num
              (less_then_number_order less num order) (seq 0 num) 0 (num - 1))
    as [R1 [_ R3]]; [lia | rewrite length_seq; lia | apply below_all_seq |].
  intros i j Hij Hj. destruct R3 as [L _]. rewrite L, length_seq in Hj.
  apply R1; lia.
Qed.

(** On the generic path of numpy an array of up to 17 row numbers is
    sorted by insertion alone, which is stable: the row numbers come out
    sorted by key and, among rows with equal keys, in ascending order.
    (Above 17 rows the first partition can reverse two rows with equal
    keys, see C1; a build that hands the keys to x86-simd-sort promises
    no order among equal keys at any size.) *)
Theorem argsort_small_stable (less : nat -> nat -> bool) (num : nat) :
  (num <= 17)%nat -> strict_weak_order less num ->
  Permutation (seq 0 num) (argsort_quicksort less num)
  /\ sorted_by (less_then_number less) (argsort_quicksort less num).
Proof. exact (argsort_small_spec less num). Qed.

Lemma argsort_small_stable_witness :
  Permutation (seq 0 10) (argsort_quicksort (fun i j => (i mod 3 <? j mod 3)%nat) 10)
  /\ sorted_by (less_then_number (fun i j => (i mod 3 <? j mod 3)%nat))
       (argsort_quicksort (fun i j => (i mod 3 <? j mod 3)%nat) 10).
Proof.
  apply (argsort_small_stable (fun i j => (i mod 3 <? j mod 3)%nat) 10); [lia|].
  split; [|split].
  - intros i Hi. apply Nat.ltb_irrefl.
  - intros i j k Hi Hj Hk H1 H2. apply Nat.ltb_lt in H1, H2. apply Nat.ltb_lt. lia.
  - intros i j k Hi Hj Hk H1 H2. apply Nat.ltb_ge in H1, H2. apply Nat.ltb_ge. lia.
Defined.

(* ================================================================== *)
(** * The order of the keys *)
(* ================================================================== *)

Lemma rank_lt_irrefl (a : Z * Z * Z) : ~ rank_lt a a.
Proof. unfold rank_lt. lia. Qed.

Lemma rank_lt_trans (a b c : Z * Z * Z) : rank_lt a b -> rank_lt b c -> rank_lt a c.
Proof. unfold rank_lt. lia. Qed.

Lemma rank_trichotomy (a b : Z * Z * Z) : rank_lt a b \/ a = b \/ rank_lt b a.
Proof.
  destruct a as [[a1 a2] a3], b as [[b1 b2] b3]. unfold rank_lt. cbn [fst snd].
  destruct (Z.lt_trichotomy a1 b1) as [?|[->|?]]; [tauto | | tauto].
  destruct (Z.lt_trichotomy a2 b2) as [?|[->|?]]; [tauto | | tauto].
  destruct (Z.lt_trichotomy a3 b3) as [?|[->|?]]; tauto.
Qed.

Lemma SFcompare_rank (x y : spec_float) :
  x <> S754_nan -> y <> S754_nan ->
  (SFltb x y = true <-> rank_lt (float_rank x) (float_rank y))
  /\ (SFeqb x y = true <-> float_rank x = float_rank y).
Proof.
  intros Hx Hy. unfold SFltb, SFeqb, rank_lt.
  destruct x as [sx|sx| |sx mx ex]; [| |congruence|];
  destruct y as [sy|sy| |sy my ey]; try congruence;
  try destruct sx; try destruct sy; cbn [SFcompare float_rank fst snd];
  try solve [split; split; intros H; try discriminate H; try reflexivity;
             try lia; try (injection H; lia)].
  - (* both negative *)
    destruct (Z.compare_spec ex ey) as [E|E|E];
      [subst; change (PosDef.Pos.compare_cont Eq mx my) with (Pos.compare mx my);
       destruct (Pos.compare_spec mx my) as [F|F|F]; cbn [CompOpp] | |];
      (split; split; intros H; try discriminate H; try reflexivity;
       try lia; try (injection H; lia); try (subst; reflexivity)).
  - (* both positive *)
    destruct (Z.compare_spec ex ey) as [E|E|E];
      [subst; change (PosDef.Pos.compare_cont Eq mx my) with (Pos.compare mx my);
       destruct (Pos.compare_spec mx my) as [F|F|F] | |];
      (split; split; intros H; try discriminate H; try reflexivity;
       try lia; try (injection H; lia); try (subst; reflexivity)).
Qed.

Lemma is_nan_decoded (f : float) :
  PrimFloat.is_nan f = true -> Prim2SF f = S754_nan.
Proof.
  unfold PrimFloat.is_nan. rewrite FloatAxioms.eqb_spec. unfold SFeqb.
  destruct (Prim2SF f) as [s|s| |s m e]; try reflexivity; cbn [SFcompare].
  - discriminate.
  - destruct s; discriminate.
  - destruct s; rewrite Z.compare_refl;
      change (PosDef.Pos.compare_cont Eq m m) with (Pos.compare m m);
      rewrite Pos.compare_refl; discriminate.
Qed.

Lemma key_isna_rank (a b : key) :
  same_kind a b -> key_isna a = false -> key_isna b = false ->
  (key_less a b = true <-> rank_lt (key_rank a) (key_rank b))
  /\ (key_same a b = true <-> key_rank a = key_rank b).
Proof.
  destruct a as [x|f], b as [y|g]; cbn [same_kind]; try contradiction.
  - intros _ _ _. cbn [key_less key_same key_rank]. unfold rank_lt. cbn [fst snd].
    rewrite Z.ltb_lt, Z.eqb_eq.
    split; split; intros H; try lia; try congruence; injection H; lia.
  - intros _ Hf Hg. cbn [key_isna] in Hf, Hg. cbn [key_less key_same key_rank].
    rewrite Hf. cbn [andb]. rewrite orb_false_r.
    rewrite FloatAxioms.ltb_spec, FloatAxioms.eqb_spec.
    apply SFcompare_rank; now apply not_nan_decoded.
Qed.

Lemma key_less_nan (a b : key) :
  key_isna a = true \/ key_isna b = true -> key_less a b = false.
Proof.
  destruct a as [x|f], b as [y|g]; cbn [key_isna key_less]; try reflexivity;
    intros [H|H]; try discriminate H.
  - apply is_nan_decoded in H. rewrite FloatAxioms.ltb_spec. unfold SFltb.
    now rewrite H.
  - apply is_nan_decoded in H. rewrite FloatAxioms.ltb_spec. unfold SFltb.
    rewrite H. now destruct (Prim2SF f).
Qed.

Lemma key_same_nan (a b : key) :
  same_kind a b -> key_same a b = true -> key_isna a = key_isna b.
Proof.
  destruct a as [x|f], b as [y|g]; cbn [same_kind key_isna key_same];
    try contradiction; try reflexivity.
  intros _ H. destruct (PrimFloat.is_nan f) eqn:Ef, (PrimFloat.is_nan g) eqn:Eg;
    try reflexivity; cbn [andb] in H; rewrite ?andb_false_r, orb_false_r in H;
    rewrite FloatAxioms.eqb_spec in H; unfold SFeqb in H.
  - apply is_nan_decoded in Ef. rewrite Ef in H. discriminate H.
  - apply is_nan_decoded in Eg. rewrite Eg in H.
    destruct (Prim2SF f); discriminate H.
Qed.

Lemma key_same_refl (a : key) : key_same a a = true.
Proof.
  destruct a as [x|f]; cbn [key_same]; [apply Z.eqb_refl|].
  unfold PrimFloat.is_nan. now destruct (PrimFloat.eqb f f).
Qed.

Lemma key_same_both_nan (a b : key) :
  same_kind a b -> key_isna a = true -> key_isna b = true -> key_same a b = true.
Proof.
  destruct a as [x|f], b as [y|g]; cbn [same_kind key_isna key_same];
    try contradiction; try discriminate.
  intros _ -> ->. apply orb_true_r.
Qed.

Lemma key_same_trans (a b c : key) :
  same_kind a b -> same_kind b c ->
  key_same a b = true -> key_same b c = true -> key_same a c = true.
Proof.
  intros K1 K2 H1 H2.
  assert (K3 : same_kind a c) by (destruct a, b, c; cbn in *; tauto).
  pose proof (key_same_nan a b K1 H1) as N1.
  pose proof (key_same_nan b c K2 H2) as N2.
  destruct (key_isna a) eqn:Ea.
  - apply key_same_both_nan; congruence.
  - apply (key_isna_rank a c K3); [exact Ea | congruence|].
    apply (key_isna_rank a b K1) in H1; [|exact Ea | congruence].
    apply (key_isna_rank b c K2) in H2; congruence.
Qed.

(** Two keys of one column are equal, or one comes before the other. *)
Lemma key_trichotomy (a b : key) :
  same_kind a b -> key_before a b \/ key_same a b = true \/ key_before b a.
Proof.
  intros K. unfold key_before.
  destruct (key_isna a) eqn:Ea, (key_isna b) eqn:Eb.
  - right. left. now apply key_same_both_nan.
  - right. right. right. now split.
  - left. right. now split.
  - destruct (key_isna_rank a b K Ea Eb) as [L S].
    assert (K' : same_kind b a) by (destruct a, b; cbn in *; tauto).
    destruct (key_isna_rank b a K' Eb Ea) as [L' _].
    destruct (rank_trichotomy (key_rank a) (key_rank b)) as [H|[H|H]].
    + left. left. now apply L.
    + right. left. now apply S.
    + right. right. left. now apply L'.
Qed.


(** ** Lists of row numbers *)

Lemma pairs_of_nth {A : Type} (R : A -> A -> Prop) (l : list A) (d : A) :
  (forall a b, (a < b)%nat -> (b < List.length l)%nat -> R (nth a l d) (nth b l d)) ->
  ForallOrdPairs R l.
Proof.
  induction l as [|x l IH]; intros H; [constructor|]. constructor.
  - apply Forall_forall. intros y Hy. apply (In_nth _ _ d) in Hy as [b [Hb <-]].
    apply (H 0%nat (S b)); cbn [List.length]; lia.
  - apply IH. intros a b Hab Hb. apply (H (S a) (S b)); cbn [List.length]; lia.
Qed.

Lemma nth_of_pairs {A : Type} (R : A -> A -> Prop) (l : list A) (d : A) :
  ForallOrdPairs R l ->
  forall a b, (a < b)%nat -> (b < List.length l)%nat -> R (nth a l d) (nth b l d).
Proof.
  induction 1 as [|x l F _ IH]; intros a b Hab Hb; [cbn in Hb; lia|].
  cbn [List.length] in Hb. destruct b as [|b]; [lia|]. destruct a as [|a].
  - cbn [nth]. rewrite Forall_forall in F. apply F. apply nth_In. lia.
  - cbn [nth]. apply IH; lia.
Qed.

Lemma pairs_app {A : Type} (R : A -> A -> Prop) (l1 l2 : list A) :
  ForallOrdPairs R l1 -> ForallOrdPairs R l2 ->
  (forall x y, In x l1 -> In y l2 -> R x y) -> ForallOrdPairs R (l1 ++ l2).
Proof.
  induction 1 as [|x l F _ IH]; intros H2 C; [exact H2|].
  cbn [app]. constructor.
  - apply Forall_app. split; [exact F|]. apply Forall_forall. intros y Hy.
    apply C; [now left | exact Hy].
  - apply IH; [exact H2|]. intros a b Ha Hb. apply C; [now right | exact Hb].
Qed.

Lemma pairs_map {A B : Type} (g : A -> B) (R : B -> B -> Prop) (l : list A) :
  ForallOrdPairs (fun a b => R (g a) (g b)) l -> ForallOrdPairs R (map g l).
Proof.
  induction 1 as [|x l F _ IH]; cbn [map]; constructor; [|exact IH].
  apply Forall_forall. intros y Hy. apply in_map_iff in Hy as [a [<- Ha]].
  rewrite Forall_forall in F. now apply F.
Qed.

Lemma pairs_all {A : Type} (R : A -> A -> Prop) (l : list A) :
  (forall x y, In x l -> In y l -> R x y) -> ForallOrdPairs R l.
Proof.
  induction l as [|x l IH]; intros H; constructor.
  - apply Forall_forall. intros y Hy. apply H; [now left | now right].
  - apply IH. intros a b Ha Hb. apply H; now right.
Qed.

Lemma pairs_filter {A : Type} (R : A -> A -> Prop) (p : A -> bool) (l : list A) :
  ForallOrdPairs R l -> ForallOrdPairs R (filter p l).
Proof.
  induction 1 as [|x l F _ IH]; cbn [filter]; [constructor|].
  destruct (p x); [|exact IH]. constructor; [|exact IH].
  apply Forall_forall. intros y Hy. apply filter_In in Hy as [Hy _].
  rewrite Forall_forall in F. now apply F.
Qed.

Lemma pairs_seq (start len : nat) : ForallOrdPairs lt (seq start len).
Proof.
  revert start; induction len as [|len IH]; intros start; cbn [seq]; constructor;
    [|apply IH].
  apply Forall_forall. intros y Hy. apply in_seq in Hy. lia.
Qed.

Lemma filter_split_perm {A : Type} (p : A -> bool) (l : list A) :
  Permutation l (filter p l ++ filter (fun x => negb (p x)) l).
Proof.
  induction l as [|x l IH]; [constructor|]. cbn [filter].
  destruct (p x); cbn [negb app].
  - now constructor.
  - now apply Permutation_cons_app.
Qed.

Lemma map_nth_seq {A : Type} (l : list A) (d : A) :
  map (fun i => nth i l d) (seq 0 (List.length l)) = l.
Proof.
  apply (nth_ext _ _ d d).
  - now rewrite length_map, length_seq.
  - intros i Hi. rewrite length_map, length_seq in Hi.
    rewrite (nth_indep _ d (nth 0 l d)) by (rewrite length_map, length_seq; lia).
    rewrite (map_nth (fun i => nth i l d) (seq 0 (List.length l)) 0%nat i).
    now rewrite seq_nth.
Qed.

(** ** pandas' nargsort *)

Section Nargsort.

Variable keys : list key.
Hypothesis kinds : one_kind keys.

Local Abbreviation K := (key_at keys).
Local Abbreviation has_key := (fun i => negb (key_isna (nth i keys (KInt 0)))).
Local Abbreviation non_nan_idx := (filter has_key (seq 0 (List.length keys))).
Local Abbreviation nan_idx :=
  (filter (fun i => negb (has_key i)) (seq 0 (List.length keys))).
Local Abbreviation non_nans := (map (fun i => nth i keys (KInt 0)) non_nan_idx).
Local Abbreviation less :=
  (fun i j => key_less (nth i non_nans (KInt 0)) (nth j non_nans (KInt 0))).
Local Abbreviation g := (fun i => nth i non_nan_idx 0%nat).

Lemma key_at_kind (i j : nat) :
  (i < List.length keys)%nat -> (j < List.length keys)%nat -> same_kind (K i) (K j).
Proof. intros Hi Hj. apply kinds; now apply nth_In. Qed.

Lemma non_nan_at (s : nat) :
  (s < List.length non_nans)%nat ->
  nth s non_nans (KInt 0) = K (g s)
  /\ (g s < List.length keys)%nat /\ key_isna (K (g s)) = false.
Proof.
  intros Hs. rewrite length_map in Hs.
  assert (I : In (g s) non_nan_idx) by now apply nth_In.
  apply filter_In in I as [I1 I2]. apply in_seq in I1.
  apply negb_true_iff in I2. split; [|split; [lia | exact I2]].
  rewrite (nth_indep _ (KInt 0) (nth 0 keys (KInt 0))) by now rewrite length_map.
  now rewrite (map_nth (fun i => nth i keys (KInt 0)) non_nan_idx 0%nat s).
Qed.

Lemma less_rank (i j : nat) :
  (i < List.length non_nans)%nat -> (j < List.length non_nans)%nat ->
  (less i j = true <-> rank_lt (key_rank (K (g i))) (key_rank (K (g j))))
  /\ (key_same (K (g i)) (K (g j)) = true <-> key_rank (K (g i)) = key_rank (K (g j))).
Proof.
  intros Hi Hj.
  destruct (non_nan_at i Hi) as [E1 [B1 N1]]. destruct (non_nan_at j Hj) as [E2 [B2 N2]].
  cbv beta. rewrite E1, E2.
  apply key_isna_rank; [now apply key_at_kind | exact N1 | exact N2].
Qed.

Lemma less_order : strict_weak_order less (List.length non_nans).
Proof.
  split; [|split].
  - intros i Hi. destruct (less i i) eqn:E; [|reflexivity].
    apply (less_rank i i Hi Hi) in E. now apply rank_lt_irrefl in E.
  - intros i j k Hi Hj Hk H1 H2.
    apply (less_rank i j Hi Hj) in H1. apply (less_rank j k Hj Hk) in H2.
    apply (less_rank i k Hi Hk). exact (rank_lt_trans _ _ _ H1 H2).
  - intros i j k Hi Hj Hk H1 H2.
    destruct (less i k) eqn:E; [|reflexivity].
    apply (less_rank i k Hi Hk) in E.
    assert (N1 : ~ rank_lt (key_rank (K (g i))) (key_rank (K (g j)))).
    { intros C. apply (less_rank i j Hi Hj) in C. cbv beta in H1. congruence. }
    assert (N2 : ~ rank_lt (key_rank (K (g j))) (key_rank (K (g k)))).
    { intros C. apply (less_rank j k Hj Hk) in C. cbv beta in H2. congruence. }
    exfalso. unfold rank_lt in *. lia.
Qed.

Lemma nan_idx_nan (i : nat) :
  In i nan_idx -> (i < List.length keys)%nat /\ key_isna (K i) = true.
Proof.
  intros H. apply filter_In in H as [H1 H2]. apply in_seq in H1.
  rewrite negb_involutive in H2. split; [lia | exact H2].
Qed.

Lemma nargsort_perm : Permutation (seq 0 (List.length keys)) (nargsort keys).
Proof.
  unfold nargsort.
  destruct (argsort_quicksort_spec less (List.length non_nans) less_order) as [P _].
  apply (Permutation_trans (filter_split_perm has_key _)).
  apply Permutation_app_tail.
  apply (Permutation_map g) in P.
  rewrite length_map in P at 1. rewrite map_nth_seq in P. exact P.
Qed.

(** The positions of the sorted part. *)
Lemma sorted_positions (sorted : list nat) (a : nat) :
  Permutation (seq 0 (List.length non_nans)) sorted ->
  (a < List.length sorted)%nat -> (nth a sorted 0 < List.length non_nans)%nat.
Proof.
  intros P Ha.
  assert (I : In (nth a sorted 0%nat) (seq 0 (List.length non_nans))).
  { apply (Permutation_in _ (Permutation_sym P)). now apply nth_In. }
  apply in_seq in I. lia.
Qed.

Lemma nargsort_sorted :
  ForallOrdPairs (fun i j => ~ key_before (K j) (K i)) (nargsort keys).
Proof.
  unfold nargsort.
  destruct (argsort_quicksort_spec less (List.length non_nans) less_order) as [P S].
  set (sorted := argsort_quicksort less (List.length non_nans)) in *.
  apply pairs_app.
  - apply pairs_map. apply (pairs_of_nth _ _ 0%nat). intros a b Hab Hb.
    pose proof (sorted_positions sorted a P ltac:(lia)) as Ba.
    pose proof (sorted_positions sorted b P Hb) as Bb.
    specialize (S a b Hab Hb). unfold get in S. cbv beta in S.
    destruct (non_nan_at _ Ba) as [Ea [_ Na]].
    destruct (non_nan_at _ Bb) as [Eb [_ Nb]].
    rewrite Ea, Eb in S. intros [C|[_ C]]; congruence.
  - apply pairs_all. intros x y Hx Hy.
    destruct (nan_idx_nan y Hy) as [_ Ny].
    intros [C|[C _]]; [|congruence].
    rewrite key_less_nan in C; [discriminate | now left].
  - intros x y Hx Hy. destruct (nan_idx_nan y Hy) as [_ Ny].
    intros [C|[C _]]; [|congruence].
    rewrite key_less_nan in C; [discriminate | now left].
Qed.

Lemma nargsort_stable :
  (List.length keys <= 17)%nat ->
  ForallOrdPairs (fun i j => key_same (K i) (K j) = true -> (i < j)%nat)
                 (nargsort keys).
Proof.
  intros Small. unfold nargsort.
  assert (M : (List.length non_nans <= 17)%nat).
  { rewrite length_map.
    pose proof (filter_length_le has_key (seq 0 (List.length keys))) as L.
    rewrite length_seq in L. lia. }
  destruct (argsort_small_spec less (List.length non_nans) M less_order) as [P S].
  set (sorted := argsort_quicksort less (List.length non_nans)) in *.
  assert (Inc : ForallOrdPairs lt non_nan_idx) by apply pairs_filter, pairs_seq.
  apply pairs_app.
  - apply pairs_map. apply (pairs_of_nth _ _ 0%nat). intros a b Hab Hb Same.
    pose proof (sorted_positions sorted a P ltac:(lia)) as Ba.
    pose proof (sorted_positions sorted b P Hb) as Bb.
    specialize (S a b Hab Hb). unfold get, less_then_number in S.
    apply orb_false_iff in S as [_ S].
    assert (E : less (nth a sorted 0%nat) (nth b sorted 0%nat) = false).
    { destruct (less (nth a sorted 0%nat) (nth b sorted 0%nat)) eqn:C; [|reflexivity].
      apply (less_rank _ _ Ba Bb) in C. apply (less_rank _ _ Ba Bb) in Same.
      rewrite Same in C. now apply rank_lt_irrefl in C. }
    cbv beta in E, S. rewrite E in S. cbn [negb andb] in S. apply Nat.ltb_ge in S.
    assert (Ne : nth a sorted 0%nat <> nth b sorted 0%nat).
    { intros C.
      assert (ND : NoDup sorted).
      { apply (Permutation_NoDup P). apply seq_NoDup. }
      apply (proj1 (NoDup_nth sorted 0%nat) ND a b) in C; lia. }
    apply (nth_of_pairs lt non_nan_idx 0%nat Inc); [lia|].
    rewrite length_map in Bb. exact Bb.
  - assert (IncN : ForallOrdPairs lt nan_idx) by apply pairs_filter, pairs_seq.
    apply (pairs_of_nth _ _ 0%nat). intros a b Hab Hb _.
    now apply (nth_of_pairs lt _ 0%nat IncN).
  - intros x y Hx Hy Same. exfalso.
    destruct (nan_idx_nan y Hy) as [By Ny].
    apply in_map_iff in Hx as [s [<- Hs]].
    assert (Bs : (s < List.length non_nans)%nat).
    { apply (Permutation_in _ (Permutation_sym P)) in Hs. apply in_seq in Hs. lia. }
    destruct (non_nan_at s Bs) as [_ [Bg Ng]].
    pose proof (key_same_nan _ _ (key_at_kind _ _ Bg By) Same). congruence.
Qed.

End Nargsort.


(** ** Dropping the duplicates of a sorted column *)

Lemma keep_last_last_of_each (keyed : list (key * list cell)) :
  keep_last keyed = last_of_each keyed.
Proof.
  induction keyed as [|[k row] rest IH]; [reflexivity|].
  cbn [keep_last last_of_each]. now rewrite IH.
Qed.

Lemma existsb_map {A B : Type} (p : B -> bool) (h : A -> B) (l : list A) :
  existsb p (map h l) = existsb (fun x => p (h x)) l.
Proof.
  induction l as [|x l IH]; [reflexivity|]. cbn [map existsb]. now rewrite IH.
Qed.

Lemma last_of_each_map {A B : Type} (kf : A -> key) (f : A -> B) (l : list A) :
  last_of_each (map (fun i => (kf i, f i)) l)
  = map f (last_of_each (map (fun i => (kf i, i)) l)).
Proof.
  induction l as [|x l IH]; [reflexivity|].
  cbn [map last_of_each]. rewrite !existsb_map. cbn [fst].
  destruct (existsb (fun i => key_same (kf x) (kf i)) l); [exact IH|].
  cbn [map]. now rewrite IH.
Qed.

Lemma same_kind_sym (a b : key) : same_kind a b -> same_kind b a.
Proof. destruct a, b; cbn; tauto. Qed.

Lemma key_same_sym (a b : key) :
  same_kind a b -> key_same a b = true -> key_same b a = true.
Proof.
  intros Kd H. pose proof (key_same_nan a b Kd H) as N.
  destruct (key_isna a) eqn:Ea.
  - apply key_same_both_nan; [now apply same_kind_sym | congruence | exact Ea].
  - apply (key_isna_rank b a (same_kind_sym _ _ Kd)); [congruence | exact Ea|].
    apply (key_isna_rank a b Kd) in H; congruence.
Qed.

Section KeepLast.

Variable K : nat -> key.

Local Abbreviation order_of :=
  (fun l : list nat => last_of_each (map (fun i => (K i, i)) l)).

Lemma order_step (i : nat) (l : list nat) :
  order_of (i :: l)
  = if existsb (fun j => key_same (K i) (K j)) l then order_of l else i :: order_of l.
Proof. cbn [map last_of_each]. now rewrite existsb_map. Qed.

Lemma order_incl (l : list nat) (j : nat) : In j (order_of l) -> In j l.
Proof.
  induction l as [|i l IH]; [easy|]. rewrite order_step.
  destruct (existsb _ l); [intros H; right; now apply IH|].
  intros [->|H]; [now left | right; now apply IH].
Qed.

Lemma order_NoDup (l : list nat) : NoDup l -> NoDup (order_of l).
Proof.
  induction 1 as [|i l Hi _ IH]; [constructor|]. rewrite order_step.
  destruct (existsb _ l); [exact IH|]. constructor; [|exact IH].
  intros H. apply Hi. now apply order_incl.
Qed.

Lemma order_ascending (l : list nat) :
  (forall i j, In i l -> In j l -> same_kind (K i) (K j)) ->
  ForallOrdPairs (fun i j => ~ key_before (K j) (K i)) l ->
  ForallOrdPairs (fun i j => key_before (K i) (K j)) (order_of l).
Proof.
  intros Kd H. induction H as [|i l F _ IH]; [constructor|]. rewrite order_step.
  assert (IH' : ForallOrdPairs (fun i j => key_before (K i) (K j)) (order_of l)).
  { apply IH. intros a b Ha Hb. apply Kd; now right. }
  destruct (existsb (fun j => key_same (K i) (K j)) l) eqn:E; [exact IH'|].
  constructor; [|exact IH']. apply Forall_forall. intros j Hj.
  apply order_incl in Hj. rewrite Forall_forall in F.
  destruct (key_trichotomy (K i) (K j)) as [C|[C|C]].
  - apply Kd; [now left | now right].
  - exact C.
  - assert (T : existsb (fun j => key_same (K i) (K j)) l = true).
    { apply existsb_exists. now exists j. }
    congruence.
  - now elim (F j Hj).
Qed.

Lemma order_complete (l : list nat) :
  (forall i j, In i l -> In j l -> same_kind (K i) (K j)) ->
  forall i, In i l -> exists j, In j (order_of l) /\ key_same (K i) (K j) = true.
Proof.
  induction l as [|i0 l IH]; intros Kd i Hi; [easy|].
  assert (Kd' : forall a b, In a l -> In b l -> same_kind (K a) (K b)).
  { intros a b Ha Hb. apply Kd; now right. }
  rewrite order_step.
  destruct (existsb (fun j => key_same (K i0) (K j)) l) eqn:E.
  - destruct Hi as [<-|Hi]; [|now apply IH].
    apply existsb_exists in E as [i1 [H1 S1]].
    destruct (IH Kd' i1 H1) as [j [Hj Sj]]. exists j. split; [exact Hj|].
    apply (key_same_trans _ (K i1)); try assumption.
    + apply Kd; [now left | now right].
    + apply Kd; right; [exact H1 | now apply order_incl].
  - destruct Hi as [<-|Hi].
    + exists i0. split; [now left | apply key_same_refl].
    + destruct (IH Kd' i Hi) as [j [Hj Sj]]. exists j. split; [now right | exact Sj].
Qed.

Lemma order_last (l : list nat) :
  (forall i j, In i l -> In j l -> same_kind (K i) (K j)) ->
  ForallOrdPairs (fun i j => key_same (K i) (K j) = true -> (i < j)%nat) l ->
  forall j, In j (order_of l) -> forall i, In i l -> (j < i)%nat ->
    key_same (K j) (K i) = false.
Proof.
  intros Kd H. induction H as [|i0 l F _ IH]; intros j Hj i Hi Hji; [easy|].
  assert (Kd' : forall a b, In a l -> In b l -> same_kind (K a) (K b)).
  { intros a b Ha Hb. apply Kd; now right. }
  rewrite Forall_forall in F.
  assert (Before : forall j', In j' l -> (j' < i0)%nat -> key_same (K j') (K i0) = false).
  { intros j' Hj' Lt. destruct (key_same (K j') (K i0)) eqn:C; [|reflexivity].
    apply key_same_sym in C; [|apply Kd; [now right | now left]].
    specialize (F j' Hj' C). lia. }
  rewrite order_step in Hj.
  destruct (existsb (fun j => key_same (K i0) (K j)) l) eqn:E.
  - destruct Hi as [<-|Hi]; [|now apply (IH Kd')].
    apply Before; [now apply order_incl | exact Hji].
  - destruct Hj as [<-|Hj].
    + destruct Hi as [<-|Hi]; [lia|].
      destruct (key_same (K i0) (K i)) eqn:C; [|reflexivity].
      assert (T : existsb (fun j => key_same (K i0) (K j)) l = true).
      { apply existsb_exists. now exists i. }
      congruence.
    + destruct Hi as [<-|Hi]; [|now apply (IH Kd')].
      apply Before; [now apply order_incl | exact Hji].
Qed.

End KeepLast.

(** ** The keys of a column and of its rearrangement *)

Lemma forallb_perm {A : Type} (p : A -> bool) (l l' : list A) :
  Permutation l l' -> forallb p l = forallb p l'.
Proof.
  induction 1 as [|x l l' _ IH|x y l|l l' l'' _ IH1 _ IH2]; cbn [forallb].
  - reflexivity.
  - now rewrite IH.
  - now destruct (p x), (p y).
  - congruence.
Qed.

Lemma map_result_nth {A B : Type} (f : A -> result B) (xs : list A) (ys : list B)
    (i : nat) (dx : A) (dy : B) :
  map_result f xs = Ok ys -> (i < List.length xs)%nat ->
  f (nth i xs dx) = Ok (nth i ys dy).
Proof.
  revert ys i; induction xs as [|x xs IH]; intros ys i H Hi; [cbn in Hi; lia|].
  cbn [map_result] in H. apply bind_ok in H as [y [Hy H]].
  apply bind_ok in H as [ys' [Hys H]]. injection H as <-.
  destruct i as [|i]; [exact Hy|]. cbn [nth]. apply IH; [exact Hys|].
  cbn [List.length] in Hi. lia.
Qed.

Lemma map_result_map {A B C : Type} (f : B -> result C) (h : A -> B) (k : A -> C)
    (l : list A) :
  (forall i, In i l -> f (h i) = Ok (k i)) ->
  map_result f (map h l) = Ok (map k l).
Proof.
  induction l as [|i l IH]; intros H; [reflexivity|].
  cbn [map map_result]. rewrite (H i (or_introl eq_refl)). cbn [bind].
  rewrite IH; [reflexivity|]. intros j Hj. apply H. now right.
Qed.

Lemma column_keys_kind (cells : list cell) (keys : list key) :
  column_keys cells = Ok keys ->
  one_kind keys /\ List.length keys = List.length cells.
Proof.
  unfold column_keys. destruct (forallb is_int_cell cells).
  - intros H. injection H as <-. split; [|apply length_map].
    intros a b Ha Hb. apply in_map_iff in Ha as [x [<- _]].
    apply in_map_iff in Hb as [y [<- _]]. now destruct x, y.
  - intros H. split; [|exact (map_result_length _ _ _ H)].
    assert (F : forall k, In k keys -> exists f, k = KFloat f).
    { intros k Hk. apply (In_nth _ _ (KInt 0)) in Hk as [i [Hi <-]].
      rewrite (map_result_length _ _ _ H) in Hi.
      pose proof (map_result_nth _ _ _ i CNone (KInt 0) H Hi) as E.
      destruct (nth i cells CNone) as [|z|f|s|z]; cbn [float_key] in E.
      - injection E as <-. now eexists.
      - destruct (float_of_int z); [|discriminate E]. cbn [bind] in E.
        injection E as <-. now eexists.
      - injection E as <-. now eexists.
      - discriminate E.
      - destruct (float_of_int z); [|discriminate E]. cbn [bind] in E.
        injection E as <-. now eexists. }
    intros a b Ha Hb. destruct (F a Ha) as [f ->], (F b Hb) as [g' ->]. exact I.
Qed.

Lemma column_keys_rearranged (cells : list cell) (keys : list key) (perm : list nat)
    (dc : cell) :
  column_keys cells = Ok keys -> Permutation (seq 0 (List.length cells)) perm ->
  column_keys (map (fun i => nth i cells dc) perm) = Ok (map (key_at keys) perm).
Proof.
  intros H P.
  assert (B : forall i, In i perm -> (i < List.length cells)%nat).
  { intros i Hi. apply (Permutation_in _ (Permutation_sym P)) in Hi.
    apply in_seq in Hi. lia. }
  assert (Pc : Permutation cells (map (fun i => nth i cells dc) perm)).
  { rewrite <- (map_nth_seq cells dc) at 1. now apply Permutation_map. }
  unfold column_keys in *. rewrite <- (forallb_perm _ _ _ Pc).
  destruct (forallb is_int_cell cells).
  - injection H as <-. f_equal. rewrite map_map. apply map_ext_in.
    intros i Hi. unfold key_at.
    rewrite (nth_indep _ (KInt 0) (int_key dc)) by (rewrite length_map; now apply B).
    now rewrite map_nth.
  - apply map_result_map. intros i Hi. unfold key_at.
    apply map_result_nth; [exact H | now apply B].
Qed.

Lemma ok_eq {A : Type} (a b : A) : Ok a = Ok b -> a = b.
Proof. intros H. now injection H. Qed.

Lemma combine_map {A B C : Type} (f : A -> B) (h : A -> C) (l : list A) :
  combine (map f l) (map h l) = map (fun i => (f i, h i)) l.
Proof. induction l as [|x l IH]; [reflexivity|]. cbn. now rewrite IH. Qed.

(** The rows of the combined table, as row numbers of the concatenation:
    the rows in the order of [nargsort], without those that a later one
    duplicates. *)
Lemma combine_dataframes_order (dfs : list DataFrame) (x_col : str) (out : DataFrame) :
  combine_dataframes dfs x_col = Ok (Some out) ->
  exists keys,
    column_keys (column (concat dfs) x_col) = Ok keys
    /\ List.length keys = List.length (rows (concat dfs))
    /\ one_kind keys
    /\ columns out = columns (concat dfs)
    /\ rows out
       = map (fun i => nth i (rows (concat dfs)) [])
             (last_of_each (map (fun i => (key_at keys i, i)) (nargsort keys))).
Proof.
  unfold combine_dataframes. destruct dfs as [|df dfs]; [discriminate|].
  set (c := concat (df :: dfs)). intros H.
  apply bind_ok in H as [sorted [Hs H]]. apply bind_ok in H as [dedup [Hd H]].
  injection H as <-.
  unfold sort_values in Hs. destruct (has_column c x_col) eqn:Hc; [|discriminate Hs].
  apply bind_ok in Hs as [keys [Hk Hs]]. apply ok_eq in Hs. rewrite <- Hs in Hd.
  clear Hs sorted.
  destruct (column_keys_kind _ _ Hk) as [Kd Lk].
  assert (Lc : List.length (column c x_col) = List.length (rows c)).
  { unfold column. apply length_map. }
  exists keys. split; [exact Hk|]. split; [congruence|]. split; [exact Kd|].
  unfold drop_duplicates_last in Hd.
  match type of Hd with
  | context [has_column ?sorted x_col] =>
      change (has_column sorted x_col) with (has_column c x_col) in Hd
  end.
  rewrite Hc in Hd.
  assert (E : column {| columns := columns c;
                        rows := map (fun i => nth i (rows c) []) (nargsort keys) |}
                x_col
              = map (fun i => nth i (column c x_col)
                                (hd CNone (labelled (columns c) [] x_col)))
                    (nargsort keys)).
  { unfold column. cbn [columns rows]. rewrite map_map. apply map_ext.
    intros i.
    now rewrite (map_nth (fun row => hd CNone (labelled (columns c) row x_col))). }
  rewrite E in Hd.
  rewrite (column_keys_rearranged _ keys _ _ Hk) in Hd.
  2:{ rewrite <- Lk. now apply nargsort_perm. }
  cbn [bind] in Hd. apply ok_eq in Hd. rewrite <- Hd. cbn [columns rows].
  split; [reflexivity|].
  rewrite combine_map, keep_last_last_of_each.
  apply (last_of_each_map (key_at keys) (fun i => nth i (rows c) [])).
Qed.

(** X25. The combined table is sorted and free of duplicates, whatever
    the number of rows: its rows are rows of the concatenation of the
    input tables, each taken at most once; their x values are strictly
    ascending, a missing x coming last and at most once; and every x
    value of the input tables occurs in it. *)
Theorem combine_sorted_unique (dfs : list DataFrame) (x_col : str) (out : DataFrame) :
  combine_dataframes dfs x_col = Ok (Some out) ->
  exists keys order,
    column_keys (column (concat dfs) x_col) = Ok keys
    /\ columns out = columns (concat dfs)
    /\ rows out = map (fun i => nth i (rows (concat dfs)) []) order
    /\ NoDup order
    /\ (forall i, In i order -> (i < List.length (rows (concat dfs)))%nat)
    /\ ForallOrdPairs key_before (map (key_at keys) order)
    /\ (forall i, (i < List.length (rows (concat dfs)))%nat ->
          exists j, In j order /\ key_same (key_at keys i) (key_at keys j) = true).
Proof.
  intros H. destruct (combine_dataframes_order dfs x_col out H)
    as [keys [Hk [Lk [Kd [Hc Hr]]]]].
  exists keys, (last_of_each (map (fun i => (key_at keys i, i)) (nargsort keys))).
  pose proof (nargsort_perm keys Kd) as P.
  assert (B : forall i, In i (nargsort keys) <-> (i < List.length keys)%nat).
  { intros i. split; intros Hi.
    - apply (Permutation_in _ (Permutation_sym P)) in Hi. apply in_seq in Hi. lia.
    - apply (Permutation_in _ P). apply in_seq. lia. }
  assert (Kn : forall i j, In i (nargsort keys) -> In j (nargsort keys) ->
                 same_kind (key_at keys i) (key_at keys j)).
  { intros i j Hi Hj. apply (key_at_kind keys Kd); now apply B. }
  split; [exact Hk|]. split; [exact Hc|]. split; [exact Hr|]. split.
  { apply order_NoDup. apply (Permutation_NoDup P). apply seq_NoDup. }
  split.
  { intros i Hi. apply order_incl, B in Hi. lia. }
  split.
  { apply pairs_map. apply order_ascending; [exact Kn|].
    exact (nargsort_sorted keys Kd). }
  intros i Hi. apply order_complete; [exact Kn|]. apply B. lia.
Qed.

Lemma combine_sorted_unique_witness :
  exists out keys order,
    column_keys (column (concat [earlier_table; later_table]) (lit "Month")) = Ok keys
    /\ columns out = columns (concat [earlier_table; later_table])
    /\ rows out
       = map (fun i => nth i (rows (concat [earlier_table; later_table])) []) order
    /\ NoDup order
    /\ (forall i, In i order ->
          (i < List.length (rows (concat [earlier_table; later_table])))%nat)
    /\ ForallOrdPairs key_before (map (key_at keys) order)
    /\ (forall i, (i < List.length (rows (concat [earlier_table; later_table])))%nat ->
          exists j, In j order /\ key_same (key_at keys i) (key_at keys j) = true).
Proof.
  eexists.
  apply (combine_sorted_unique [earlier_table; later_table] (lit "Month")).
  vm_compute. reflexivity.
Defined.

(** With the generic path of numpy and up to 17 rows in all the later
    table wins: of the rows with the same x value the combiner keeps the
    one that comes last in the concatenation of the input tables.  This
    is a fact about that path only: [sort_values] is called without
    [kind='stable'], so the program itself does not promise it at any
    size (see C1 for 18 rows). *)
Theorem combine_small_later_wins (dfs : list DataFrame) (x_col : str) (out : DataFrame) :
  combine_dataframes dfs x_col = Ok (Some out) ->
  (List.length (rows (concat dfs)) <= 17)%nat ->
  exists keys order,
    column_keys (column (concat dfs) x_col) = Ok keys
    /\ rows out = map (fun i => nth i (rows (concat dfs)) []) order
    /\ forall j, In j order ->
         forall i, (j < i)%nat -> (i < List.length (rows (concat dfs)))%nat ->
           key_same (key_at keys j) (key_at keys i) = false.
Proof.
  intros H Small. destruct (combine_dataframes_order dfs x_col out H)
    as [keys [Hk [Lk [Kd [Hc Hr]]]]].
  exists keys, (last_of_each (map (fun i => (key_at keys i, i)) (nargsort keys))).
  pose proof (nargsort_perm keys Kd) as P.
  assert (B : forall i, In i (nargsort keys) <-> (i < List.length keys)%nat).
  { intros i. split; intros Hi.
    - apply (Permutation_in _ (Permutation_sym P)) in Hi. apply in_seq in Hi. lia.
    - apply (Permutation_in _ P). apply in_seq. lia. }
  assert (Kn : forall i j, In i (nargsort keys) -> In j (nargsort keys) ->
                 same_kind (key_at keys i) (key_at keys j)).
  { intros i j Hi Hj. apply (key_at_kind keys Kd); now apply B. }
  split; [exact Hk|]. split; [exact Hr|].
  intros j Hj i Hji Hi.
  apply (order_last (key_at keys) (nargsort keys) Kn); try assumption.
  - apply nargsort_stable; [exact Kd | lia].
  - apply B. lia.
Qed.

Lemma combine_small_later_wins_witness :
  exists out keys order,
    column_keys (column (concat [month_table 100 [0; 1; 2]%Z; month_table 200 [2; 3]%Z])
                   (lit "Month")) = Ok keys
    /\ rows out
       = map (fun i => nth i (rows (concat [month_table 100 [0; 1; 2]%Z;
                                            month_table 200 [2; 3]%Z])) []) order
    /\ forall j, In j order ->
         forall i, (j < i)%nat ->
           (i < List.length (rows (concat [month_table 100 [0; 1; 2]%Z;
                                           month_table 200 [2; 3]%Z])))%nat ->
           key_same (key_at keys j) (key_at keys i) = false.
Proof.
  eexists.
  apply (combine_small_later_wins
           [month_table 100 [0; 1; 2]%Z; month_table 200 [2; 3]%Z] (lit "Month")).
  - vm_compute. reflexivity.
  - vm_compute. lia.
Defined.
